(** * The local image-transform pipeline of the Gemini image editor

    A shallow embedding of [src/script.js] (class [GeminiImageEditor], the
    methods from [processImageEdit] down to [createFallbackModifiedImage],
    and the methods of the page around them: the key, the form, the results
    grid and the downloads) together with the properties the specification
    states about it and further properties of the code.

    Conventions of the embedding.
    - JavaScript numbers are IEEE 754 binary64 values: Rocq's primitive
      [float].  Loop counters and canvas dimensions, which the code only ever
      treats as non-negative integers, are [nat]; pixel bytes are [Z].
    - Strings are [string]; a character is read as one Latin-1 code unit
      (U+0000..U+00FF).  Code units above U+00FF are outside the model.
    - The browser (image decoding, rasterisation, JPEG encoding, the network
      call, [Math.random], [Date.now]) is a [Host] record of functions; the
      program is embedded once, for every host.
    - Effects are explicit: an effectful computation maps the [World] (how
      many images were loaded, how many random numbers and clock readings
      were taken) to an [Outcome]: a value, a thrown error, or a promise that
      never settles. *)

From Stdlib Require Import ZArith List Lia Bool Arith String Ascii DecimalString.
From Stdlib Require Import Floats.PrimFloat Floats.FloatOps Floats.SpecFloat Uint63.
From Stdlib Require DecimalNat DecimalPos DecimalZ.
Import ListNotations.

Set Warnings "-inexact-float".
Local Open Scope string_scope.
Local Open Scope list_scope.

(* ================================================================== *)
(** ** JavaScript strings *)
(* ================================================================== *)

Module JsString.

(** The double quote character U+0022, used by the prompt templates. *)
Definition dquote : string := String (ascii_of_nat 34) EmptyString.

(** [String.prototype.toLowerCase] on one Latin-1 code unit: A-Z and the
    capital letters U+00C0..U+00DE (except the multiplication sign U+00D7)
    move 32 places up; every other code unit is kept. *)
Definition lowerChar (c : ascii) : ascii :=
  let n := nat_of_ascii c in
  if ((65 <=? n) && (n <=? 90))%nat then ascii_of_nat (n + 32)
  else if ((192 <=? n) && (n <=? 222) && negb (n =? 215))%nat then ascii_of_nat (n + 32)
  else c.

Fixpoint toLowerCase (s : string) : string :=
  match s with
  | EmptyString => EmptyString
  | String c s' => String (lowerChar c) (toLowerCase s')
  end.

(** [s.startsWith(t)]. *)
Fixpoint startsWith (s t : string) : bool :=
  match t, s with
  | EmptyString, _ => true
  | String _ _, EmptyString => false
  | String b t', String a s' => Ascii.eqb a b && startsWith s' t'
  end.

(** [s.includes(t)]: [t] occurs in [s] at some position. *)
Fixpoint includes (s t : string) : bool :=
  startsWith s t ||
  match s with
  | EmptyString => false
  | String _ s' => includes s' t
  end.

(** White space and line terminators of ECMAScript within Latin-1:
    TAB, LF, VT, FF, CR, SP and NBSP. *)
Definition isWhiteSpace (c : ascii) : bool :=
  let n := nat_of_ascii c in
  ((9 <=? n) && (n <=? 13) || (n =? 32) || (n =? 160))%nat.

Fixpoint trimStart (s : string) : string :=
  match s with
  | EmptyString => EmptyString
  | String c s' => if isWhiteSpace c then trimStart s' else s
  end.

Fixpoint trimEnd (s : string) : string :=
  match s with
  | EmptyString => EmptyString
  | String c s' =>
      match trimEnd s' with
      | EmptyString => if isWhiteSpace c then EmptyString else String c EmptyString
      | r => String c r
      end
  end.

(** [s.trim()]. *)
Definition trim (s : string) : string := trimEnd (trimStart s).

(** A string is truthy when it is not empty. *)
Definition truthy (s : string) : bool :=
  match s with EmptyString => false | String _ _ => true end.

(** [s.split(sep)] for a one-character separator: the pieces between the
    occurrences of [sep], at least one piece. *)
Fixpoint split (sep : ascii) (s : string) : list string :=
  match s with
  | EmptyString => [EmptyString]
  | String c s' =>
      if Ascii.eqb c sep then EmptyString :: split sep s'
      else match split sep s' with
           | piece :: pieces => String c piece :: pieces
           | [] => [String c EmptyString]
           end
  end.

(** How a template literal prints a value that may be [undefined]. *)
Definition interpolate (v : option string) : string :=
  match v with Some s => s | None => "undefined" end.

(** The value of a digit in the given radix, if the character is one. *)
Definition digitValue (radix : Z) (c : ascii) : option Z :=
  let n := Z.of_nat (nat_of_ascii c) in
  let v := if ((48 <=? n) && (n <=? 57))%Z then Some (n - 48)%Z
           else if ((97 <=? n) && (n <=? 122))%Z then Some (n - 87)%Z
           else if ((65 <=? n) && (n <=? 90))%Z then Some (n - 55)%Z
           else None in
  match v with
  | Some d => if (d <? radix)%Z then Some d else None
  | None => None
  end.

(** The longest prefix of digits, read in the radix: [acc] is the value of
    the digits read so far, [seen] whether there was one. *)
Fixpoint digits (radix : Z) (s : string) (acc : Z) (seen : bool) : option Z :=
  match s with
  | EmptyString => if seen then Some acc else None
  | String c s' =>
      match digitValue radix c with
      | Some d => digits radix s' (acc * radix + d)%Z true
      | None => if seen then Some acc else None
      end
  end.

(** [parseInt(s)] with no radix argument; [None] is NaN.  Leading white
    space is skipped, a sign is read, a [0x]/[0X] prefix selects radix 16,
    and the digits end at the first character that is not one.  The result
    is the exact integer; JavaScript rounds it to the nearest binary64
    value, which is the same number up to 2^53, has the same sign, and is
    zero only for zero.  What is stated of the number read, beyond its sign
    and its being zero, is stated of integers of magnitude up to 2^53. *)
Definition parseInt (s : string) : option Z :=
  let s1 := trimStart s in
  let '(sign, s2) :=
    match s1 with
    | String c r =>
        if Ascii.eqb c "-" then ((-1)%Z, r)
        else if Ascii.eqb c "+" then (1%Z, r)
        else (1%Z, s1)
    | EmptyString => (1%Z, s1)
    end in
  let '(radix, s3) :=
    match s2 with
    | String z (String x r) =>
        if Ascii.eqb z "0" && (Ascii.eqb x "x" || Ascii.eqb x "X")
        then (16%Z, r) else (10%Z, s2)
    | _ => (10%Z, s2)
    end in
  match digits radix s3 0%Z false with
  | Some n => Some (sign * n)%Z
  | None => None
  end.

End JsString.

(* ================================================================== *)
(** ** JavaScript numbers and clamped byte storage *)
(* ================================================================== *)

Module JsNumber.

Local Open Scope float_scope.

(** The number a non-negative integer denotes (exact below 2^53; loop
    counters and canvas dimensions stay far below). *)
Definition num (n : nat) : float := of_uint63 (Uint63.of_Z (Z.of_nat n)).

(** Reading an element of a [Uint8ClampedArray]; an index past the end
    reads [undefined], which arithmetic turns into NaN. *)
Definition element (v : option Z) : float :=
  match v with
  | Some b => of_uint63 (Uint63.of_Z b)
  | None => nan
  end.

(** [Math.min(a, b)] and [Math.max(a, b)]: NaN if either is NaN. *)
Definition Math_min (a b : float) : float :=
  if is_nan a || is_nan b then nan else if b <? a then b else a.

Definition Math_max (a b : float) : float :=
  if is_nan a || is_nan b then nan else if a <? b then b else a.

(** [Math.floor(x)] as an integer; [None] for NaN and the infinities. *)
Definition Math_floor (x : float) : option Z :=
  match Prim2SF x with
  | S754_zero _ => Some 0%Z
  | S754_finite s m e =>
      let v := if s then Z.neg m else Z.pos m in
      Some (if (0 <=? e)%Z then v * 2 ^ e else v / 2 ^ (- e))%Z
  | _ => None
  end.

(** The integer part of a number strictly between 0 and 255: how many of
    1, 2, ..., 254 are at most [x]. *)
Definition floorBelow255 (x : float) : nat :=
  List.length (filter (fun n => num n <=? x) (seq 1 254)).

(** ECMAScript's ToUint8Clamp, the conversion applied when a number is
    stored into a [Uint8ClampedArray]: NaN becomes 0, the value is clamped
    to 0..255 and rounded to the nearest integer, a tie going to the even
    one. *)
Definition ToUint8Clamp (x : float) : Z :=
  if is_nan x then 0%Z
  else if x <=? 0 then 0%Z
  else if 255 <=? x then 255%Z
  else
    let f := floorBelow255 x in
    let half := num f + 0.5 in
    if x <? half then Z.of_nat f
    else if half <? x then Z.of_nat (S f)
    else if Nat.even f then Z.of_nat f else Z.of_nat (S f).

Arguments floorBelow255 : simpl never.
Arguments ToUint8Clamp : simpl never.
Arguments Math_floor : simpl never.
Arguments Math_min : simpl never.
Arguments Math_max : simpl never.
Arguments num : simpl never.
Arguments element : simpl never.

End JsNumber.

(* ================================================================== *)
(** ** Colour transforms on a pixel buffer *)
(* ================================================================== *)

Module Pixels.

Import JsNumber.
Local Open Scope float_scope.

(** One entry of the [effects] array of [applyColorEffect]. *)
Record Factors := { f_r : float; f_g : float; f_b : float }.

Definition effects : list Factors :=
  [ {| f_r := 1.2; f_g := 0.8; f_b := 0.8 |}; (* Reddish *)
    {| f_r := 0.8; f_g := 0.8; f_b := 1.2 |}; (* Bluish *)
    {| f_r := 0.8; f_g := 1.2; f_b := 0.8 |}; (* Greenish *)
    {| f_r := 1.1; f_g := 1.1; f_b := 0.7 |}  (* Warm *) ].

(** [effects[variation % effects.length]]; the index is always in range. *)
Definition effectFor (variation : nat) : Factors :=
  nth (variation mod List.length effects) effects
      {| f_r := nan; f_g := nan; f_b := nan |}.

(** [Math.min(255, data[i] * factor)] as stored back into the array. *)
Definition tintChannel (factor : float) (v : Z) : Z :=
  ToUint8Clamp (Math_min 255 (element (Some v) * factor)).

(** The loop of [applyColorEffect] over the flat RGBA array, four elements
    per step; the alpha element is not written.  A buffer of an image has a
    length that is a multiple of four; on a shorter last group the writes
    past the end are dropped, as a typed array drops them. *)
Fixpoint tintLoop (effect : Factors) (data : list Z) : list Z :=
  match data with
  | r :: g :: b :: a :: rest =>
      tintChannel (f_r effect) r :: tintChannel (f_g effect) g
        :: tintChannel (f_b effect) b :: a :: tintLoop effect rest
  | [r; g; b] =>
      [tintChannel (f_r effect) r; tintChannel (f_g effect) g; tintChannel (f_b effect) b]
  | [r; g] => [tintChannel (f_r effect) r; tintChannel (f_g effect) g]
  | [r] => [tintChannel (f_r effect) r]
  | [] => []
  end.

(** The three rows of the sepia matrix of [addVariationEffect], case 2,
    on the numbers read from the array. *)
Definition sepiaR (r g b : float) : Z :=
  ToUint8Clamp (Math_min 255 ((r * 0.393) + (g * 0.769) + (b * 0.189))).
Definition sepiaG (r g b : float) : Z :=
  ToUint8Clamp (Math_min 255 ((r * 0.349) + (g * 0.686) + (b * 0.168))).
Definition sepiaB (r g b : float) : Z :=
  ToUint8Clamp (Math_min 255 ((r * 0.272) + (g * 0.534) + (b * 0.131))).

(** The sepia loop; [r], [g], [b] are read before any of them is written. *)
Fixpoint sepiaLoop (data : list Z) : list Z :=
  match data with
  | r :: g :: b :: a :: rest =>
      let '(fr, fg, fb) := (element (Some r), element (Some g), element (Some b)) in
      sepiaR fr fg fb :: sepiaG fr fg fb :: sepiaB fr fg fb :: a :: sepiaLoop rest
  | [r; g; b] =>
      let '(fr, fg, fb) := (element (Some r), element (Some g), element (Some b)) in
      [sepiaR fr fg fb; sepiaG fr fg fb; sepiaB fr fg fb]
  | [r; g] =>
      let '(fr, fg, fb) := (element (Some r), element (Some g), element None) in
      [sepiaR fr fg fb; sepiaG fr fg fb]
  | [r] =>
      let '(fr, fg, fb) := (element (Some r), element None, element None) in
      [sepiaR fr fg fb]
  | [] => []
  end.

(** A pixel as four consecutive elements of the array. *)
Definition pixelAt (data : list Z) (k : nat) : list Z :=
  firstn 4 (skipn (4 * k) data).

Definition isByte (v : Z) : Prop := (0 <= v <= 255)%Z.

Arguments tintChannel : simpl never.
Arguments sepiaR : simpl never.
Arguments sepiaG : simpl never.
Arguments sepiaB : simpl never.

End Pixels.

(* ================================================================== *)
(** ** The drawing surface and the host *)
(* ================================================================== *)

(** A decoded raster: the bitmap of an image or of a canvas. *)
Record Bitmap := { width : nat; height : nat; data : list Z }.

Inductive CompositeOp := source_over | screen | multiply | overlay.

(** What [fillStyle] and [strokeStyle] are set to: a colour written as a
    literal, the template [rgba(r, g, b, a)] with computed numbers, or a
    gradient object with its colour stops. *)
Inductive Paint :=
| Css (colour : string)
| Rgba (r g b a : float)
| LinearGradient (x0 y0 x1 y1 : float) (stops : list (float * string))
| RadialGradient (x0 y0 r0 x1 y1 r1 : float) (stops : list (float * string)).

(** A font written as the template [bold <size>px <family>]. *)
Record Font := { bold : bool; sizePx : float; family : string }.

(** The drawing state of a 2D context, as far as the program sets it. *)
Record DrawState := {
  globalCompositeOperation : CompositeOp;
  globalAlpha : float;
  fillStyle : Paint;
  strokeStyle : Paint;
  lineWidth : float;
  font : Font;
  textAlign : string;
  shadowColor : string;
  shadowBlur : float
}.

(** The state of a context just obtained from a new canvas. *)
Definition defaultState : DrawState := {|
  globalCompositeOperation := source_over;
  globalAlpha := 1.0;
  fillStyle := Css "#000000";
  strokeStyle := Css "#000000";
  lineWidth := 1.0;
  font := {| bold := false; sizePx := 10; family := "sans-serif" |};
  textAlign := "start";
  shadowColor := "rgba(0, 0, 0, 0)";
  shadowBlur := 0
|}.

(** A canvas with its context: the drawing state and the bitmap. *)
Record Canvas := { state : DrawState; surface : Bitmap }.

(** The calls that put pixels on the surface. *)
Inductive DrawCmd :=
| FillRect (x y w h : float)
| DrawImage (source : Bitmap) (dx dy : float)
| FillText (text : string) (x y : float)
| StrokeText (text : string) (x y : float).

Record JsError := { message : string }.

(** The [generationConfig] of the text-analysis request. *)
Record GenerationConfig := {
  temperature : float;
  topK : nat;
  topP : float;
  maxOutputTokens : nat
}.

(** The text-analysis request: the address, and of the JSON body the two
    [parts] (the text, and the image with its MIME type; a [data] that is
    [undefined] is left out of the JSON) and the [generationConfig].  The
    method is POST and the content type JSON in every request. *)
Record AnalysisRequest := {
  url : string;
  text : string;
  mime_type : string;
  inline_data : option string;
  generationConfig : GenerationConfig
}.

(** What the JSON of a response holds for the program:
    [error?.message] and [candidates?.[0]?.content?.parts?.[0]?.text]. *)
Record ResponseBody := {
  error_message : option string;
  candidate_text : option string
}.

(** How [fetch] ends: it rejects (no network), or it yields a response
    with its [ok] flag and what [json()] gives: the body, or a rejection. *)
Inductive FetchOutcome :=
| NetworkFailure (reason : JsError)
| Response (ok : bool) (json : JsError + ResponseBody).

(** The browser. [decode k src] is what the [k]-th image load of the page
    ends with for the source [src]: the decoded image ([onload]) or nothing
    ([onerror]). [rasterize] is what a drawing call does to a bitmap under a
    drawing state: the new content of its pixel buffer, or an exception. *)
Record Host := {
  decode : nat -> string -> option Bitmap;
  rasterize : DrawState -> DrawCmd -> Bitmap -> JsError + list Z;
  toDataURL : Bitmap -> string -> float -> string;
  fetch : AnalysisRequest -> FetchOutcome;
  random : nat -> float;
  now : nat -> Z
}.

(** The form and the fields of the editor object that the pipeline reads.
    They do not change during a run; what [processImageEdit] sets for the
    user interface while it runs (the processing flag, the loading overlay,
    the state of the button) is not part of the model. *)
Record Editor := {
  apiKey : string;
  selectedImage : option string;
  selectedImageFile_type : string;
  isProcessing : bool;
  promptInput : string;
  youtubeTitle : string;
  textStyle : string;
  numberOfImages : string
}.

(* ================================================================== *)
(** ** Effects: the world, outcomes, and their monad *)
(* ================================================================== *)

Record World := { loads : nat; randoms : nat; ticks : nat }.

Inductive Outcome (A : Type) :=
| Returned (a : A) (w : World)
| Thrown (e : JsError) (w : World)
| NeverSettles.

Arguments Returned {A} a w.
Arguments Thrown {A} e w.
Arguments NeverSettles {A}.

Definition Eff (A : Type) : Type := World -> Outcome A.

Definition ret {A} (a : A) : Eff A := fun w => Returned a w.

Definition bind {A B} (m : Eff A) (k : A -> Eff B) : Eff B :=
  fun w =>
    match m w with
    | Returned a w' => k a w'
    | Thrown e w' => Thrown e w'
    | NeverSettles => NeverSettles
    end.

Definition throw {A} (e : JsError) : Eff A := fun w => Thrown e w.

(** [try { body } catch (error) { handler }]. *)
Definition tryCatch {A} (body : Eff A) (handler : JsError -> Eff A) : Eff A :=
  fun w =>
    match body w with
    | Thrown e w' => handler e w'
    | o => o
    end.

Declare Scope eff_scope.
Delimit Scope eff_scope with eff.
Notation "x <- m ;; k" := (bind m (fun x => k))
  (at level 61, m at next level, right associativity) : eff_scope.
Notation "m ;;; k" := (bind m (fun _ => k))
  (at level 61, right associativity) : eff_scope.

(* ================================================================== *)
(** ** The 2D context *)
(* ================================================================== *)

Module Ctx.

Definition set_globalCompositeOperation (v : CompositeOp) (c : Canvas) : Canvas :=
  let s := state c in
  {| state := {| globalCompositeOperation := v; globalAlpha := globalAlpha s;
                 fillStyle := fillStyle s; strokeStyle := strokeStyle s;
                 lineWidth := lineWidth s; font := font s; textAlign := textAlign s;
                 shadowColor := shadowColor s; shadowBlur := shadowBlur s |};
     surface := surface c |}.

Definition set_globalAlpha (v : float) (c : Canvas) : Canvas :=
  let s := state c in
  {| state := {| globalCompositeOperation := globalCompositeOperation s; globalAlpha := v;
                 fillStyle := fillStyle s; strokeStyle := strokeStyle s;
                 lineWidth := lineWidth s; font := font s; textAlign := textAlign s;
                 shadowColor := shadowColor s; shadowBlur := shadowBlur s |};
     surface := surface c |}.

Definition set_fillStyle (v : Paint) (c : Canvas) : Canvas :=
  let s := state c in
  {| state := {| globalCompositeOperation := globalCompositeOperation s;
                 globalAlpha := globalAlpha s;
                 fillStyle := v; strokeStyle := strokeStyle s;
                 lineWidth := lineWidth s; font := font s; textAlign := textAlign s;
                 shadowColor := shadowColor s; shadowBlur := shadowBlur s |};
     surface := surface c |}.

Definition set_strokeStyle (v : Paint) (c : Canvas) : Canvas :=
  let s := state c in
  {| state := {| globalCompositeOperation := globalCompositeOperation s;
                 globalAlpha := globalAlpha s;
                 fillStyle := fillStyle s; strokeStyle := v;
                 lineWidth := lineWidth s; font := font s; textAlign := textAlign s;
                 shadowColor := shadowColor s; shadowBlur := shadowBlur s |};
     surface := surface c |}.

Definition set_lineWidth (v : float) (c : Canvas) : Canvas :=
  let s := state c in
  {| state := {| globalCompositeOperation := globalCompositeOperation s;
                 globalAlpha := globalAlpha s;
                 fillStyle := fillStyle s; strokeStyle := strokeStyle s;
                 lineWidth := v; font := font s; textAlign := textAlign s;
                 shadowColor := shadowColor s; shadowBlur := shadowBlur s |};
     surface := surface c |}.

Definition set_font (v : Font) (c : Canvas) : Canvas :=
  let s := state c in
  {| state := {| globalCompositeOperation := globalCompositeOperation s;
                 globalAlpha := globalAlpha s;
                 fillStyle := fillStyle s; strokeStyle := strokeStyle s;
                 lineWidth := lineWidth s; font := v; textAlign := textAlign s;
                 shadowColor := shadowColor s; shadowBlur := shadowBlur s |};
     surface := surface c |}.

Definition set_textAlign (v : string) (c : Canvas) : Canvas :=
  let s := state c in
  {| state := {| globalCompositeOperation := globalCompositeOperation s;
                 globalAlpha := globalAlpha s;
                 fillStyle := fillStyle s; strokeStyle := strokeStyle s;
                 lineWidth := lineWidth s; font := font s; textAlign := v;
                 shadowColor := shadowColor s; shadowBlur := shadowBlur s |};
     surface := surface c |}.

Definition set_shadowColor (v : string) (c : Canvas) : Canvas :=
  let s := state c in
  {| state := {| globalCompositeOperation := globalCompositeOperation s;
                 globalAlpha := globalAlpha s;
                 fillStyle := fillStyle s; strokeStyle := strokeStyle s;
                 lineWidth := lineWidth s; font := font s; textAlign := textAlign s;
                 shadowColor := v; shadowBlur := shadowBlur s |};
     surface := surface c |}.

Definition set_shadowBlur (v : float) (c : Canvas) : Canvas :=
  let s := state c in
  {| state := {| globalCompositeOperation := globalCompositeOperation s;
                 globalAlpha := globalAlpha s;
                 fillStyle := fillStyle s; strokeStyle := strokeStyle s;
                 lineWidth := lineWidth s; font := font s; textAlign := textAlign s;
                 shadowColor := shadowColor s; shadowBlur := v |};
     surface := surface c |}.

(** [document.createElement('canvas')] sized to an image: default state,
    every pixel transparent black. *)
Definition createCanvas (w h : nat) : Canvas :=
  {| state := defaultState;
     surface := {| width := w; height := h; data := repeat 0%Z (4 * w * h) |} |}.

Section WithHost.

Variable host : Host.

(** A drawing call: the host rasterises it onto the surface under the
    current state; the state and the size of the canvas are left as they
    are. *)
Definition draw (cmd : DrawCmd) (c : Canvas) : Eff Canvas :=
  fun w =>
    match rasterize host (state c) cmd (surface c) with
    | inr d =>
        Returned {| state := state c;
                    surface := {| width := width (surface c);
                                  height := height (surface c); data := d |} |} w
    | inl e => Thrown e w
    end.

Definition fillRect (x y w h : float) := draw (FillRect x y w h).
Definition fillText (t : string) (x y : float) := draw (FillText t x y).
Definition strokeText (t : string) (x y : float) := draw (StrokeText t x y).
Definition drawImage (source : Bitmap) (dx dy : float) := draw (DrawImage source dx dy).

(** [ctx.getImageData(0, 0, sw, sh)]: an IndexSizeError when a side of the
    rectangle is zero.  Every call of the program passes the canvas's own
    width and height, so the rectangle read is the whole surface.  A canvas
    too large for the browser to read (a RangeError) is outside the model:
    a call that returns here is a call on a canvas the browser can read. *)
Definition getImageData (sw sh : nat) (c : Canvas) : Eff (list Z) :=
  if ((sw =? 0) || (sh =? 0))%nat
  then throw {| message := "IndexSizeError: The source width or height is 0." |}
  else ret (data (surface c)).

(** [ctx.putImageData(imageData, 0, 0)] for a buffer of the whole surface. *)
Definition putImageData (d : list Z) (c : Canvas) : Eff Canvas :=
  ret {| state := state c;
         surface := {| width := width (surface c); height := height (surface c);
                       data := d |} |}.

(** [Math.random()]: the next number of the host's source. *)
Definition Math_random : Eff float :=
  fun w => Returned (random host (randoms w))
                    {| loads := loads w; randoms := S (randoms w); ticks := ticks w |}.

(** [Date.now()]: the next reading of the host's clock. *)
Definition Date_now : Eff Z :=
  fun w => Returned (now host (ticks w))
                    {| loads := loads w; randoms := randoms w; ticks := S (ticks w) |}.

End WithHost.

End Ctx.

(* ================================================================== *)
(** ** The methods of [GeminiImageEditor] *)
(* ================================================================== *)

(** One entry of the list [generateModifiedImages] returns. *)
Record Result := {
  imageData : string;
  prompt : string;
  timestamp : Z;
  variation : nat
}.

Section Methods.

Import JsString JsNumber Pixels Ctx.
Local Open Scope float_scope.
Local Open Scope eff_scope.

Variable host : Host.
Variable this : Editor.

(** *** Colour, brightness, darkness and blur *)

Definition applyColorEffect (width height variation : nat) (ctx : Canvas) : Eff Canvas :=
  data <- getImageData width height ctx ;;
  let effect := effectFor variation in
  putImageData (tintLoop effect data) ctx.

Definition applyBrightnessEffect (width height variation : nat) (ctx : Canvas) : Eff Canvas :=
  let ctx := set_globalCompositeOperation screen ctx in
  let ctx := set_fillStyle (Rgba 255 255 255 (0.1 + (num variation * 0.05))) ctx in
  ctx <- fillRect host 0 0 (num width) (num height) ctx ;;
  ret (set_globalCompositeOperation source_over ctx).

Definition applyDarknessEffect (width height variation : nat) (ctx : Canvas) : Eff Canvas :=
  let ctx := set_globalCompositeOperation multiply ctx in
  let ctx := set_fillStyle (Rgba 0 0 0 (0.1 + (num variation * 0.05))) ctx in
  ctx <- fillRect host 0 0 (num width) (num height) ctx ;;
  ret (set_globalCompositeOperation source_over ctx).

(** The body of the blur loop for one offset [i]: the canvas is drawn onto
    itself four times, each time from its current content. *)
Definition blurPass (i : nat) (ctx : Canvas) : Eff Canvas :=
  ctx <- drawImage host (surface ctx) (num i) 0 ctx ;;
  ctx <- drawImage host (surface ctx) (- num i) 0 ctx ;;
  ctx <- drawImage host (surface ctx) 0 (num i) ctx ;;
  drawImage host (surface ctx) 0 (- num i) ctx.

Definition applyBlurEffect (width height : nat) (ctx : Canvas) : Eff Canvas :=
  let ctx := set_globalAlpha 0.3 ctx in
  ctx <- blurPass 1 ctx ;;
  ctx <- blurPass 2 ctx ;;
  ctx <- blurPass 3 ctx ;;
  ret (set_globalAlpha 1.0 ctx).

(** *** Text *)

(** The shadow layers of [draw3DMetallicText]: [i] runs from 8 down to 1. *)
Fixpoint metallicShadow (i : nat) (text : string) (x y : float) (ctx : Canvas)
  : Eff Canvas :=
  match i with
  | O => ret ctx
  | S i' =>
      let ctx := set_fillStyle (Rgba 0 0 0 (0.3 - (num i * 0.03))) ctx in
      ctx <- fillText host text (x + num i) (y + num i) ctx ;;
      metallicShadow i' text x y ctx
  end.

Definition draw3DMetallicText (text : string) (x y fontSize : float) (ctx : Canvas)
  : Eff Canvas :=
  let ctx := set_font {| bold := true; sizePx := fontSize; family := "Arial" |} ctx in
  let ctx := set_textAlign "center" ctx in
  ctx <- metallicShadow 8 text x y ctx ;;
  let gradient :=
    LinearGradient (x - fontSize) (y - fontSize / 2) (x + fontSize) (y + fontSize / 2)
      [ (0, "#c0c0c0"); (0.3, "#ffffff"); (0.6, "#a0a0a0"); (1, "#808080") ] in
  let ctx := set_fillStyle gradient ctx in
  ctx <- fillText host text x y ctx ;;
  let ctx := set_strokeStyle (Css "#ffffff") ctx in
  let ctx := set_lineWidth 2 ctx in
  strokeText host text (x - 1) (y - 1) ctx.

Definition balloonColors : list string :=
  ["#ff6b6b"; "#4ecdc4"; "#45b7d1"; "#96ceb4"; "#ffeaa7"].

(** [colors[Math.floor(r * colors.length)]]; [None] is [undefined]. *)
Definition balloonColor (r : float) : option string :=
  match Math_floor (r * num (List.length balloonColors)) with
  | Some k => if (k <? 0)%Z then None else nth_error balloonColors (Z.to_nat k)
  | None => None
  end.

Definition drawBalloonText (text : string) (x y fontSize : float) (ctx : Canvas)
  : Eff Canvas :=
  let ctx := set_font {| bold := true; sizePx := fontSize;
                         family := "Comic Sans MS, cursive" |} ctx in
  let ctx := set_textAlign "center" ctx in
  let ctx := set_fillStyle (Css "rgba(0, 0, 0, 0.3)") ctx in
  ctx <- fillText host text (x + 3) (y + 3) ctx ;;
  r <- Math_random host ;;
  (* assigning [undefined] to [fillStyle] leaves it as it was *)
  let ctx := match balloonColor r with
             | Some color => set_fillStyle (Css color) ctx
             | None => ctx
             end in
  ctx <- fillText host text x y ctx ;;
  let ctx := set_strokeStyle (Css "#333") ctx in
  let ctx := set_lineWidth 3 ctx in
  strokeText host text x y ctx.

(** The noise loop of [drawMatrixText]: [n] more 2x2 rectangles. *)
Fixpoint matrixNoise (n : nat) (x y fontSize : float) (ctx : Canvas) : Eff Canvas :=
  match n with
  | O => ret ctx
  | S n' =>
      r1 <- Math_random host ;;
      let rx := x + (r1 - 0.5) * fontSize * 2 in
      r2 <- Math_random host ;;
      let ry := y + (r2 - 0.5) * fontSize in
      ctx <- fillRect host rx ry 2 2 ctx ;;
      matrixNoise n' x y fontSize ctx
  end.

Definition drawMatrixText (text : string) (x y fontSize : float) (ctx : Canvas)
  : Eff Canvas :=
  let ctx := set_font {| bold := true; sizePx := fontSize;
                         family := "Courier New, monospace" |} ctx in
  let ctx := set_textAlign "center" ctx in
  let ctx := set_shadowColor "#00ff00" ctx in
  let ctx := set_shadowBlur 10 ctx in
  let ctx := set_fillStyle (Css "#00ff00") ctx in
  ctx <- fillText host text x y ctx ;;
  let ctx := set_shadowBlur 0 ctx in
  let ctx := set_fillStyle (Css "rgba(0, 255, 0, 0.3)") ctx in
  matrixNoise 20 x y fontSize ctx.

Definition simpleColors : list string := ["#ff4757"; "#3742fa"; "#2ed573"; "#ffa502"].

Definition drawSimpleText (text : string) (x y fontSize : float) (variation : nat)
  (ctx : Canvas) : Eff Canvas :=
  let ctx := set_font {| bold := true; sizePx := fontSize; family := "Arial" |} ctx in
  let ctx := set_textAlign "center" ctx in
  let color := nth (variation mod List.length simpleColors) simpleColors "" in
  let ctx := set_fillStyle (Css "rgba(0, 0, 0, 0.5)") ctx in
  ctx <- fillText host text (x + 2) (y + 2) ctx ;;
  let ctx := set_fillStyle (Css color) ctx in
  ctx <- fillText host text x y ctx ;;
  let ctx := set_strokeStyle (Css "#fff") ctx in
  let ctx := set_lineWidth 2 ctx in
  strokeText host text x y ctx.

Definition addTextOverlay (width height : nat) (text style : string) (variation : nat)
  (ctx : Canvas) : Eff Canvas :=
  let fontSize := Math_min (num width) (num height) * 0.08 in
  if String.eqb style "3D metallic"
  then draw3DMetallicText text (num width / 2) (num height * 0.9) fontSize ctx
  else if String.eqb style "balloon"
  then drawBalloonText text (num width / 2) (num height * 0.9) fontSize ctx
  else if String.eqb style "Matrix"
  then drawMatrixText text (num width / 2) (num height * 0.9) fontSize ctx
  else drawSimpleText text (num width / 2) (num height * 0.9) fontSize variation ctx.

(** *** The variation-specific effect *)

Definition addVariationEffect (width height variation : nat) (ctx : Canvas)
  : Eff Canvas :=
  match variation with
  | 0%nat =>
      (* Vignette effect *)
      let vignette :=
        RadialGradient (num width / 2) (num height / 2) 0
                       (num width / 2) (num height / 2)
                       (Math_max (num width) (num height) / 2)
          [ (0, "rgba(0,0,0,0)"); (1, "rgba(0,0,0,0.3)") ] in
      let ctx := set_fillStyle vignette ctx in
      fillRect host 0 0 (num width) (num height) ctx
  | 1%nat =>
      (* Light rays effect *)
      let ctx := set_globalCompositeOperation screen ctx in
      let lightGradient :=
        LinearGradient 0 0 (num width) (num height)
          [ (0, "rgba(255,255,255,0)"); (0.5, "rgba(255,255,255,0.1)");
            (1, "rgba(255,255,255,0)") ] in
      let ctx := set_fillStyle lightGradient ctx in
      ctx <- fillRect host 0 0 (num width) (num height) ctx ;;
      ret (set_globalCompositeOperation source_over ctx)
  | 2%nat =>
      (* Sepia tone *)
      data <- getImageData width height ctx ;;
      putImageData (sepiaLoop data) ctx
  | _ =>
      (* Subtle color tint *)
      let ctx := set_globalCompositeOperation overlay ctx in
      r <- Math_random host ;;
      g <- Math_random host ;;
      b <- Math_random host ;;
      let ctx := set_fillStyle (Rgba (r * 255) (g * 255) (b * 255) 0.1) ctx in
      ctx <- fillRect host 0 0 (num width) (num height) ctx ;;
      ret (set_globalCompositeOperation source_over ctx)
  end.

(** *** Composition of one variant *)

Definition mentions (prompt keyword : string) : bool :=
  includes (toLowerCase prompt) keyword.

Definition applyImageModifications (prompt : string) (variation : nat) (ctx : Canvas)
  : Eff Canvas :=
  let width := width (surface ctx) in
  let height := height (surface ctx) in
  let textStyle := textStyle this in
  let youtubeTitle := trim (youtubeTitle this) in
  ctx <- (if mentions prompt "color" || mentions prompt "blue" || mentions prompt "red"
          then applyColorEffect width height variation ctx else ret ctx) ;;
  ctx <- (if mentions prompt "bright" || mentions prompt "light"
          then applyBrightnessEffect width height variation ctx else ret ctx) ;;
  ctx <- (if mentions prompt "dark" || mentions prompt "shadow"
          then applyDarknessEffect width height variation ctx else ret ctx) ;;
  ctx <- (if mentions prompt "blur" || mentions prompt "soft"
          then applyBlurEffect width height ctx else ret ctx) ;;
  ctx <- (if truthy youtubeTitle
          then addTextOverlay width height youtubeTitle textStyle variation ctx
          else ret ctx) ;;
  addVariationEffect width height variation ctx.

End Methods.

(* ================================================================== *)
(** ** Image loading, the driver, and the request *)
(* ================================================================== *)

Section Pipeline.

Import JsString JsNumber Pixels Ctx.
Local Open Scope float_scope.
Local Open Scope eff_scope.

Variable host : Host.
Variable this : Editor.

(** [new Image()] with its [src] set: the next image load of the page. *)
Definition loadImage (src : string) : Eff (option Bitmap) :=
  fun w => Returned (decode host (loads w) src)
                    {| loads := S (loads w); randoms := randoms w; ticks := ticks w |}.

(** An event handler that ends by calling [resolve]: the promise is
    fulfilled with the handler's value; an exception thrown inside the
    handler is not the promise's business, which then stays pending. *)
Definition resolveAtEnd {A} (handler : Eff A) : Eff A :=
  fun w =>
    match handler w with
    | Returned a w' => Returned a w'
    | Thrown _ _ => NeverSettles
    | NeverSettles => NeverSettles
    end.

Definition imageSrc (imageBase64 : option string) : string :=
  "data:" ++ selectedImageFile_type this ++ ";base64," ++ interpolate imageBase64.

(** The [img.onload] handler of [createModifiedImage], up to the value
    it passes to [resolve]. *)
Definition createModifiedImage_onload (img : Bitmap) (prompt : string)
  (variation : nat) : Eff string :=
  let canvas := createCanvas (width img) (height img) in
  (* Draw the original image *)
  ctx <- drawImage host img 0 0 canvas ;;
  (* Apply modifications based on prompt and variation *)
  ctx <- applyImageModifications host this prompt variation ctx ;;
  (* Convert to data URL *)
  ret (toDataURL host (surface ctx) "image/jpeg" 0.9).

Definition createModifiedImage (imageBase64 : option string) (prompt : string)
  (variation : nat) : Eff string :=
  img <- loadImage (imageSrc imageBase64) ;;
  match img with
  | Some img =>
      (* img.onload *)
      resolveAtEnd (createModifiedImage_onload img prompt variation)
  | None =>
      (* img.onerror *)
      throw {| message := "Failed to load image" |}
  end.

(** The [img.onload] handler of [createFallbackModifiedImage]. *)
Definition createFallbackModifiedImage_onload (img : Bitmap) (variation : nat)
  : Eff string :=
  let canvas := createCanvas (width img) (height img) in
  (* Draw original image *)
  ctx <- drawImage host img 0 0 canvas ;;
  (* Apply simple variation effect *)
  ctx <- addVariationEffect host (width (surface ctx)) (height (surface ctx))
                            variation ctx ;;
  ret (toDataURL host (surface ctx) "image/jpeg" 0.9).

Definition createFallbackModifiedImage (imageBase64 : option string) (variation : nat)
  : Eff string :=
  img <- loadImage (imageSrc imageBase64) ;;
  match img with
  | Some img =>
      (* img.onload *)
      resolveAtEnd (createFallbackModifiedImage_onload img variation)
  | None =>
      (* no onerror handler: nothing ever settles the promise *)
      fun _ => NeverSettles
  end.

(** The body of the loop of [generateModifiedImages] for the index [i]:
    the entry pushed to [results]. *)
Definition generateVariant (enhancedPrompt : string) (originalImageBase64 : option string)
  (i : nat) : Eff Result :=
  tryCatch
    (modifiedImage <- createModifiedImage originalImageBase64 enhancedPrompt i ;;
     t <- Date_now host ;;
     ret {| imageData := modifiedImage; prompt := enhancedPrompt;
            timestamp := t + Z.of_nat i; variation := i + 1 |})
    (fun error =>
       (* Fallback to a visually modified version *)
       fallbackImage <- createFallbackModifiedImage originalImageBase64 i ;;
       t <- Date_now host ;;
       ret {| imageData := fallbackImage; prompt := enhancedPrompt;
              timestamp := t + Z.of_nat i; variation := i + 1 |}).

(** [for (let i = ...; i < count; i++)] with [n] iterations left. *)
Fixpoint generateLoop (n : nat) (enhancedPrompt : string)
  (originalImageBase64 : option string) (i : nat) (results : list Result)
  : Eff (list Result) :=
  match n with
  | O => ret results
  | S n' =>
      r <- generateVariant enhancedPrompt originalImageBase64 i ;;
      generateLoop n' enhancedPrompt originalImageBase64 (S i) (results ++ [r])
  end.

Definition generateModifiedImages (count : Z) (enhancedPrompt : string)
  (originalImageBase64 : option string) : Eff (list Result) :=
  generateLoop (Z.to_nat count) enhancedPrompt originalImageBase64 0 [].

(** [a || b] on a string that may be [undefined]. *)
Definition orElse (a : option string) (b : string) : string :=
  match a with
  | Some s => if truthy s then s else b
  | None => b
  end.

(** [parseInt(this.numberOfImages.value) || 1]. *)
Definition requestedCount : Z :=
  match parseInt (numberOfImages this) with
  | Some n => if (n =? 0)%Z then 1%Z else n
  | None => 1%Z
  end.

Definition newline : string := String (ascii_of_nat 10) EmptyString.

Definition analysisPrompt (prompt : string) : string :=
  "Analyze this image and then apply the following modification: " ++ dquote
    ++ prompt ++ dquote ++ ". " ++ newline
    ++ "            Provide a detailed description of what the modified image should look like, including:" ++ newline
    ++ "            - Current image content and composition" ++ newline
    ++ "            - How the modification should be applied" ++ newline
    ++ "            - Specific visual details for the final result" ++ newline
    ++ "            - Color schemes, lighting, and style adjustments" ++ newline
    ++ "            " ++ newline
    ++ "            Format your response as a detailed image generation prompt that captures both the original image essence and the requested modifications.".

Definition analysisBody (prompt : string) (imageBase64 : option string)
  : AnalysisRequest :=
  {| url := "https://generativelanguage.googleapis.com/v1beta/models/gemini-2.0-flash-exp:generateContent?key="
            ++ apiKey this;
     text := analysisPrompt prompt;
     mime_type := selectedImageFile_type this;
     inline_data := imageBase64;
     generationConfig := {| temperature := 0.7; topK := 32; topP := 0.95;
                            maxOutputTokens := 2048 |} |}.

Definition callGeminiAPI (prompt : string) (imageBase64 : option string)
  : Eff (list Result) :=
  let numberOfImages := requestedCount in
  tryCatch
    (match fetch host (analysisBody prompt imageBase64) with
     | NetworkFailure reason => throw reason
     | Response ok json =>
         if negb ok then
           match json with
           | inr errorData =>
               throw {| message := orElse (error_message errorData)
                                          "Analysis request failed" |}
           | inl e => throw e
           end
         else
           match json with
           | inr analysisData =>
               let enhancedPrompt := orElse (candidate_text analysisData) prompt in
               generateModifiedImages numberOfImages enhancedPrompt imageBase64
           | inl e => throw e
           end
     end)
    (fun error =>
       throw {| message := ("Failed to process image: " ++ message error)%string |}).

(** What the user sees at the end of [processImageEdit]. *)
Inductive Feedback :=
| Ignored
| Displayed (results : list Result) (successToast : string)
| Failed (errorToast : string).

Definition processImageEdit : Eff Feedback :=
  if isProcessing this
     || negb (match selectedImage this with Some s => truthy s | None => false end)
     || negb (truthy (trim (promptInput this)))
  then ret Ignored
  else
    tryCatch
      (let basePrompt := trim (promptInput this) in
       let fullPrompt := basePrompt in
       let ytTitle := trim (youtubeTitle this) in
       let fullPrompt :=
         if truthy ytTitle
         then (fullPrompt ++ " (incorporating YouTube title: " ++ dquote ++ ytTitle
                          ++ dquote ++ ")")%string
         else fullPrompt in
       let style := textStyle this in
       let fullPrompt :=
         if truthy style then (fullPrompt ++ " with " ++ style ++ " style text")%string
         else fullPrompt in
       let imageBase64 :=
         match selectedImage this with
         | Some s => nth_error (split "," s) 1
         | None => None
         end in
       results <- callGeminiAPI fullPrompt imageBase64 ;;
       ret (Displayed results
              ("Successfully generated "
                 ++ NilZero.string_of_uint (Nat.to_uint (List.length results))
                 ++ " image(s)!")%string))
      (fun error => ret (Failed "Failed to edit image. Please try again.")).

End Pipeline.

(* ================================================================== *)
(** ** Hosts and requests used in the examples *)
(* ================================================================== *)

Module Fixtures.

Import JsString JsNumber Pixels Ctx.
Local Open Scope float_scope.

(** A rasteriser that copies an image drawn onto a canvas of its size and
    draws nothing else: overlays and text leave the pixels as they are. *)
Definition copyRaster (st : DrawState) (cmd : DrawCmd) (b : Bitmap) : JsError + list Z :=
  match cmd with
  | DrawImage source _ _ =>
      if ((width source =? width b) && (height source =? height b))%nat
      then inr (data source) else inr (data b)
  | _ => inr (data b)
  end.

(** An encoder that writes the bytes of the bitmap as characters. *)
Definition bytesURL (b : Bitmap) (type : string) (quality : float) : string :=
  ("data:" ++ type ++ ","
    ++ fold_right (fun v s => String (ascii_of_nat (Z.to_nat v)) s) EmptyString (data b))%string.

Definition okResponse (t : option string) : FetchOutcome :=
  Response true (inr {| error_message := None; candidate_text := t |}).

(** A host given by what its image loads, its network call and its random
    source do. *)
Definition hostOf (dec : nat -> string -> option Bitmap) (net : FetchOutcome)
  (rnd : nat -> float) : Host :=
  {| decode := dec; rasterize := copyRaster; toDataURL := bytesURL;
     fetch := fun _ => net; random := rnd; now := fun k => (1700000000000 + Z.of_nat k)%Z |}.

(** One pixel, RGB (200,100,50), opaque. *)
Definition pixel : Bitmap := {| width := 1; height := 1; data := [200; 100; 50; 255]%Z |}.

(** An image that loads with no width and no height. *)
Definition emptyImage : Bitmap := {| width := 0; height := 0; data := [] |}.

Definition alwaysLoads (img : Bitmap) : nat -> string -> option Bitmap :=
  fun _ _ => Some img.

Definition neverLoads : nat -> string -> option Bitmap := fun _ _ => None.


Definition editor (promptText title style count : string) : Editor :=
  {| apiKey := "AIzaSyC-example-api-key-here-1234567890abcdef";
     selectedImage := Some "data:image/png;base64,iVBORw0KGgo=";
     selectedImageFile_type := "image/png";
     isProcessing := false;
     promptInput := promptText;
     youtubeTitle := title;
     textStyle := style;
     numberOfImages := count |}.

Definition start : World := {| loads := 0; randoms := 0; ticks := 0 |}.

Definition base64 : option string := Some "iVBORw0KGgo=".

End Fixtures.

(* ================================================================== *)
(** ** The specification's reading of the composer, and the vocabulary
       of the statements *)
(* ================================================================== *)

Module Composer.

Import JsString JsNumber Pixels Ctx.

(** The six steps of the composer, in the specification's words. *)
Inductive Step :=
| ColorTint | BrightnessWash | DarknessWash | CheapBlur | TextOverlay | DefaultEffect.

(** The fixed order of the specification. *)
Definition fixedOrder : list Step :=
  [ColorTint; BrightnessWash; DarknessWash; CheapBlur; TextOverlay; DefaultEffect].

(** The trigger words of a keyword step. *)
Definition keywords (s : Step) : list string :=
  match s with
  | ColorTint => ["color"; "blue"; "red"]
  | BrightnessWash => ["bright"; "light"]
  | DarknessWash => ["dark"; "shadow"]
  | CheapBlur => ["blur"; "soft"]
  | TextOverlay | DefaultEffect => []
  end.

Definition allKeywords : list string := flat_map keywords fixedOrder.

(** A keyword occurs in the prompt case-insensitively: some piece of the
    prompt is the keyword once lowered. *)
Definition occursIn (keyword prompt : string) : Prop :=
  exists pre mid post,
    prompt = (pre ++ mid ++ post)%string /\ toLowerCase mid = keyword.

(** Whether a step fires: a keyword step when one of its words is found,
    the text overlay when there is a title, the default effect always. *)
Definition fires (this : Editor) (prompt : string) (s : Step) : bool :=
  match s with
  | TextOverlay => truthy (trim (youtubeTitle this))
  | DefaultEffect => true
  | _ => existsb (mentions prompt) (keywords s)
  end.

(** The steps of one composition: those of the fixed order that fire. *)
Definition plan (this : Editor) (prompt : string) : list Step :=
  filter (fires this prompt) fixedOrder.

(** What a step does, by the method of the program that carries it out. *)
Definition runStep (host : Host) (this : Editor) (width height variation : nat)
  (s : Step) (ctx : Canvas) : Eff Canvas :=
  match s with
  | ColorTint => applyColorEffect width height variation ctx
  | BrightnessWash => applyBrightnessEffect host width height variation ctx
  | DarknessWash => applyDarknessEffect host width height variation ctx
  | CheapBlur => applyBlurEffect host width height ctx
  | TextOverlay =>
      addTextOverlay host width height (trim (youtubeTitle this)) (textStyle this)
                     variation ctx
  | DefaultEffect => addVariationEffect host width height variation ctx
  end.

Fixpoint runSteps (host : Host) (this : Editor) (width height variation : nat)
  (steps : list Step) (ctx : Canvas) : Eff Canvas :=
  match steps with
  | [] => ret ctx
  | s :: rest =>
      bind (runStep host this width height variation s ctx)
           (runSteps host this width height variation rest)
  end.

(** The blend state of a context is the default one. *)
Definition blendDefault (c : Canvas) : Prop :=
  globalCompositeOperation (state c) = source_over
  /\ globalAlpha (state c) = 1.0%float.

(** A host with another random source. *)
Definition withRandom (h : Host) (rnd : nat -> float) : Host :=
  {| decode := decode h; rasterize := rasterize h; toDataURL := toDataURL h;
     fetch := fetch h; random := rnd; now := now h |}.

(** What a computation produced, whatever it did to the world. *)
Definition result {A} (o : Outcome A) : option (JsError + A) :=
  match o with
  | Returned a _ => Some (inr a)
  | Thrown e _ => Some (inl e)
  | NeverSettles => None
  end.

(** The world a computation ended in. *)
Definition worldAfter {A} (o : Outcome A) : option World :=
  match o with
  | Returned _ w => Some w
  | Thrown _ w => Some w
  | NeverSettles => None
  end.

(** The blend state of a context. *)
Definition blendOf (c : Canvas) : CompositeOp * float :=
  (globalCompositeOperation (state c), globalAlpha (state c)).

(** Every value the computation returns satisfies [P]. *)
Definition post {A} (P : A -> Prop) (m : Eff A) : Prop :=
  forall w a w', m w = Returned a w' -> P a.

(** The world with only its random cursor kept. *)
Definition onlyRandoms (w : World) : World :=
  {| loads := 0; randoms := randoms w; ticks := 0 |}.

(** An outcome carried back to the world [w]: the load count and the
    clock of [w], the random cursor of the outcome. *)
Definition reframe {A} (w : World) (o : Outcome A) : Outcome A :=
  match o with
  | Returned a w' =>
      Returned a {| loads := loads w; randoms := randoms w'; ticks := ticks w |}
  | Thrown e w' =>
      Thrown e {| loads := loads w; randoms := randoms w'; ticks := ticks w |}
  | NeverSettles => NeverSettles
  end.

(** A computation that reads and moves nothing of the world but the
    random cursor: no image load, no clock reading. *)
Definition drawsOnly {A} (m : Eff A) : Prop :=
  forall w, m w = reframe w (m (onlyRandoms w)).

(** The world once one more image load has been started. *)
Definition afterLoad (w : World) : World :=
  {| loads := S (loads w); randoms := randoms w; ticks := ticks w |}.

(** The entry [r] of index [i] was made from a decode of its own: its
    image is what an [onload] handler (of the composer or of the fallback)
    produced from the image of one load of the page, a load numbered from
    [lo] up to [hi] exclusive, drawn on a canvas created for it. *)
Definition ownLoad (host : Host) (this : Editor) (p : string)
  (imageBase64 : option string) (i : nat) (r : Result) (lo hi : nat) : Prop :=
  exists k img wi wo,
    lo <= k < hi
    /\ decode host k (imageSrc this imageBase64) = Some img
    /\ (createModifiedImage_onload host this img p i wi = Returned (imageData r) wo
        \/ createFallbackModifiedImage_onload host img i wi = Returned (imageData r) wo).

(** The text-analysis call did not deliver a body of a successful
    response. *)
Definition analysisFailed (o : FetchOutcome) : bool :=
  match o with
  | Response true (inr _) => false
  | _ => true
  end.

(** Following the specification: a stored channel [v'] is the product of
    the channel [v] and the factor [tenths/10], cut off at 255 and rounded
    to a nearest integer; above 255 the stored value is 255. *)
Definition clampedProduct (tenths v v' : Z) : Prop :=
  (Z.abs (10 * v' - Z.min 2550 (tenths * v)) <= 5)%Z
  /\ ((2550 < tenths * v)%Z -> v' = 255%Z).

(** [clampedProduct], decided for the channel the program stores. *)
Definition clampedProductb (factor : float) (tenths v : Z) : bool :=
  let v' := tintChannel factor v in
  (Z.abs (10 * v' - Z.min 2550 (tenths * v)) <=? 5)%Z
  && (if (2550 <? tenths * v)%Z then (v' =? 255)%Z else true).

(** Every byte, for checks by enumeration. *)
Definition allBytes : list Z := map Z.of_nat (seq 0 256).

(** The factor triples of the specification, in tenths. *)
Definition tintTenths : list (Z * Z * Z) :=
  [ (12, 8, 8); (8, 8, 12); (8, 12, 8); (11, 11, 7) ]%Z.

End Composer.

(* ================================================================== *)
(** ** The page around the pipeline: the key, the form, the results *)
(* ================================================================== *)

Module Page.

Import JsString.

(** [localStorage]: what [getItem] gives for each key. *)
Definition Storage : Type := string -> option string.

Definition getItem (store : Storage) (key : string) : option string := store key.

Definition setItem (store : Storage) (key value : string) : Storage :=
  fun k => if String.eqb k key then Some value else store k.

(** The status line of the key section: its text and the type that ends
    its class name. *)
Record Status := { status_message : string; status_type : string }.

(** The part of the page the key methods read and write: [this.apiKey]
    ([None] is [null]), the value of the key input, [localStorage], the
    status line ([None]: not shown), whether the main application is shown
    in place of the key section, the loading overlay and the message of each
    toast that was shown.  The timers that hide the toasts again are not
    part of the model. *)
Record Config := {
  cfg_apiKey : option string;
  apiKeyInput : string;
  localStorage : Storage;
  apiStatus : option Status;
  mainAppShown : bool;
  loadingOverlay : bool;
  errorToast : option string;
  successToast : option string
}.

Definition showStatus (message type : string) (c : Config) : Config :=
  {| cfg_apiKey := cfg_apiKey c; apiKeyInput := apiKeyInput c;
     localStorage := localStorage c;
     apiStatus := Some {| status_message := message; status_type := type |};
     mainAppShown := mainAppShown c; loadingOverlay := loadingOverlay c;
     errorToast := errorToast c; successToast := successToast c |}.

Definition showMainApp (c : Config) : Config :=
  {| cfg_apiKey := cfg_apiKey c; apiKeyInput := apiKeyInput c;
     localStorage := localStorage c; apiStatus := apiStatus c;
     mainAppShown := true; loadingOverlay := loadingOverlay c;
     errorToast := errorToast c; successToast := successToast c |}.

Definition showLoading (show : bool) (c : Config) : Config :=
  {| cfg_apiKey := cfg_apiKey c; apiKeyInput := apiKeyInput c;
     localStorage := localStorage c; apiStatus := apiStatus c;
     mainAppShown := mainAppShown c; loadingOverlay := show;
     errorToast := errorToast c; successToast := successToast c |}.

Definition showErrorToast (message : string) (c : Config) : Config :=
  {| cfg_apiKey := cfg_apiKey c; apiKeyInput := apiKeyInput c;
     localStorage := localStorage c; apiStatus := apiStatus c;
     mainAppShown := mainAppShown c; loadingOverlay := loadingOverlay c;
     errorToast := Some message; successToast := successToast c |}.

Definition showSuccessToast (message : string) (c : Config) : Config :=
  {| cfg_apiKey := cfg_apiKey c; apiKeyInput := apiKeyInput c;
     localStorage := localStorage c; apiStatus := apiStatus c;
     mainAppShown := mainAppShown c; loadingOverlay := loadingOverlay c;
     errorToast := errorToast c; successToast := Some message |}.

(** [localStorage.setItem('gemini_api_key', key); this.apiKey = key]. *)
Definition storeKey (key : string) (c : Config) : Config :=
  {| cfg_apiKey := Some key; apiKeyInput := apiKeyInput c;
     localStorage := setItem (localStorage c) "gemini_api_key" key;
     apiStatus := apiStatus c;
     mainAppShown := mainAppShown c; loadingOverlay := loadingOverlay c;
     errorToast := errorToast c; successToast := successToast c |}.

(** [testApiKey]: the format test; the half second it then waits is not
    part of the model. *)
Definition testApiKey (apiKey : string) : JsError + bool :=
  if negb (truthy apiKey) || (String.length apiKey <? 30)%nat
  then inl {| message := "Invalid API key format" |}
  else inr true.

Definition saveApiKey (c : Config) : Config :=
  let key := trim (apiKeyInput c) in
  if negb (truthy key) then showStatus "Please enter an API key" "error" c
  else if negb (startsWith key "AIza") then
    showStatus ("Invalid API key format. Gemini API keys should start with "
                  ++ dquote ++ "AIza" ++ dquote)%string "error" c
  else
    let c := showLoading true c in
    let c :=
      match testApiKey key with
      | inr _ =>
          let c := storeKey key c in
          let c := showMainApp c in
          let c := showStatus "API key saved and validated successfully!" "success" c in
          showSuccessToast "API key configured successfully!" c
      | inl error =>
          let c := showStatus "Invalid API key. Please check your key and try again."
                              "error" c in
          showErrorToast "Invalid API key. Please check and try again." c
      end in
    (* finally *)
    showLoading false c.

Definition loadSavedApiKey (c : Config) : Config :=
  match getItem (localStorage c) "gemini_api_key" with
  | Some savedKey =>
      if truthy savedKey then
        let c :=
          {| cfg_apiKey := Some savedKey; apiKeyInput := savedKey;
             localStorage := localStorage c; apiStatus := apiStatus c;
             mainAppShown := mainAppShown c; loadingOverlay := loadingOverlay c;
             errorToast := errorToast c; successToast := successToast c |} in
        let c := showMainApp c in
        showStatus "API key loaded successfully" "success" c
      else c
  | None => c
  end.

(** The state [validateForm] gives the edit button: its [disabled]
    property and whether its class list holds [disabled]. *)
Record Button := { disabled : bool; disabledClass : bool }.

Definition validateForm (this : Editor) : Button :=
  let hasImage := match selectedImage this with Some _ => true | None => false end in
  let hasPrompt := negb (String.eqb (trim (promptInput this)) EmptyString) in
  let isValid := hasImage && hasPrompt in
  {| disabled := negb isValid || isProcessing this;
     disabledClass := negb isValid |}.

(** How a non-negative integer and an integer print in a template. *)
Definition printNat (n : nat) : string := NilZero.string_of_uint (Nat.to_uint n).
Definition printZ (z : Z) : string := NilZero.string_of_int (Z.to_int z).

(** One item of the results grid: the source and the alternative text of
    its image, and the number its label shows and its download button
    passes on.  The source is read back as it was written into the markup:
    the data URL of an encoder holds no quote that would end the
    attribute. *)
Record ResultItem := { src : string; alt : string; shownVariation : nat }.

(** The [forEach] of [displayResults], from the index [index] on. *)
Fixpoint displayFrom (results : list Result) (index : nat) : list ResultItem :=
  match results with
  | [] => []
  | result :: rest =>
      {| src := imageData result;
         alt := ("Generated image " ++ printNat (index + 1))%string;
         shownVariation := if (variation result =? 0)%nat then index + 1
                           else variation result |}
        :: displayFrom rest (S index)
  end.

Definition displayResults (results : list Result) : list ResultItem :=
  displayFrom results 0.

(** The link [downloadSingleImage] clicks, and its toast. *)
Record Download := { href : string; download : string; downloadToast : string }.

Definition fileName (variation : nat) (time : Z) : string :=
  ("gemini-edited-image-v" ++ printNat variation ++ "-" ++ printZ time ++ ".jpg")%string.

Definition downloadSingleImage (host : Host) (imageData : string) (variation : nat)
  : Eff Download :=
  bind (Ctx.Date_now host) (fun time =>
  ret {| href := imageData;
         download := fileName variation time;
         downloadToast := ("Image variation " ++ printNat variation ++ " downloaded!")%string |}).

(** A download with the delay of the timer that starts it. *)
Record Scheduled := { delay : nat; job : Download }.

(** The [forEach] of [downloadAllImages] over the sources of the images
    of the grid, from the index [index] on; the timers fire in the order of
    their delays, which is the order of the indices. *)
Fixpoint downloadFrom (host : Host) (images : list string) (index : nat)
  : Eff (list Scheduled) :=
  match images with
  | [] => ret []
  | img :: rest =>
      let variation := index + 1 in
      bind (downloadSingleImage host img variation) (fun d =>
      bind (downloadFrom host rest (S index)) (fun ds =>
      ret ({| delay := index * 200; job := d |} :: ds)))
  end.

Definition downloadAllImages (host : Host) (grid : list ResultItem)
  : Eff (list Scheduled) :=
  downloadFrom host (map src grid) 0.

End Page.

(* ================================================================== *)
(** ** More vocabulary: random numbers taken, success, sizes *)
(* ================================================================== *)

Module Coverage.

Import JsString Ctx Composer.

(** Whenever the computation returns, it has taken [k] random numbers. *)
Definition takes {A} (k : nat) (m : Eff A) : Prop :=
  forall w a w', m w = Returned a w' -> randoms w' = randoms w + k.

(** Two computations produce the same, whatever the worlds they run in. *)
Definition sameResult {A} (m1 m2 : Eff A) : Prop :=
  forall w1 w2, result (m1 w1) = result (m2 w2).

(** The rasteriser of the host completes every drawing call on a canvas
    of the given size, the source of a [drawImage] being of that size
    too.  This is what a run on an image of that size asks of the
    browser: nothing is said of canvases of other sizes. *)
Definition rasterCompletesAt (host : Host) (wd ht : nat) : Prop :=
  forall st cmd b,
    width b = wd -> height b = ht ->
    (forall source dx dy, cmd = DrawImage source dx dy ->
                          width source = wd /\ height source = ht) ->
    exists d, rasterize host st cmd b = inr d.

(** The canvas has the given size. *)
Definition sized (wd ht : nat) (c : Canvas) : Prop :=
  width (surface c) = wd /\ height (surface c) = ht.

(** In every world the computation returns a canvas of the given size. *)
Definition completesAt (wd ht : nat) (m : Eff Canvas) : Prop :=
  forall w, exists c' w', m w = Returned c' w' /\ sized wd ht c'.

(** The random numbers the text overlay of a composition takes: one for
    the balloon colour, two for each of the twenty noise rectangles of the
    Matrix style, none otherwise or without a title. *)
Definition textDraws (this : Editor) : nat :=
  if truthy (trim (youtubeTitle this)) then
    if String.eqb (textStyle this) "3D metallic" then 0
    else if String.eqb (textStyle this) "balloon" then 1
    else if String.eqb (textStyle this) "Matrix" then 40
    else 0
  else 0.

(** The random numbers the default effect takes: three for the random
    tint of the indices from 3 on. *)
Definition effectDraws (index : nat) : nat :=
  match index with
  | 0 | 1 | 2 => 0
  | _ => 3
  end.

(** The guard of [processImageEdit]: the click is ignored. *)
Definition ignoresClick (this : Editor) : bool :=
  isProcessing this
  || negb (match selectedImage this with Some s => truthy s | None => false end)
  || negb (truthy (trim (promptInput this))).

(** The prompt and the image data [processImageEdit] passes on. *)
Definition fullPromptOf (this : Editor) : string :=
  let base := trim (promptInput this) in
  let withTitle :=
    if truthy (trim (youtubeTitle this))
    then (base ++ " (incorporating YouTube title: " ++ dquote
               ++ trim (youtubeTitle this) ++ dquote ++ ")")%string
    else base in
  if truthy (textStyle this)
  then (withTitle ++ " with " ++ textStyle this ++ " style text")%string
  else withTitle.

Definition imageBase64Of (this : Editor) : option string :=
  match selectedImage this with
  | Some s => nth_error (split "," s) 1
  | None => None
  end.

(** How the text-analysis call of the request ends. *)
Definition analysisOf (host : Host) (this : Editor) : FetchOutcome :=
  fetch host (analysisBody this (fullPromptOf this) (imageBase64Of this)).

(** Whenever the method returns, the canvas has the size it had. *)
Definition keepsSize (ctx : Canvas) (m : Eff Canvas) : Prop :=
  post (fun c' => width (surface c') = width (surface ctx)
                  /\ height (surface c') = height (surface ctx)) m.

(** The exception of [getImageData] on a rectangle with a zero side. *)
Definition indexSizeError : JsError :=
  {| message := "IndexSizeError: The source width or height is 0." |}.

(** An image has a side of length zero. *)
Definition zeroSide (img : Bitmap) : bool :=
  ((width img =? 0) || (height img =? 0))%nat.

End Coverage.

(** Hosts and pages used in the examples of the further properties. *)
Module Samples.

Import JsString Page Fixtures.

(** A host whose images all load as the one pixel, whose analysis call
    succeeds without a text, and whose random numbers are all [rnd]. *)
Definition plainHost (rnd : float) : Host :=
  hostOf (alwaysLoads pixel) (okResponse None) (fun _ => rnd).

Definition emptyStorage : Storage := fun _ => None.

(** The page of the key section as it is first shown. *)
Definition keyPage (input : string) (store : Storage) : Config :=
  {| cfg_apiKey := None; apiKeyInput := input; localStorage := store;
     apiStatus := None; mainAppShown := false; loadingOverlay := false;
     errorToast := None; successToast := None |}.

(** The key of [config-template.md]. *)
Definition exampleKey : string := "AIzaSyC-example-api-key-here-1234567890abcdef".

End Samples.

(** The library functions on a few inputs. *)
Module Examples.

Import JsString JsNumber Pixels.

Example parseInt_examples :
  map parseInt [""; "abc"; "0"; " 3"; "-0"; "0x1F"; "4px"; "-2"; "+7"; "0x"]
  = [None; None; Some 0; Some 3; Some 0; Some 31; Some 4; Some (-2); Some 7; None]%Z.
Proof. reflexivity. Qed.

Example trim_split_examples :
  trim "  a b  " = "a b"
  /\ split "," "data:image/png;base64,AAAA" = ["data:image/png;base64"; "AAAA"]
  /\ split "," "" = [""]
  /\ nth_error (split "," "nocomma") 1 = None.
Proof. repeat split. Qed.

Example mentions_examples :
  toLowerCase "Make It BRIGHT" = "make it bright"
  /\ includes "make it bright and blue" "blue" = true
  /\ includes "highlight" "light" = true
  /\ includes "" "red" = false.
Proof. repeat split. Qed.

Example ToUint8Clamp_examples :
  map ToUint8Clamp [164.95; 0.5; 1.5; 2.5; 254.5; 254.6; nan; -3; 300; 255; 0]%float
  = [165; 0; 2; 2; 254; 255; 0; 0; 255; 255; 0]%Z.
Proof. vm_compute. reflexivity. Qed.

Example Math_floor_examples :
  map Math_floor [4.99; -0.5; 0; 1e3; nan]%float
  = [Some 4; Some (-1); Some 0; Some 1000; None]%Z.
Proof. vm_compute. reflexivity. Qed.

Example tintLoop_example :
  tintLoop (effectFor 0) [200; 100; 50; 255; 250; 0; 255; 7]%Z
  = [240; 80; 40; 255; 255; 0; 204; 7]%Z.
Proof. vm_compute. reflexivity. Qed.

End Examples.

(* ================================================================== *)
(** ** Properties of the colour transforms *)
(* ================================================================== *)

Module PixelFacts.

Import JsNumber Pixels Composer.

Lemma floorBelow255_le x : (floorBelow255 x <= 254)%nat.
Proof.
  unfold floorBelow255.
  etransitivity; [apply filter_length_le|].
  rewrite length_seq. reflexivity.
Qed.

(** Whatever number is stored, the element read back is a byte. *)
Lemma ToUint8Clamp_range x : isByte (ToUint8Clamp x).
Proof.
  unfold ToUint8Clamp, isByte.
  pose proof (floorBelow255_le x) as Hf.
  repeat match goal with |- context [if ?c then _ else _] => destruct c end; lia.
Qed.

Lemma tintChannel_range f v : isByte (tintChannel f v).
Proof. apply ToUint8Clamp_range. Qed.

Lemma allBytes_complete v : isByte v -> In v allBytes.
Proof.
  intros [Hlo Hhi]. unfold allBytes.
  apply in_map_iff. exists (Z.to_nat v). split; [lia|].
  apply in_seq. lia.
Qed.

Lemma forall_bytes (check : Z -> bool) :
  forallb check allBytes = true -> forall v, isByte v -> check v = true.
Proof.
  intros Hall v Hv. rewrite forallb_forall in Hall.
  apply Hall, allBytes_complete, Hv.
Qed.

Lemma clampedProductb_sound factor tenths v :
  clampedProductb factor tenths v = true ->
  clampedProduct tenths v (tintChannel factor v).
Proof.
  unfold clampedProductb, clampedProduct. intros H.
  apply andb_prop in H. destruct H as [Hnear Hsat].
  split; [lia|]. intros Hbig.
  apply Z.ltb_lt in Hbig. rewrite Hbig in Hsat. lia.
Qed.

(** The four factors the program uses, each checked on every byte. *)
Lemma tint_1_2 v : isByte v -> clampedProduct 12 v (tintChannel 1.2 v).
Proof.
  intros Hv. apply clampedProductb_sound.
  revert v Hv. apply forall_bytes. vm_compute. reflexivity.
Qed.

Lemma tint_0_8 v : isByte v -> clampedProduct 8 v (tintChannel 0.8 v).
Proof.
  intros Hv. apply clampedProductb_sound.
  revert v Hv. apply forall_bytes. vm_compute. reflexivity.
Qed.

Lemma tint_1_1 v : isByte v -> clampedProduct 11 v (tintChannel 1.1 v).
Proof.
  intros Hv. apply clampedProductb_sound.
  revert v Hv. apply forall_bytes. vm_compute. reflexivity.
Qed.

Lemma tint_0_7 v : isByte v -> clampedProduct 7 v (tintChannel 0.7 v).
Proof.
  intros Hv. apply clampedProductb_sound.
  revert v Hv. apply forall_bytes. vm_compute. reflexivity.
Qed.

Lemma pixelAt_S (d : list Z) r g b a k :
  pixelAt (r :: g :: b :: a :: d) (S k) = pixelAt d k.
Proof.
  unfold pixelAt. replace (4 * S k)%nat with (S (S (S (S (4 * k))))) by lia.
  reflexivity.
Qed.

Lemma pixelAt_short (d : list Z) k :
  (List.length d < 4)%nat -> List.length (pixelAt d k) < 4.
Proof.
  intros Hd. unfold pixelAt. rewrite length_firstn, length_skipn. lia.
Qed.

(** What the tint loop does to the [k]-th pixel. *)
Lemma tintLoop_pixel effect : forall k d r g b a,
  pixelAt d k = [r; g; b; a] ->
  pixelAt (tintLoop effect d) k =
    [tintChannel (f_r effect) r; tintChannel (f_g effect) g;
     tintChannel (f_b effect) b; a].
Proof.
  induction k as [|k IH]; intros d r g b a Hpx.
  - destruct d as [|r0 [|g0 [|b0 [|a0 rest]]]]; try discriminate Hpx.
    unfold pixelAt in Hpx. simpl in Hpx. injection Hpx as -> -> -> ->.
    reflexivity.
  - destruct d as [|r0 [|g0 [|b0 [|a0 rest]]]];
      try (apply (f_equal (@List.length Z)) in Hpx;
           match type of Hpx with
           | List.length (pixelAt ?l _) = _ =>
               pose proof (pixelAt_short l (S k)) as Hs; simpl in Hs, Hpx; lia
           end).
    rewrite pixelAt_S in Hpx.
    change (tintLoop effect (r0 :: g0 :: b0 :: a0 :: rest))
      with (tintChannel (f_r effect) r0 :: tintChannel (f_g effect) g0
              :: tintChannel (f_b effect) b0 :: a0 :: tintLoop effect rest).
    rewrite pixelAt_S. apply IH, Hpx.
Qed.

Lemma tintLoop_length effect : forall n d,
  (List.length d <= n)%nat -> List.length (tintLoop effect d) = List.length d.
Proof.
  induction n as [|n IH]; intros d Hn.
  - destruct d; [reflexivity | simpl in Hn; lia].
  - destruct d as [|r0 [|g0 [|b0 [|a0 rest]]]]; try reflexivity.
    change (tintLoop effect (r0 :: g0 :: b0 :: a0 :: rest))
      with (tintChannel (f_r effect) r0 :: tintChannel (f_g effect) g0
              :: tintChannel (f_b effect) b0 :: a0 :: tintLoop effect rest).
    simpl. rewrite IH; [reflexivity | simpl in Hn; lia].
Qed.

(** What the sepia loop does to the [k]-th pixel. *)
Lemma sepiaLoop_pixel : forall k d r g b a,
  pixelAt d k = [r; g; b; a] ->
  pixelAt (sepiaLoop d) k =
    [sepiaR (element (Some r)) (element (Some g)) (element (Some b));
     sepiaG (element (Some r)) (element (Some g)) (element (Some b));
     sepiaB (element (Some r)) (element (Some g)) (element (Some b)); a].
Proof.
  induction k as [|k IH]; intros d r g b a Hpx.
  - destruct d as [|r0 [|g0 [|b0 [|a0 rest]]]]; try discriminate Hpx.
    unfold pixelAt in Hpx. simpl in Hpx. injection Hpx as -> -> -> ->.
    reflexivity.
  - destruct d as [|r0 [|g0 [|b0 [|a0 rest]]]];
      try (apply (f_equal (@List.length Z)) in Hpx;
           match type of Hpx with
           | List.length (pixelAt ?l _) = _ =>
               pose proof (pixelAt_short l (S k)) as Hs; simpl in Hs, Hpx; lia
           end).
    rewrite pixelAt_S in Hpx.
    change (sepiaLoop (r0 :: g0 :: b0 :: a0 :: rest))
      with (sepiaR (element (Some r0)) (element (Some g0)) (element (Some b0))
              :: sepiaG (element (Some r0)) (element (Some g0)) (element (Some b0))
              :: sepiaB (element (Some r0)) (element (Some g0)) (element (Some b0))
              :: a0 :: sepiaLoop rest).
    rewrite pixelAt_S. apply IH, Hpx.
Qed.

End PixelFacts.

(* ================================================================== *)
(** ** The colour tint and the sepia tone *)
(* ================================================================== *)

Section ColourClaims.

Import JsNumber Pixels Ctx Composer PixelFacts Fixtures.

(** The tint of one channel, for the factors of the [k]-th effect. *)
Lemma effect_channels k effect tr tg tb :
  nth_error effects k = Some effect ->
  nth_error tintTenths k = Some (tr, tg, tb) ->
  forall v, isByte v ->
    clampedProduct tr v (tintChannel (f_r effect) v)
    /\ clampedProduct tg v (tintChannel (f_g effect) v)
    /\ clampedProduct tb v (tintChannel (f_b effect) v).
Proof.
  intros He Ht v Hv.
  destruct k as [|[|[|[|k]]]]; simpl in He, Ht;
    try (destruct k; discriminate He);
    injection He as <-; injection Ht as <- <- <-; simpl;
    auto using tint_1_2, tint_0_8, tint_1_1, tint_0_7.
Qed.

(** C5. [applyColorEffect] takes its factors from the fixed list by
    [variation mod 4], stores for each of R, G and B the product with its
    factor cut off at 255 (a byte again, 255 whenever the product exceeds
    255), and leaves every alpha byte, the drawing state and the size of
    the buffer as they were. *)
Theorem applyColorEffect_clamped_tint (cw ch index : nat) (ctx : Canvas) (w : World) :
  cw <> 0%nat -> ch <> 0%nat ->
  exists effect tr tg tb ctx',
    nth_error effects (index mod 4) = Some effect
    /\ nth_error tintTenths (index mod 4) = Some (tr, tg, tb)
    /\ applyColorEffect cw ch index ctx w = Returned ctx' w
    /\ state ctx' = state ctx
    /\ List.length (data (surface ctx')) = List.length (data (surface ctx))
    /\ forall k r g b a,
         pixelAt (data (surface ctx)) k = [r; g; b; a] ->
         isByte r -> isByte g -> isByte b ->
         exists r' g' b',
           pixelAt (data (surface ctx')) k = [r'; g'; b'; a]
           /\ r' = ToUint8Clamp (Math_min 255 (element (Some r) * f_r effect))
           /\ g' = ToUint8Clamp (Math_min 255 (element (Some g) * f_g effect))
           /\ b' = ToUint8Clamp (Math_min 255 (element (Some b) * f_b effect))
           /\ isByte r' /\ isByte g' /\ isByte b'
           /\ clampedProduct tr r r' /\ clampedProduct tg g g'
           /\ clampedProduct tb b b'.
Proof.
  intros Hw Hh.
  assert (Hlt : (index mod 4 < 4)%nat) by (apply Nat.mod_upper_bound; lia).
  assert (Heff : nth_error effects (index mod 4) = Some (effectFor index)).
  { unfold effectFor. change (List.length effects) with 4%nat.
    apply nth_error_nth'. exact Hlt. }
  assert (Hten : exists t, nth_error tintTenths (index mod 4) = Some t).
  { destruct (nth_error tintTenths (index mod 4)) eqn:E; [eauto|].
    apply nth_error_None in E.
    change (List.length tintTenths) with 4%nat in E. lia. }
  destruct Hten as [[[tr tg] tb] Hten].
  exists (effectFor index), tr, tg, tb.
  exists {| state := state ctx;
            surface := {| width := width (surface ctx); height := height (surface ctx);
                          data := tintLoop (effectFor index) (data (surface ctx)) |} |}.
  split; [exact Heff|]. split; [exact Hten|]. split; [|split; [|split]].
  - unfold applyColorEffect, bind, getImageData, putImageData, ret.
    destruct cw; [congruence|]. destruct ch; [congruence|]. reflexivity.
  - reflexivity.
  - simpl. apply (tintLoop_length _ _ _ (le_n _)).
  - intros k r g b a Hpx Hr Hg Hb. simpl.
    exists (tintChannel (f_r (effectFor index)) r),
           (tintChannel (f_g (effectFor index)) g),
           (tintChannel (f_b (effectFor index)) b).
    split; [apply tintLoop_pixel, Hpx|].
    destruct (effect_channels _ _ _ _ _ Heff Hten r Hr) as (Cr & _ & _).
    destruct (effect_channels _ _ _ _ _ Heff Hten g Hg) as (_ & Cg & _).
    destruct (effect_channels _ _ _ _ _ Heff Hten b Hb) as (_ & _ & Cb).
    split; [reflexivity|]. split; [reflexivity|]. split; [reflexivity|].
    split; [apply tintChannel_range|]. split; [apply tintChannel_range|].
    split; [apply tintChannel_range|]. split; [exact Cr|]. split; [exact Cg | exact Cb].
Qed.

(** On the one-pixel image (200,100,50), index 0 (the reddish factors):
    200*1.2 = 240, 100*0.8 = 80, 50*0.8 = 40, alpha kept. *)
Lemma applyColorEffect_clamped_tint_witness :
  exists ctx',
    applyColorEffect 1 1 0 {| state := defaultState; surface := pixel |} start
      = Returned ctx' start
    /\ pixelAt (data (surface ctx')) 0 = [240; 80; 40; 255]%Z.
Proof.
  destruct (applyColorEffect_clamped_tint 1 1 0
              {| state := defaultState; surface := pixel |} start)
    as (effect & tr & tg & tb & ctx' & He & _ & Hrun & _ & _ & _);
    [discriminate | discriminate |].
  exists ctx'. split; [exact Hrun|].
  vm_compute in Hrun. injection Hrun as <-. reflexivity.
Defined.

(** C4, as amended. The sepia tone of [addVariationEffect], index 2,
    stores for every pixel the three rows of the matrix
    (0.393, 0.769, 0.189), (0.349, 0.686, 0.168), (0.272, 0.534, 0.131),
    each cut off at 255 and rounded on storing, and keeps alpha and the
    drawing state.  For the pixel (200,100,50) the red channel is 165
    (the sum is 164.95), the pixel becomes (165,147,114), and a second
    application gives (199,178,138): the transform is not idempotent. *)
Theorem sepia_single_application (host : Host) (cw ch : nat) (ctx : Canvas) (w : World) :
  cw <> 0%nat -> ch <> 0%nat ->
  (exists ctx',
     addVariationEffect host cw ch 2 ctx w = Returned ctx' w
     /\ state ctx' = state ctx
     /\ forall k r g b a,
          pixelAt (data (surface ctx)) k = [r; g; b; a] ->
          let '(R, G, B) := (element (Some r), element (Some g), element (Some b)) in
          exists r' g' b',
            pixelAt (data (surface ctx')) k = [r'; g'; b'; a]
            /\ r' = ToUint8Clamp (Math_min 255 ((R * 0.393) + (G * 0.769) + (B * 0.189)))
            /\ g' = ToUint8Clamp (Math_min 255 ((R * 0.349) + (G * 0.686) + (B * 0.168)))
            /\ b' = ToUint8Clamp (Math_min 255 ((R * 0.272) + (G * 0.534) + (B * 0.131)))
            /\ isByte r' /\ isByte g' /\ isByte b')
  /\ sepiaLoop [200; 100; 50; 255]%Z = [165; 147; 114; 255]%Z
  /\ (200 * 393 + 100 * 769 + 50 * 189 = 164950)%Z
  /\ sepiaLoop (sepiaLoop [200; 100; 50; 255]%Z) = [199; 178; 138; 255]%Z.
Proof.
  intros Hw Hh.
  split; [|split; [|split]];
    [| vm_compute; reflexivity | reflexivity | vm_compute; reflexivity].
  exists {| state := state ctx;
            surface := {| width := width (surface ctx); height := height (surface ctx);
                          data := sepiaLoop (data (surface ctx)) |} |}.
  split; [|split].
  - unfold addVariationEffect, bind, getImageData, putImageData, ret.
    destruct cw; [congruence|]. destruct ch; [congruence|]. reflexivity.
  - reflexivity.
  - intros k r g b a Hpx. simpl.
    do 3 eexists. split; [apply sepiaLoop_pixel, Hpx|].
    split; [reflexivity|]. split; [reflexivity|]. split; [reflexivity|].
    split; [|split]; apply ToUint8Clamp_range.
Qed.

Lemma sepia_single_application_witness :
  exists ctx',
    addVariationEffect (hostOf (alwaysLoads pixel) (okResponse None) (fun _ => 0%float))
      1 1 2 {| state := defaultState; surface := pixel |} start = Returned ctx' start
    /\ data (surface ctx') = [165; 147; 114; 255]%Z.
Proof.
  destruct (sepia_single_application
              (hostOf (alwaysLoads pixel) (okResponse None) (fun _ => 0%float))
              1 1 {| state := defaultState; surface := pixel |} start)
    as ((ctx' & Hrun & _) & _); [discriminate | discriminate |].
  exists ctx'. split; [exact Hrun|].
  vm_compute in Hrun. injection Hrun as <-. reflexivity.
Defined.

(** The red channel of the sepia of (200,100,50) is 165, not 183. *)
Lemma sepia_red_is_not_183 :
  nth 0 (sepiaLoop [200; 100; 50; 255]%Z) 0%Z = 165%Z
  /\ (nth 0 (sepiaLoop [200; 100; 50; 255]%Z) 0%Z =? 183)%Z = false.
Proof. split; vm_compute; reflexivity. Qed.

End ColourClaims.

(* ================================================================== *)
(** ** Substrings and lower case *)
(* ================================================================== *)

Module StringFacts.

Import JsString Composer.

Lemma startsWith_iff : forall t s,
  startsWith s t = true <-> exists post, s = (t ++ post)%string.
Proof.
  induction t as [|b t IH]; intros s.
  - destruct s; simpl; split; eauto.
  - destruct s as [|a s]; simpl.
    + split; [discriminate | intros [post H]; discriminate H].
    + rewrite andb_true_iff, Ascii.eqb_eq, IH. split.
      * intros [-> [post ->]]. eauto.
      * intros [post H]. injection H as -> ->. eauto.
Qed.

Lemma includes_iff t : forall s,
  includes s t = true <-> exists pre post, s = (pre ++ t ++ post)%string.
Proof.
  induction s as [|a s IH].
  - cbn [includes]. rewrite orb_false_r, startsWith_iff. split.
    + intros [post H]. exists EmptyString, post. exact H.
    + intros [pre [post H]]. destruct pre; [eauto | discriminate H].
  - cbn [includes]. rewrite orb_true_iff, startsWith_iff, IH. split.
    + intros [[post H] | [pre [post H]]].
      * exists EmptyString, post. exact H.
      * exists (String a pre), post. simpl. rewrite H. reflexivity.
    + intros [pre [post H]]. destruct pre as [|a' pre].
      * left. eauto.
      * right. simpl in H. injection H as _ H. eauto.
Qed.

Lemma toLowerCase_app a b :
  toLowerCase (a ++ b) = (toLowerCase a ++ toLowerCase b)%string.
Proof. induction a as [|c a IH]; simpl; [|rewrite IH]; reflexivity. Qed.

(** Lowering works character by character, so a split of the lowered
    string is the lowering of a split of the string. *)
Lemma toLowerCase_split : forall a s b,
  toLowerCase s = (a ++ b)%string ->
  exists s1 s2, s = (s1 ++ s2)%string /\ toLowerCase s1 = a /\ toLowerCase s2 = b.
Proof.
  induction a as [|c a IH]; intros s b H.
  - exists EmptyString, s. auto.
  - destruct s as [|d s]; [discriminate H|].
    simpl in H. injection H as Hc H.
    destruct (IH _ _ H) as (s1 & s2 & -> & <- & <-).
    exists (String d s1), s2. simpl. rewrite Hc. auto.
Qed.

(** The test of the program is the occurrence the specification means. *)
Lemma mentions_iff (p kw : string) : mentions p kw = true <-> occursIn kw p.
Proof.
  unfold mentions, occursIn. rewrite includes_iff. split.
  - intros (pre & post & H).
    destruct (toLowerCase_split _ _ _ H) as (s1 & s2 & -> & _ & H2).
    destruct (toLowerCase_split _ _ _ H2) as (m & s3 & -> & Hm & _).
    exists s1, m, s3. auto.
  - intros (pre & mid & post & -> & <-).
    exists (toLowerCase pre), (toLowerCase post).
    rewrite !toLowerCase_app. reflexivity.
Qed.

End StringFacts.

(* ================================================================== *)
(** ** Reasoning about effects *)
(* ================================================================== *)

Module EffFacts.

Import Ctx Composer.

Lemma bind_ret_r {A} (m : Eff A) w : bind m ret w = m w.
Proof. unfold bind, ret. destruct (m w); reflexivity. Qed.

Lemma bind_ext {A B} (m : Eff A) (k k' : A -> Eff B) w :
  (forall a w', k a w' = k' a w') -> bind m k w = bind m k' w.
Proof. intros H. unfold bind. destruct (m w); auto. Qed.

Lemma bind_Returned {A B} (m : Eff A) (k : A -> Eff B) w b w' :
  bind m k w = Returned b w' ->
  exists a w1, m w = Returned a w1 /\ k a w1 = Returned b w'.
Proof. unfold bind. destruct (m w); try discriminate. eauto. Qed.

(** *** Postconditions on the value *)

Lemma post_ret {A} (P : A -> Prop) a : P a -> post P (ret a).
Proof. intros H w a' w' E. injection E as <- _. exact H. Qed.

Lemma post_bind {A B} (Q : A -> Prop) (P : B -> Prop) m k :
  post Q m -> (forall a, Q a -> post P (k a)) -> post P (bind m k).
Proof.
  intros Hm Hk w b w' E.
  apply bind_Returned in E. destruct E as (a & w1 & E1 & E2).
  eapply Hk; eauto.
Qed.

Lemma post_weaken {A} (P Q : A -> Prop) m :
  post P m -> (forall a, P a -> Q a) -> post Q m.
Proof. intros H HPQ w a w' E. eauto. Qed.

(** A drawing call leaves the drawing state and the size as they are. *)
Lemma post_draw host cmd c :
  post (fun c' => state c' = state c
                  /\ width (surface c') = width (surface c)
                  /\ height (surface c') = height (surface c))
       (draw host cmd c).
Proof.
  intros w c' w' E. unfold draw in E.
  destruct (rasterize host (state c) cmd (surface c)); [discriminate|].
  injection E as <- _. auto.
Qed.

(** *** The part of the world a computation touches *)

Lemma drawsOnly_ret {A} (a : A) : drawsOnly (ret a).
Proof. intros [l r t]. reflexivity. Qed.

Lemma drawsOnly_throw {A} e : drawsOnly (@throw A e).
Proof. intros [l r t]. reflexivity. Qed.

Lemma drawsOnly_bind {A B} (m : Eff A) (k : A -> Eff B) :
  drawsOnly m -> (forall a, drawsOnly (k a)) -> drawsOnly (bind m k).
Proof.
  intros Hm Hk w. unfold bind. rewrite (Hm w).
  destruct (m (onlyRandoms w)) as [a w1|e w1|]; cbn [reframe]; try reflexivity.
  rewrite (Hk a w1), (Hk a {| loads := loads w; randoms := randoms w1; ticks := ticks w |}).
  unfold onlyRandoms. cbn [randoms].
  destruct (k a {| loads := 0; randoms := randoms w1; ticks := 0 |}); reflexivity.
Qed.

Lemma drawsOnly_draw host cmd c : drawsOnly (draw host cmd c).
Proof.
  intros [l r t]. unfold draw.
  destruct (rasterize host (state c) cmd (surface c)); reflexivity.
Qed.

Lemma drawsOnly_random host : drawsOnly (Math_random host).
Proof. intros [l r t]. reflexivity. Qed.

Lemma drawsOnly_getImageData sw sh c : drawsOnly (getImageData sw sh c).
Proof.
  intros [l r t]. unfold getImageData.
  destruct ((sw =? 0)%nat || (sh =? 0)%nat); reflexivity.
Qed.

Lemma drawsOnly_putImageData d c : drawsOnly (putImageData d c).
Proof. intros [l r t]. reflexivity. Qed.

(** What a load count and a clock a drawing computation ends with. *)
Lemma drawsOnly_Returned {A} (m : Eff A) w a w' :
  drawsOnly m -> m w = Returned a w' -> loads w' = loads w /\ ticks w' = ticks w.
Proof.
  intros Hm E. rewrite (Hm w) in E.
  destruct (m (onlyRandoms w)); try discriminate.
  injection E as _ <-. auto.
Qed.

(** Its value depends on the world through the random cursor only. *)
Lemma drawsOnly_result {A} (m : Eff A) w1 w2 :
  drawsOnly m -> randoms w1 = randoms w2 -> result (m w1) = result (m w2).
Proof.
  intros Hm Hr. rewrite (Hm w1), (Hm w2). unfold onlyRandoms. rewrite Hr.
  destruct (m {| loads := 0; randoms := randoms w2; ticks := 0 |}); reflexivity.
Qed.

End EffFacts.

(* ================================================================== *)
(** ** What the drawing methods touch *)
(* ================================================================== *)

Module MethodFacts.

Import JsString JsNumber Pixels Ctx Composer EffFacts.

Ltac draws_only :=
  unfold fillRect, fillText, strokeText, drawImage; cbv zeta;
  repeat first
    [ apply drawsOnly_ret
    | apply drawsOnly_throw
    | apply drawsOnly_draw
    | apply drawsOnly_random
    | apply drawsOnly_getImageData
    | apply drawsOnly_putImageData
    | apply drawsOnly_bind; [|intro]
    | match goal with
      | |- drawsOnly (if ?c then _ else _) => destruct c
      end
    | assumption ].

Section Drawing.

Variable host : Host.
Variable this : Editor.

Lemma applyColorEffect_drawsOnly cw ch v ctx : drawsOnly (applyColorEffect cw ch v ctx).
Proof. unfold applyColorEffect. draws_only. Qed.

Lemma applyBrightnessEffect_drawsOnly cw ch v ctx :
  drawsOnly (applyBrightnessEffect host cw ch v ctx).
Proof. unfold applyBrightnessEffect. draws_only. Qed.

Lemma applyDarknessEffect_drawsOnly cw ch v ctx :
  drawsOnly (applyDarknessEffect host cw ch v ctx).
Proof. unfold applyDarknessEffect. draws_only. Qed.

Lemma applyBlurEffect_drawsOnly cw ch ctx : drawsOnly (applyBlurEffect host cw ch ctx).
Proof. unfold applyBlurEffect, blurPass. draws_only. Qed.

Lemma metallicShadow_drawsOnly t x y : forall i ctx,
  drawsOnly (metallicShadow host i t x y ctx).
Proof.
  induction i as [|i IH]; intros ctx; cbn [metallicShadow]; draws_only. apply IH.
Qed.

Lemma matrixNoise_drawsOnly x y fs : forall n ctx,
  drawsOnly (matrixNoise host n x y fs ctx).
Proof.
  induction n as [|n IH]; intros ctx; cbn [matrixNoise]; draws_only. apply IH.
Qed.

Lemma addTextOverlay_drawsOnly cw ch t style v ctx :
  drawsOnly (addTextOverlay host cw ch t style v ctx).
Proof.
  unfold addTextOverlay, draw3DMetallicText, drawBalloonText, drawMatrixText,
    drawSimpleText.
  pose proof (metallicShadow_drawsOnly t) as Hs.
  pose proof matrixNoise_drawsOnly as Hn.
  draws_only; first [apply Hs | apply Hn].
Qed.

Lemma addVariationEffect_drawsOnly cw ch v ctx :
  drawsOnly (addVariationEffect host cw ch v ctx).
Proof. destruct v as [|[|[|v]]]; cbn [addVariationEffect]; draws_only. Qed.

Lemma applyImageModifications_drawsOnly p v ctx :
  drawsOnly (applyImageModifications host this p v ctx).
Proof.
  unfold applyImageModifications. cbv zeta.
  repeat (apply drawsOnly_bind; [|intro]);
    try match goal with
        | |- drawsOnly (if ?c then _ else _) => destruct c
        end;
    auto using drawsOnly_ret, applyColorEffect_drawsOnly, applyBrightnessEffect_drawsOnly,
      applyDarknessEffect_drawsOnly, applyBlurEffect_drawsOnly, addTextOverlay_drawsOnly,
      addVariationEffect_drawsOnly.
Qed.

(** *** The blend state after each method *)

Lemma post_draw_state cmd c :
  post (fun c' => state c' = state c) (draw host cmd c).
Proof. eapply post_weaken; [apply post_draw|]. intros a (H & _). exact H. Qed.

Lemma post_any {A} (m : Eff A) : post (fun _ => True) m.
Proof. intros w a w' _. exact I. Qed.

Ltac blend_chain :=
  unfold blendOf;
  repeat (cbn [state globalCompositeOperation globalAlpha set_globalCompositeOperation
               set_globalAlpha set_fillStyle set_strokeStyle set_lineWidth set_font
               set_textAlign set_shadowColor set_shadowBlur];
          match goal with
          | H : state ?a = _ |- context [state ?a] => rewrite H; clear H
          end);
  cbn [state globalCompositeOperation globalAlpha set_globalCompositeOperation
       set_globalAlpha set_fillStyle set_strokeStyle set_lineWidth set_font
       set_textAlign set_shadowColor set_shadowBlur];
  try reflexivity.

Ltac post_steps :=
  unfold fillRect, fillText, strokeText, drawImage, putImageData; cbv zeta;
  repeat first
    [ eapply post_bind; [apply post_draw_state | intros ? ?; cbv beta in *]
    | eapply post_bind; [apply (post_any (Math_random host)) | intros ? _]
    | eapply post_bind; [apply (post_any (getImageData _ _ _)) | intros ? _]
    | apply post_ret
    | eapply post_weaken; [apply post_draw_state | intros ? ?; cbv beta in *] ].

Lemma applyColorEffect_blend cw ch v ctx :
  post (fun c' => blendOf c' = blendOf ctx) (applyColorEffect cw ch v ctx).
Proof. unfold applyColorEffect. post_steps. blend_chain. Qed.

Lemma applyBrightnessEffect_blend cw ch v ctx :
  post (fun c' => blendOf c' = (source_over, globalAlpha (state ctx)))
       (applyBrightnessEffect host cw ch v ctx).
Proof. unfold applyBrightnessEffect. post_steps. blend_chain. Qed.

Lemma applyDarknessEffect_blend cw ch v ctx :
  post (fun c' => blendOf c' = (source_over, globalAlpha (state ctx)))
       (applyDarknessEffect host cw ch v ctx).
Proof. unfold applyDarknessEffect. post_steps. blend_chain. Qed.

Lemma blurPass_state i ctx :
  post (fun c' => state c' = state ctx) (blurPass host i ctx).
Proof.
  unfold blurPass. unfold drawImage.
  eapply post_bind; [apply post_draw_state | intros c1 H1; cbv beta in H1].
  eapply post_bind; [apply post_draw_state | intros c2 H2; cbv beta in H2].
  eapply post_bind; [apply post_draw_state | intros c3 H3; cbv beta in H3].
  eapply post_weaken; [apply post_draw_state|].
  intros c4 H4. cbv beta in H4. congruence.
Qed.

Lemma applyBlurEffect_blend cw ch ctx :
  post (fun c' => blendOf c' = (globalCompositeOperation (state ctx), 1.0%float))
       (applyBlurEffect host cw ch ctx).
Proof.
  unfold applyBlurEffect. cbv zeta.
  eapply post_bind; [apply blurPass_state | intros c1 H1; cbv beta in H1].
  eapply post_bind; [apply blurPass_state | intros c2 H2; cbv beta in H2].
  eapply post_bind; [apply blurPass_state | intros c3 H3; cbv beta in H3].
  apply post_ret. blend_chain.
Qed.

Lemma metallicShadow_blend t x y : forall i ctx,
  post (fun c' => blendOf c' = blendOf ctx) (metallicShadow host i t x y ctx).
Proof.
  induction i as [|i IH]; intros ctx; cbn [metallicShadow].
  - apply post_ret. reflexivity.
  - cbv zeta. unfold fillText.
    eapply post_bind; [apply post_draw_state | intros c1 H1; cbv beta in H1].
    eapply post_weaken; [apply IH|]. intros c' ->. blend_chain.
Qed.

Lemma matrixNoise_blend x y fs : forall n ctx,
  post (fun c' => blendOf c' = blendOf ctx) (matrixNoise host n x y fs ctx).
Proof.
  induction n as [|n IH]; intros ctx; cbn [matrixNoise].
  - apply post_ret. reflexivity.
  - cbv zeta. unfold fillRect.
    eapply post_bind; [apply (post_any (Math_random host)) | intros r1 _].
    eapply post_bind; [apply (post_any (Math_random host)) | intros r2 _].
    eapply post_bind; [apply post_draw_state | intros c1 H1; cbv beta in H1].
    eapply post_weaken; [apply IH|]. intros c' ->. blend_chain.
Qed.

Lemma addTextOverlay_blend cw ch t style v ctx :
  post (fun c' => blendOf c' = blendOf ctx) (addTextOverlay host cw ch t style v ctx).
Proof.
  unfold addTextOverlay. cbv zeta.
  destruct (String.eqb style "3D metallic");
    [|destruct (String.eqb style "balloon"); [|destruct (String.eqb style "Matrix")]].
  - unfold draw3DMetallicText. cbv zeta.
    eapply post_bind; [apply metallicShadow_blend | intros c0 H0; cbv beta in H0].
    post_steps. unfold blendOf in H0. injection H0 as Hop Halpha.
    blend_chain. cbn in Hop, Halpha. rewrite Hop, Halpha. reflexivity.
  - unfold drawBalloonText. post_steps.
    match goal with
    | H : context [balloonColor ?r] |- _ => destruct (balloonColor r)
    end; blend_chain.
  - unfold drawMatrixText. cbv zeta. unfold fillText.
    eapply post_bind; [apply post_draw_state | intros c1 H1; cbv beta in H1].
    eapply post_weaken; [apply matrixNoise_blend|]. intros c' ->. blend_chain.
  - unfold drawSimpleText. post_steps. blend_chain.
Qed.

Lemma addVariationEffect_blend cw ch v ctx :
  post (fun c' => blendOf c' =
                  match v with
                  | 0%nat | 2%nat => blendOf ctx
                  | _ => (source_over, globalAlpha (state ctx))
                  end)
       (addVariationEffect host cw ch v ctx).
Proof.
  destruct v as [|[|[|v]]]; cbn [addVariationEffect]; post_steps; blend_chain.
Qed.

(** Each step keeps a default blend state default. *)
Lemma runStep_blendDefault cw ch v s ctx :
  blendDefault ctx -> post blendDefault (runStep host this cw ch v s ctx).
Proof.
  intros [Hop Halpha].
  assert (Hb : blendOf ctx = (source_over, 1.0%float))
    by (unfold blendOf; rewrite Hop, Halpha; reflexivity).
  assert (Hdone : forall c', blendOf c' = (source_over, 1.0%float) -> blendDefault c').
  { intros c' H. unfold blendOf in H. injection H as H1 H2. split; assumption. }
  destruct s; cbn [runStep];
    (eapply post_weaken;
     [ first [ apply applyColorEffect_blend | apply applyBrightnessEffect_blend
             | apply applyDarknessEffect_blend | apply applyBlurEffect_blend
             | apply addTextOverlay_blend | apply addVariationEffect_blend ]
     | intros c' Hc'; apply Hdone; rewrite Hc' ]).
  - exact Hb.
  - rewrite Halpha. reflexivity.
  - rewrite Halpha. reflexivity.
  - rewrite Hop. reflexivity.
  - exact Hb.
  - destruct v as [|[|[|v]]]; rewrite ?Hb, ?Halpha; reflexivity.
Qed.

Lemma runSteps_blendDefault cw ch v : forall steps ctx,
  blendDefault ctx -> post blendDefault (runSteps host this cw ch v steps ctx).
Proof.
  induction steps as [|s steps IH]; intros ctx Hctx; cbn [runSteps].
  - apply post_ret, Hctx.
  - eapply post_bind; [apply runStep_blendDefault, Hctx | intros c1 H1; apply IH, H1].
Qed.

End Drawing.

End MethodFacts.

(* ================================================================== *)
(** ** The composer: order, triggers, blend state, determinism *)
(* ================================================================== *)

Section ComposerClaims.

Import JsString JsNumber Pixels Ctx Composer StringFacts EffFacts MethodFacts Fixtures.

Lemma fires_ColorTint this p :
  fires this p ColorTint
  = (mentions p "color" || mentions p "blue" || mentions p "red").
Proof. unfold fires. cbn [keywords existsb]. rewrite orb_false_r, orb_assoc. reflexivity. Qed.

Lemma fires_BrightnessWash this p :
  fires this p BrightnessWash = (mentions p "bright" || mentions p "light").
Proof. unfold fires. cbn [keywords existsb]. rewrite orb_false_r. reflexivity. Qed.

Lemma fires_DarknessWash this p :
  fires this p DarknessWash = (mentions p "dark" || mentions p "shadow").
Proof. unfold fires. cbn [keywords existsb]. rewrite orb_false_r. reflexivity. Qed.

Lemma fires_CheapBlur this p :
  fires this p CheapBlur = (mentions p "blur" || mentions p "soft").
Proof. unfold fires. cbn [keywords existsb]. rewrite orb_false_r. reflexivity. Qed.

Lemma plan_cases this p :
  plan this p =
    (if fires this p ColorTint then [ColorTint] else [])
    ++ (if fires this p BrightnessWash then [BrightnessWash] else [])
    ++ (if fires this p DarknessWash then [DarknessWash] else [])
    ++ (if fires this p CheapBlur then [CheapBlur] else [])
    ++ (if fires this p TextOverlay then [TextOverlay] else [])
    ++ [DefaultEffect].
Proof.
  unfold plan, fixedOrder. cbn [filter].
  destruct (fires this p ColorTint), (fires this p BrightnessWash),
    (fires this p DarknessWash), (fires this p CheapBlur), (fires this p TextOverlay);
    reflexivity.
Qed.

(** The method is the run of its plan. *)
Lemma applyImageModifications_runs_plan host this p index ctx w :
  applyImageModifications host this p index ctx w
  = runSteps host this (width (surface ctx)) (height (surface ctx)) index
             (plan this p) ctx w.
Proof.
  rewrite plan_cases, fires_ColorTint, fires_BrightnessWash, fires_DarknessWash,
    fires_CheapBlur.
  change (fires this p TextOverlay) with (truthy (trim (youtubeTitle this))).
  unfold applyImageModifications. cbv zeta.
  destruct (mentions p "color" || mentions p "blue" || mentions p "red"),
    (mentions p "bright" || mentions p "light"),
    (mentions p "dark" || mentions p "shadow"),
    (mentions p "blur" || mentions p "soft"),
    (truthy (trim (youtubeTitle this)));
    cbn [app runSteps runStep]; unfold bind, ret; cbv beta iota;
    repeat match goal with
           | |- context [match ?m with
                         | Returned _ _ => _ | Thrown _ _ => _ | NeverSettles => _
                         end] => destruct m
           end;
    reflexivity.
Qed.

Lemma keyword_step_fires this p s :
  In s [ColorTint; BrightnessWash; DarknessWash; CheapBlur] ->
  (fires this p s = true <-> exists kw, In kw (keywords s) /\ occursIn kw p).
Proof.
  intros Hs.
  assert (E : fires this p s = existsb (mentions p) (keywords s)).
  { cbn in Hs. destruct Hs as [<-|[<-|[<-|[<-|[]]]]]; reflexivity. }
  rewrite E, existsb_exists. split; intros (kw & Hin & H); exists kw;
    (split; [exact Hin | apply mentions_iff, H]).
Qed.

(** C6. The composer runs the steps that fire, in the fixed order
    tint, brightness wash, darkness wash, blur, text overlay, default
    effect.  A keyword step fires exactly when one of its words occurs in
    the prompt case-insensitively (the prompt being a string of Latin-1
    code units), independently of the other steps; the
    text overlay fires exactly when the trimmed title is not empty; the
    default effect always fires.  The prompt [make it bright and blue]
    fires both the tint and the brightness wash; a prompt in which no
    keyword occurs runs the default effect, preceded by the text overlay
    when there is a title. *)
Theorem applyImageModifications_fixed_order host this p index ctx w :
  applyImageModifications host this p index ctx w
    = runSteps host this (width (surface ctx)) (height (surface ctx)) index
               (filter (fires this p) fixedOrder) ctx w
  /\ (forall s, In s [ColorTint; BrightnessWash; DarknessWash; CheapBlur] ->
        (In s (plan this p) <-> exists kw, In kw (keywords s) /\ occursIn kw p))
  /\ (In TextOverlay (plan this p) <-> trim (youtubeTitle this) <> EmptyString)
  /\ In DefaultEffect (plan this p)
  /\ plan this "make it bright and blue"
       = [ColorTint; BrightnessWash]
           ++ (if truthy (trim (youtubeTitle this)) then [TextOverlay] else [])
           ++ [DefaultEffect]
  /\ ((forall kw, In kw allKeywords -> ~ occursIn kw p) ->
      plan this p
        = (if truthy (trim (youtubeTitle this)) then [TextOverlay] else [])
            ++ [DefaultEffect]).
Proof.
  split; [apply applyImageModifications_runs_plan|].
  split; [|split; [|split; [|split]]].
  - intros s Hs. unfold plan.
    rewrite filter_In, <- (keyword_step_fires this p s Hs).
    split; [tauto|]. intros H. split; [|exact H].
    cbn in Hs |- *. tauto.
  - unfold plan. rewrite filter_In. cbn [fires].
    destruct (trim (youtubeTitle this)); cbn; split.
    + intros [_ H]. discriminate H.
    + intros H. contradiction H. reflexivity.
    + intros _. discriminate.
    + intros _. split; [tauto | reflexivity].
  - unfold plan. rewrite filter_In. cbn. tauto.
  - rewrite plan_cases.
    replace (fires this "make it bright and blue" ColorTint) with true
      by (vm_compute; reflexivity).
    replace (fires this "make it bright and blue" BrightnessWash) with true
      by (vm_compute; reflexivity).
    replace (fires this "make it bright and blue" DarknessWash) with false
      by (vm_compute; reflexivity).
    replace (fires this "make it bright and blue" CheapBlur) with false
      by (vm_compute; reflexivity).
    reflexivity.
  - intros Hnone. rewrite plan_cases.
    assert (Hoff : forall s, In s [ColorTint; BrightnessWash; DarknessWash; CheapBlur] ->
                             fires this p s = false).
    { intros s Hs. destruct (fires this p s) eqn:E; [|reflexivity].
      apply keyword_step_fires in E; [|exact Hs].
      destruct E as (kw & Hin & Hocc). exfalso. apply (Hnone kw); [|exact Hocc].
      unfold allKeywords. apply in_flat_map. exists s. split; [|exact Hin].
      cbn in Hs |- *. tauto. }
    rewrite !Hoff by (cbn; tauto). reflexivity.
Qed.

(** The prompt [hello] holds no keyword: without a title the composer
    runs the default effect alone. *)
Lemma applyImageModifications_fixed_order_witness :
  plan (editor "hello" "" "" "1") "hello" = [DefaultEffect].
Proof.
  destruct (applyImageModifications_fixed_order
              (hostOf (alwaysLoads pixel) (okResponse None) (fun _ => 0%float))
              (editor "hello" "" "" "1") "hello" 0 (createCanvas 1 1) start)
    as (_ & _ & _ & _ & _ & H).
  apply H. intros kw Hin Hocc. apply mentions_iff in Hocc.
  cbn in Hin.
  repeat (destruct Hin as [<-|Hin]; [vm_compute in Hocc; discriminate Hocc|]).
  exact Hin.
Defined.

(** C10. The washes, the light rays and the random tint end with
    [globalCompositeOperation] set to [source-over], the blur ends with
    [globalAlpha] set to 1.0; a new canvas with the source drawn on it has
    the default blend state, and every step of a composition that starts
    from a default blend state begins with it, whichever steps ran
    before. *)
Theorem steps_restore_blend_state host this cw ch index :
  (forall ctx w ctx' w',
      applyBrightnessEffect host cw ch index ctx w = Returned ctx' w' ->
      globalCompositeOperation (state ctx') = source_over)
  /\ (forall ctx w ctx' w',
         applyDarknessEffect host cw ch index ctx w = Returned ctx' w' ->
         globalCompositeOperation (state ctx') = source_over)
  /\ (forall ctx w ctx' w',
         applyBlurEffect host cw ch ctx w = Returned ctx' w' ->
         globalAlpha (state ctx') = 1.0%float)
  /\ (forall ctx w ctx' w',
         addVariationEffect host cw ch 1 ctx w = Returned ctx' w' ->
         globalCompositeOperation (state ctx') = source_over)
  /\ (forall other ctx w ctx' w',
         addVariationEffect host cw ch (3 + other) ctx w = Returned ctx' w' ->
         globalCompositeOperation (state ctx') = source_over)
  /\ (forall img w ctx w',
         drawImage host img 0 0 (createCanvas (width img) (height img)) w
           = Returned ctx w' ->
         blendDefault ctx)
  /\ (forall p before s after ctx w ctx' w',
         plan this p = before ++ s :: after ->
         blendDefault ctx ->
         runSteps host this cw ch index before ctx w = Returned ctx' w' ->
         blendDefault ctx').
Proof.
  assert (Hfst : forall (c : Canvas) op a,
             blendOf c = (op, a) -> globalCompositeOperation (state c) = op).
  { intros c op a H. unfold blendOf in H. injection H as H _. exact H. }
  assert (Hsnd : forall (c : Canvas) op a,
             blendOf c = (op, a) -> globalAlpha (state c) = a).
  { intros c op a H. unfold blendOf in H. injection H as _ H. exact H. }
  split; [|split; [|split; [|split; [|split; [|split]]]]].
  - intros ctx w ctx' w' E.
    eapply Hfst, (applyBrightnessEffect_blend host cw ch index ctx w), E.
  - intros ctx w ctx' w' E.
    eapply Hfst, (applyDarknessEffect_blend host cw ch index ctx w), E.
  - intros ctx w ctx' w' E.
    eapply Hsnd, (applyBlurEffect_blend host cw ch ctx w), E.
  - intros ctx w ctx' w' E.
    eapply Hfst, (addVariationEffect_blend host cw ch 1 ctx w), E.
  - intros other ctx w ctx' w' E.
    eapply Hfst, (addVariationEffect_blend host cw ch (3 + other) ctx w), E.
  - intros img w ctx w' E.
    apply (post_draw_state host) in E. unfold blendDefault. rewrite E.
    split; reflexivity.
  - intros p before s after ctx w ctx' w' _ Hctx E.
    eapply (runSteps_blendDefault host this cw ch index before ctx Hctx), E.
Qed.

(** The prompt [make it bright and blue] on the one-pixel image: after
    the tint and the brightness wash the default effect begins with the
    default blend state. *)
Lemma steps_restore_blend_state_witness :
  match runSteps (hostOf (alwaysLoads pixel) (okResponse None) (fun _ => 0%float))
                 (editor "make it bright and blue" "" "" "1") 1 1 0
                 [ColorTint; BrightnessWash]
                 {| state := defaultState; surface := pixel |} start with
  | Returned ctx' _ => blendDefault ctx'
  | _ => False
  end.
Proof.
  destruct (runSteps _ _ 1 1 0 [ColorTint; BrightnessWash] _ start)
    as [ctx' w'| |] eqn:E; [| vm_compute in E; discriminate E ..].
  destruct (steps_restore_blend_state
              (hostOf (alwaysLoads pixel) (okResponse None) (fun _ => 0%float))
              (editor "make it bright and blue" "" "" "1") 1 1 0)
    as (_ & _ & _ & _ & _ & _ & H).
  apply (H "make it bright and blue" [ColorTint; BrightnessWash] DefaultEffect []
           {| state := defaultState; surface := pixel |} start ctx' w');
    [reflexivity | split; reflexivity | exact E].
Defined.

(** C8. For a fixed canvas and index, [applyColorEffect] and the default
    effects of the indices 0, 1 and 2 (vignette, light rays, sepia) give
    the same result under any two random sources and in any two worlds, and
    they take no random number.  The random tint of the other indices and
    the colour of the balloon text do follow the random source: on the
    one-pixel image two sources give two different fills, and two random
    numbers give two different balloon colours. *)
Theorem tint_and_indexed_effects_deterministic (h : Host) (r1 r2 : nat -> float)
  (w1 w2 : World) (cw ch index : nat) (ctx : Canvas) :
  result (applyColorEffect cw ch index ctx w1)
    = result (applyColorEffect cw ch index ctx w2)
  /\ result (addVariationEffect (withRandom h r1) cw ch 0 ctx w1)
       = result (addVariationEffect (withRandom h r2) cw ch 0 ctx w2)
  /\ result (addVariationEffect (withRandom h r1) cw ch 1 ctx w1)
       = result (addVariationEffect (withRandom h r2) cw ch 1 ctx w2)
  /\ result (addVariationEffect (withRandom h r1) cw ch 2 ctx w1)
       = result (addVariationEffect (withRandom h r2) cw ch 2 ctx w2)
  /\ worldAfter (applyColorEffect cw ch index ctx w1) = Some w1
  /\ worldAfter (addVariationEffect (withRandom h r1) cw ch 0 ctx w1) = Some w1
  /\ worldAfter (addVariationEffect (withRandom h r1) cw ch 1 ctx w1) = Some w1
  /\ worldAfter (addVariationEffect (withRandom h r1) cw ch 2 ctx w1) = Some w1
  /\ (let fill r :=
        match addVariationEffect (hostOf (alwaysLoads pixel) (okResponse None) r)
                1 1 3 {| state := defaultState; surface := pixel |} start with
        | Returned c _ => Some (fillStyle (state c))
        | _ => None
        end in
      fill (fun _ => 0%float) = Some (Rgba 0 0 0 0.1)
      /\ fill (fun _ => 0.5%float) = Some (Rgba 127.5 127.5 127.5 0.1))
  /\ balloonColor 0.1 = Some "#ff6b6b"
  /\ balloonColor 0.9 = Some "#ffeaa7".
Proof.
  assert (Hdraw : forall ra rb cmd c wa wb,
             result (draw (withRandom h ra) cmd c wa)
               = result (draw (withRandom h rb) cmd c wb)
             /\ worldAfter (draw (withRandom h ra) cmd c wa) = Some wa).
  { intros. unfold draw. cbn [rasterize withRandom].
    destruct (rasterize h (state c) cmd (surface c)); split; reflexivity. }
  assert (Hget : forall sw sh c wa wb,
             result (getImageData sw sh c wa) = result (getImageData sw sh c wb)
             /\ worldAfter (getImageData sw sh c wa) = Some wa).
  { intros. unfold getImageData.
    destruct ((sw =? 0)%nat || (sh =? 0)%nat); split; reflexivity. }
  repeat match goal with |- _ /\ _ => split end.
  - unfold applyColorEffect, bind.
    destruct (Hget cw ch ctx w1 w2) as [Hr _].
    destruct (getImageData cw ch ctx w1), (getImageData cw ch ctx w2);
      cbn in Hr; try discriminate Hr; try reflexivity;
      injection Hr as ->; reflexivity.
  - cbn [addVariationEffect]. unfold fillRect. apply Hdraw.
  - cbn [addVariationEffect]. unfold fillRect, bind.
    match goal with
    | |- context [draw (withRandom h r1) ?cmd ?c w1] =>
        destruct (Hdraw r1 r2 cmd c w1 w2) as [Hr _];
        destruct (draw (withRandom h r1) cmd c w1),
                 (draw (withRandom h r2) cmd c w2)
    end; cbn in Hr; try discriminate Hr; try reflexivity;
    injection Hr as ->; reflexivity.
  - cbn [addVariationEffect]. unfold bind.
    destruct (Hget cw ch ctx w1 w2) as [Hr _].
    destruct (getImageData cw ch ctx w1), (getImageData cw ch ctx w2);
      cbn in Hr; try discriminate Hr; try reflexivity;
      injection Hr as ->; reflexivity.
  - unfold applyColorEffect, bind.
    destruct (Hget cw ch ctx w1 w1) as [_ Hw].
    destruct (getImageData cw ch ctx w1); unfold putImageData, ret;
      cbn in Hw |- *; congruence.
  - cbn [addVariationEffect]. unfold fillRect. apply (Hdraw r1 r1 _ _ w1 w1).
  - cbn [addVariationEffect]. unfold fillRect, bind.
    match goal with
    | |- context [draw (withRandom h r1) ?cmd ?c w1] =>
        destruct (Hdraw r1 r1 cmd c w1 w1) as [_ Hw];
        destruct (draw (withRandom h r1) cmd c w1)
    end; unfold ret; cbn in Hw |- *; congruence.
  - cbn [addVariationEffect]. unfold bind.
    destruct (Hget cw ch ctx w1 w1) as [_ Hw].
    destruct (getImageData cw ch ctx w1); unfold putImageData, ret;
      cbn in Hw |- *; congruence.
  - cbv zeta. split; vm_compute; reflexivity.
  - vm_compute. reflexivity.
  - vm_compute. reflexivity.
Qed.

End ComposerClaims.

(* ================================================================== *)
(** ** The pipeline driver *)
(* ================================================================== *)

Module DriverFacts.

Import JsString JsNumber Pixels Ctx Composer EffFacts MethodFacts.

Section Driver.

Variable host : Host.
Variable this : Editor.

Lemma createModifiedImage_onload_drawsOnly img p i :
  drawsOnly (createModifiedImage_onload host this img p i).
Proof.
  unfold createModifiedImage_onload. cbv zeta. unfold drawImage.
  apply drawsOnly_bind; [apply drawsOnly_draw | intros c1].
  apply drawsOnly_bind; [apply applyImageModifications_drawsOnly | intros c2].
  apply drawsOnly_ret.
Qed.

Lemma createFallbackModifiedImage_onload_drawsOnly img i :
  drawsOnly (createFallbackModifiedImage_onload host img i).
Proof.
  unfold createFallbackModifiedImage_onload. cbv zeta. unfold drawImage.
  apply drawsOnly_bind; [apply drawsOnly_draw | intros c1].
  apply drawsOnly_bind; [apply addVariationEffect_drawsOnly | intros c2].
  apply drawsOnly_ret.
Qed.

(** The promise of [createModifiedImage], by what the load ends with. *)
Lemma createModifiedImage_cases img64 p i w :
  createModifiedImage host this img64 p i w =
    match decode host (loads w) (imageSrc this img64) with
    | Some img =>
        match createModifiedImage_onload host this img p i (afterLoad w) with
        | Returned url w' => Returned url w'
        | _ => NeverSettles
        end
    | None => Thrown {| message := "Failed to load image" |} (afterLoad w)
    end.
Proof.
  unfold createModifiedImage, bind, loadImage, resolveAtEnd, throw, afterLoad.
  destruct (decode host (loads w) (imageSrc this img64)); [|reflexivity].
  match goal with |- context [match ?m with _ => _ end] => destruct m end; reflexivity.
Qed.

(** The promise of [createFallbackModifiedImage]: it is never rejected. *)
Lemma createFallbackModifiedImage_cases img64 i w :
  createFallbackModifiedImage host this img64 i w =
    match decode host (loads w) (imageSrc this img64) with
    | Some img =>
        match createFallbackModifiedImage_onload host img i (afterLoad w) with
        | Returned url w' => Returned url w'
        | _ => NeverSettles
        end
    | None => NeverSettles
    end.
Proof.
  unfold createFallbackModifiedImage, bind, loadImage, resolveAtEnd, afterLoad.
  destruct (decode host (loads w) (imageSrc this img64)); [|reflexivity].
  match goal with |- context [match ?m with _ => _ end] => destruct m end; reflexivity.
Qed.

Lemma ownLoad_widen p img64 i r lo hi lo' hi' :
  lo' <= lo -> hi <= hi' ->
  ownLoad host this p img64 i r lo hi -> ownLoad host this p img64 i r lo' hi'.
Proof.
  intros Hlo Hhi (k & img & wi & wo & Hk & Hd & Hrun).
  exists k, img, wi, wo. split; [lia|]. auto.
Qed.

(** One turn of the loop: an entry tagged [i + 1], made from one or two
    loads, or a promise that never settles; never an exception. *)
Lemma generateVariant_spec p img64 i w :
  match generateVariant host this p img64 i w with
  | Returned r w' =>
      variation r = i + 1 /\ prompt r = p
      /\ S (loads w) <= loads w' <= S (S (loads w))
      /\ ownLoad host this p img64 i r (loads w) (loads w')
  | Thrown _ _ => False
  | NeverSettles => True
  end.
Proof.
  unfold generateVariant, tryCatch, bind.
  rewrite createModifiedImage_cases.
  destruct (decode host (loads w) (imageSrc this img64)) as [img|] eqn:Hd.
  - destruct (createModifiedImage_onload host this img p i (afterLoad w))
      as [url w1| |] eqn:Hrun; try exact I.
    destruct (drawsOnly_Returned _ _ _ _
                (createModifiedImage_onload_drawsOnly img p i) Hrun) as [Hl _].
    cbn. rewrite Hl. cbn.
    split; [reflexivity|]. split; [reflexivity|]. split; [lia|].
    exists (loads w), img, (afterLoad w), w1. split; [lia|]. auto.
  - rewrite createFallbackModifiedImage_cases. cbn [loads afterLoad].
    destruct (decode host (S (loads w)) (imageSrc this img64)) as [img|] eqn:Hd2;
      [|exact I].
    destruct (createFallbackModifiedImage_onload host img i (afterLoad (afterLoad w)))
      as [url w1| |] eqn:Hrun; try exact I.
    destruct (drawsOnly_Returned _ _ _ _
                (createFallbackModifiedImage_onload_drawsOnly img i) Hrun) as [Hl _].
    cbn. rewrite Hl. cbn.
    split; [reflexivity|]. split; [reflexivity|]. split; [lia|].
    exists (S (loads w)), img, (afterLoad (afterLoad w)), w1. split; [lia|]. auto.
Qed.

(** The loop with [n] turns left, from the index [i]. *)
Lemma generateLoop_spec p img64 : forall n i acc w,
  match generateLoop host this n p img64 i acc w with
  | Returned rs w' =>
      exists new,
        rs = acc ++ new
        /\ List.length new = n
        /\ map variation new = seq (i + 1) n
        /\ Forall (fun r => prompt r = p) new
        /\ loads w + n <= loads w' <= loads w + 2 * n
        /\ Forall2 (fun j r => ownLoad host this p img64 j r (loads w) (loads w'))
                   (seq i n) new
  | Thrown _ _ => False
  | NeverSettles =>
      exists j wj, i <= j < i + n
                   /\ generateVariant host this p img64 j wj = NeverSettles
  end.
Proof.
  induction n as [|n IH]; intros i acc w.
  - cbn. exists []. rewrite app_nil_r. repeat split; try constructor; lia.
  - cbn [generateLoop]. unfold bind.
    pose proof (generateVariant_spec p img64 i w) as Hv.
    destruct (generateVariant host this p img64 i w) as [r w1| |] eqn:E.
    + destruct Hv as (Htag & Hp & Hl & Hown).
      specialize (IH (S i) (acc ++ [r]) w1).
      destruct (generateLoop host this n p img64 (S i) (acc ++ [r]) w1)
        as [rs w'| |].
      * destruct IH as (new & -> & Hlen & Htags & Hps & Hls & Howns).
        exists (r :: new). rewrite <- app_assoc.
        split; [reflexivity|]. split; [cbn; lia|].
        split; [cbn; rewrite Htag, Htags; reflexivity|].
        split; [constructor; assumption|]. split; [lia|].
        cbn [seq]. constructor.
        -- eapply ownLoad_widen; [| |exact Hown]; lia.
        -- eapply Forall2_impl; [|exact Howns].
           intros j r' H. eapply ownLoad_widen; [| |exact H]; lia.
      * exact IH.
      * destruct IH as (j & wj & Hj & Hhang). exists j, wj. split; [lia|exact Hhang].
    + exact Hv.
    + exists i, w. split; [lia|exact E].
Qed.

(** The driver never throws. *)
Lemma generateModifiedImages_not_thrown count p img64 w e w' :
  generateModifiedImages host this count p img64 w <> Thrown e w'.
Proof.
  unfold generateModifiedImages. intros E.
  pose proof (generateLoop_spec p img64 (Z.to_nat count) 0 [] w) as H.
  rewrite E in H. exact H.
Qed.

(** A handler that throws leaves the turn of the loop pending. *)
Lemma throwing_handler_never_settles p img64 i w img e w' :
  decode host (loads w) (imageSrc this img64) = Some img ->
  createModifiedImage_onload host this img p i (afterLoad w) = Thrown e w' ->
  generateVariant host this p img64 i w = NeverSettles.
Proof.
  intros Hd Hrun. unfold generateVariant, tryCatch, bind.
  rewrite createModifiedImage_cases, Hd, Hrun. reflexivity.
Qed.

(** [callGeminiAPI], by how the text-analysis call ends. *)
Lemma callGeminiAPI_cases p img64 w :
  callGeminiAPI host this p img64 w =
    match fetch host (analysisBody this p img64) with
    | NetworkFailure reason =>
        Thrown {| message := "Failed to process image: " ++ message reason |} w
    | Response false (inr errorData) =>
        Thrown {| message := "Failed to process image: "
                             ++ orElse (error_message errorData) "Analysis request failed" |} w
    | Response true (inr analysisData) =>
        generateModifiedImages host this (requestedCount this)
          (orElse (candidate_text analysisData) p) img64 w
    | Response _ (inl e) =>
        Thrown {| message := "Failed to process image: " ++ message e |} w
    end.
Proof.
  unfold callGeminiAPI, tryCatch. cbv zeta.
  destruct (fetch host (analysisBody this p img64)) as [reason|[|] [e|body]];
    try reflexivity.
  cbn [negb].
  destruct (generateModifiedImages host this (requestedCount this)
              (orElse (candidate_text body) p) img64 w) as [rs w'|e w'|] eqn:E;
    try reflexivity.
  exfalso. exact (generateModifiedImages_not_thrown _ _ _ _ _ _ E).
Qed.

(** With a decoder that gives every load of a source the same outcome, a
    rejected composer promise is followed by a fallback promise that never
    settles: the fallback loads the same source, and has no [onerror]. *)
Lemma fallback_after_failed_load_never_settles img64 p i w e w1 :
  (forall k k' src, decode host k src = decode host k' src) ->
  createModifiedImage host this img64 p i w = Thrown e w1 ->
  createFallbackModifiedImage host this img64 i w1 = NeverSettles.
Proof.
  intros Hdet Hthrow.
  rewrite createModifiedImage_cases in Hthrow.
  rewrite createFallbackModifiedImage_cases.
  rewrite (Hdet (loads w1) (loads w)).
  destruct (decode host (loads w) (imageSrc this img64)); [|reflexivity].
  destruct (createModifiedImage_onload host this _ p i (afterLoad w));
    discriminate Hthrow.
Qed.

End Driver.

End DriverFacts.

Section DriverClaims.

Import JsString JsNumber Pixels Ctx Composer EffFacts MethodFacts DriverFacts Fixtures.




(** Four variants of the one-pixel image with the prompt [make it red]:
    four entries, tagged 1 to 4, each from a load of its own; the last one
    takes three random numbers for its tint. *)
Example four_variants :
  exists results,
    generateModifiedImages (hostOf (alwaysLoads pixel) (okResponse None) (fun _ => 0.5%float))
                           (editor "make it red" "" "" "4") 4 "make it red" base64 start
      = Returned results {| loads := 4; randoms := 3; ticks := 4 |}
    /\ map variation results = [1; 2; 3; 4]
    /\ map timestamp results
         = [1700000000000; 1700000000002; 1700000000004; 1700000000006]%Z.
Proof.
  eexists. split; [vm_compute; reflexivity|]. split; reflexivity.
Qed.

(** C2, as amended. [callGeminiAPI] is decided by how the text-analysis
    call ends: a rejected [fetch], a response that is not [ok] or a body
    that is not JSON makes it throw [Failed to process image: ...] with no
    variant generated, and [processImageEdit] then shows the error toast;
    only a successful response proceeds to the driver, with the text of
    the response as the enhanced prompt, or the original prompt when the
    response holds no text. *)
Theorem callGeminiAPI_by_analysis_outcome (host : Host) (this : Editor)
  (p : string) (img64 : option string) (w : World) :
  callGeminiAPI host this p img64 w =
    match fetch host (analysisBody this p img64) with
    | NetworkFailure reason =>
        Thrown {| message := "Failed to process image: " ++ message reason |} w
    | Response false (inr errorData) =>
        Thrown {| message := "Failed to process image: "
                             ++ orElse (error_message errorData) "Analysis request failed" |} w
    | Response true (inr analysisData) =>
        generateModifiedImages host this (requestedCount this)
          (orElse (candidate_text analysisData) p) img64 w
    | Response _ (inl e) =>
        Thrown {| message := "Failed to process image: " ++ message e |} w
    end
  /\ ((forall request, analysisFailed (fetch host request) = true) ->
      isProcessing this = false ->
      (exists s, selectedImage this = Some s /\ truthy s = true) ->
      truthy (trim (promptInput this)) = true ->
      processImageEdit host this w
        = Returned (Failed "Failed to edit image. Please try again.") w).
Proof.
  pose proof (callGeminiAPI_cases host this p img64 w) as Hcall.
  split; [exact Hcall|].
  intros Hfail Hidle (s & Himg & Hs) Hprompt.
  unfold processImageEdit. rewrite Hidle, Himg, Hs, Hprompt. cbn [negb orb].
  unfold tryCatch, bind. cbv zeta.
  match goal with
  | |- context [callGeminiAPI host this ?fp ?b64 w] =>
      assert (Hthrown : exists e, callGeminiAPI host this fp b64 w = Thrown e w);
      [| destruct Hthrown as [e ->]; reflexivity]
  end.
  unfold callGeminiAPI, tryCatch. cbv zeta.
  match goal with
  | |- context [fetch host ?req] =>
      specialize (Hfail req); destruct (fetch host req) as [reason|[|] [e|body]]
  end; try discriminate Hfail; cbn; eauto.
Qed.

(** The network is down: the edit ends with the error toast. *)
Lemma callGeminiAPI_by_analysis_outcome_witness :
  processImageEdit
    (hostOf (alwaysLoads pixel) (NetworkFailure {| message := "Failed to fetch" |})
            (fun _ => 0%float))
    (editor "make it red" "" "" "2") start
  = Returned (Failed "Failed to edit image. Please try again.") start.
Proof.
  apply (proj2 (callGeminiAPI_by_analysis_outcome
                  (hostOf (alwaysLoads pixel)
                          (NetworkFailure {| message := "Failed to fetch" |})
                          (fun _ => 0%float))
                  (editor "make it red" "" "" "2") "make it red" base64 start)).
  - intros request. reflexivity.
  - reflexivity.
  - exists "data:image/png;base64,iVBORw0KGgo=". split; reflexivity.
  - reflexivity.
Defined.

(** A network failure of the analysis call, with an image that decodes:
    [callGeminiAPI] throws and the edit fails with no variant. *)
Lemma analysis_failure_fails_the_request :
  callGeminiAPI
    (hostOf (alwaysLoads pixel) (NetworkFailure {| message := "Failed to fetch" |})
            (fun _ => 0%float))
    (editor "make it red" "" "" "2") "make it red" base64 start
  = Thrown {| message := "Failed to process image: Failed to fetch" |} start
  /\ processImageEdit
       (hostOf (alwaysLoads pixel) (NetworkFailure {| message := "Failed to fetch" |})
               (fun _ => 0%float))
       (editor "make it red" "" "" "2") start
     = Returned (Failed "Failed to edit image. Please try again.") start.
Proof. split; vm_compute; reflexivity. Qed.

(** C3, as amended. Every entry the driver returns was made from a
    decode of its own: each composer call and each fallback call starts an
    image load, so [N] variants take at least [N] loads (and at most two
    each), and every image in the list is what an [onload] handler drew on
    a canvas created for that call from the image of one of those loads.
    The handlers read and move nothing of the world but the random cursor:
    what a variant holds does not depend on the variants generated before
    it other than through the random numbers they took. *)
Theorem each_variant_decodes_its_own_copy (host : Host) (this : Editor)
  (count : Z) (p : string) (img64 : option string) (w : World) :
  match generateModifiedImages host this count p img64 w with
  | Returned results w' =>
      loads w + Z.to_nat count <= loads w' <= loads w + 2 * Z.to_nat count
      /\ Forall2 (fun i r => ownLoad host this p img64 i r (loads w) (loads w'))
                 (seq 0 (Z.to_nat count)) results
  | _ => True
  end
  /\ (forall img i l1 t1 l2 t2 r,
        result (createModifiedImage_onload host this img p i
                  {| loads := l1; randoms := r; ticks := t1 |})
        = result (createModifiedImage_onload host this img p i
                    {| loads := l2; randoms := r; ticks := t2 |}))
  /\ (forall img i l1 t1 l2 t2 r,
        result (createFallbackModifiedImage_onload host img i
                  {| loads := l1; randoms := r; ticks := t1 |})
        = result (createFallbackModifiedImage_onload host img i
                    {| loads := l2; randoms := r; ticks := t2 |})).
Proof.
  split; [|split].
  - unfold generateModifiedImages.
    pose proof (generateLoop_spec host this p img64 (Z.to_nat count) 0 [] w) as H.
    destruct (generateLoop host this (Z.to_nat count) p img64 0 [] w) as [rs w'| |];
      try exact I.
    destruct H as (new & -> & _ & _ & _ & Hl & Hown). cbn [app].
    split; [exact Hl | exact Hown].
  - intros. apply drawsOnly_result;
      [apply createModifiedImage_onload_drawsOnly | reflexivity].
  - intros. apply drawsOnly_result;
      [apply createFallbackModifiedImage_onload_drawsOnly | reflexivity].
Qed.

(** Two variants of one request: the image is loaded twice, not once. *)
Lemma two_variants_two_decodes :
  worldAfter
    (generateModifiedImages (hostOf (alwaysLoads pixel) (okResponse None) (fun _ => 0%float))
                            (editor "make it red" "" "" "2") 2 "make it red" base64 start)
  = Some {| loads := 2; randoms := 0; ticks := 2 |}.
Proof. vm_compute. reflexivity. Qed.

(** C7, at its failing input. The image loads with no width and no
    height and the prompt asks for red: [getImageData] throws inside the
    [onload] handler of the composer, the promise of
    [createModifiedImage] is neither fulfilled nor rejected, and the driver
    never returns: no fallback is substituted and no list comes back. *)
Theorem composer_exception_is_not_recovered :
  createModifiedImage_onload
    (hostOf (alwaysLoads emptyImage) (okResponse None) (fun _ => 0%float))
    (editor "make it red" "" "" "1") emptyImage "make it red" 0
    {| loads := 1; randoms := 0; ticks := 0 |}
  = Thrown {| message := "IndexSizeError: The source width or height is 0." |}
           {| loads := 1; randoms := 0; ticks := 0 |}
  /\ createModifiedImage
       (hostOf (alwaysLoads emptyImage) (okResponse None) (fun _ => 0%float))
       (editor "make it red" "" "" "1") base64 "make it red" 0 start
     = NeverSettles
  /\ generateModifiedImages
       (hostOf (alwaysLoads emptyImage) (okResponse None) (fun _ => 0%float))
       (editor "make it red" "" "" "1") 1 "make it red" base64 start
     = NeverSettles
  /\ createFallbackModifiedImage
       (hostOf (alwaysLoads emptyImage) (okResponse None) (fun _ => 0%float))
       (editor "make it red" "" "" "1") base64 0 start
     = Returned "data:image/jpeg," {| loads := 1; randoms := 0; ticks := 0 |}.
Proof. repeat split; vm_compute; reflexivity. Qed.

(** C9, as amended. When the number-of-images field is empty, does not
    parse, or parses as 0, the count is 1 and the request is a request for
    one image.  It is not kept from failing: a failed analysis call makes
    [callGeminiAPI] throw, as for any count.  After a successful analysis
    call, [callGeminiAPI] is one turn of the loop of the driver: it never
    throws; when the image loads and its handler returns, it returns
    exactly one entry, the image the handler made, tagged 1 and stamped
    with the clock; whatever it returns is one entry, never an empty list;
    and it stays pending exactly when that one turn does. *)
Theorem requestedCount_defaults_to_one (host : Host) (this : Editor)
  (p : string) (img64 : option string) (w : World) :
  numberOfImages this = EmptyString
  \/ parseInt (numberOfImages this) = None
  \/ parseInt (numberOfImages this) = Some 0%Z ->
  requestedCount this = 1%Z
  /\ (analysisFailed (fetch host (analysisBody this p img64)) = true ->
      exists e, callGeminiAPI host this p img64 w = Thrown e w)
  /\ (forall body,
        fetch host (analysisBody this p img64) = Response true (inr body) ->
        callGeminiAPI host this p img64 w
        = match generateVariant host this (orElse (candidate_text body) p) img64 0 w with
          | Returned r w' => Returned [r] w'
          | _ => NeverSettles
          end
        /\ (forall img url w1,
              decode host (loads w) (imageSrc this img64) = Some img ->
              createModifiedImage_onload host this img (orElse (candidate_text body) p) 0
                (afterLoad w) = Returned url w1 ->
              callGeminiAPI host this p img64 w
              = Returned [{| imageData := url;
                             prompt := orElse (candidate_text body) p;
                             timestamp := (now host (ticks w1) + 0)%Z;
                             variation := 1 |}]
                         {| loads := loads w1; randoms := randoms w1;
                            ticks := S (ticks w1) |})
        /\ (forall results w',
              callGeminiAPI host this p img64 w = Returned results w' ->
              exists r, results = [r] /\ variation r = 1
                        /\ prompt r = orElse (candidate_text body) p)
        /\ (forall e w', callGeminiAPI host this p img64 w <> Thrown e w')).
Proof.
  intros Hfield.
  assert (Hone : requestedCount this = 1%Z).
  { unfold requestedCount.
    destruct Hfield as [E|[E|E]]; rewrite E; reflexivity. }
  split; [exact Hone|]. split.
  - intros Hf. rewrite (callGeminiAPI_cases host this p img64 w).
    destruct (fetch host (analysisBody this p img64)) as [reason|[|] [e|body]];
      try discriminate Hf; eauto.
  - intros body Hfetch.
    assert (Hturn : callGeminiAPI host this p img64 w
                    = match generateVariant host this (orElse (candidate_text body) p)
                              img64 0 w with
                      | Returned r w' => Returned [r] w'
                      | _ => NeverSettles
                      end).
    { rewrite (callGeminiAPI_cases host this p img64 w), Hfetch, Hone.
      unfold generateModifiedImages. change (Z.to_nat 1) with 1%nat.
      cbn [generateLoop]. unfold bind.
      pose proof (generateVariant_spec host this (orElse (candidate_text body) p)
                    img64 0 w) as Hv.
      destruct (generateVariant host this (orElse (candidate_text body) p) img64 0 w)
        as [r w1| |]; [reflexivity | destruct Hv | reflexivity]. }
    pose proof (generateVariant_spec host this (orElse (candidate_text body) p)
                  img64 0 w) as Hv.
    split; [exact Hturn|]. split; [|split].
    + intros img url w1 Hd Hrun. rewrite Hturn.
      unfold generateVariant, tryCatch, bind.
      rewrite createModifiedImage_cases, Hd, Hrun. reflexivity.
    + intros results w' E. rewrite Hturn in E.
      destruct (generateVariant host this (orElse (candidate_text body) p) img64 0 w)
        as [r w1| |]; try discriminate E.
      injection E as <- _. destruct Hv as (Htag & Hp & _). exists r. auto.
    + intros e w' E. rewrite Hturn in E.
      destruct (generateVariant host this (orElse (candidate_text body) p) img64 0 w);
        discriminate E.
Qed.

(** An empty field: the count is 1 and one entry comes back. *)
Lemma requestedCount_defaults_to_one_witness :
  requestedCount (editor "make it red" "" "" "") = 1%Z
  /\ exists r w',
       callGeminiAPI (hostOf (alwaysLoads pixel) (okResponse None) (fun _ => 0%float))
                     (editor "make it red" "" "" "") "make it red" base64 start
         = Returned [r] w'
       /\ variation r = 1.
Proof.
  destruct (requestedCount_defaults_to_one
              (hostOf (alwaysLoads pixel) (okResponse None) (fun _ => 0%float))
              (editor "make it red" "" "" "") "make it red" base64 start
              (or_introl eq_refl))
    as (Hone & _ & Hok).
  split; [exact Hone|].
  destruct (Hok {| error_message := None; candidate_text := None |} eq_refl)
    as (_ & Htotal & _).
  eexists. eexists.
  split; [apply (Htotal pixel); [reflexivity | vm_compute; reflexivity] | reflexivity].
Defined.

(** With an empty count field a request can still fail, and can still
    stay pending: the analysis call fails, or the image does not load. *)
Lemma empty_count_request_can_fail_or_hang :
  requestedCount (editor "make it red" "" "" "") = 1%Z
  /\ processImageEdit
       (hostOf (alwaysLoads pixel) (NetworkFailure {| message := "Failed to fetch" |})
               (fun _ => 0%float))
       (editor "make it red" "" "" "") start
     = Returned (Failed "Failed to edit image. Please try again.") start
  /\ processImageEdit (hostOf neverLoads (okResponse None) (fun _ => 0%float))
       (editor "make it red" "" "" "") start
     = NeverSettles.
Proof. repeat split; vm_compute; reflexivity. Qed.

End DriverClaims.

(* ================================================================== *)
(** ** Random numbers, success and sizes of the drawing methods *)
(* ================================================================== *)

Module CoverageFacts.

Import JsString JsNumber Pixels Ctx Composer Coverage EffFacts MethodFacts.

(** *** Counting random numbers *)

Lemma takes_ret {A} (a : A) : takes 0 (ret a).
Proof. intros w a' w' E. injection E as _ <-. lia. Qed.

Lemma takes_bind {A B} k1 k2 n (m : Eff A) (k : A -> Eff B) :
  takes k1 m -> (forall a, takes k2 (k a)) -> n = k1 + k2 -> takes n (bind m k).
Proof.
  intros Hm Hk -> w b w' E.
  apply bind_Returned in E. destruct E as (a & w1 & E1 & E2).
  rewrite (Hk a _ _ _ E2), (Hm _ _ _ E1). lia.
Qed.

Lemma takes_draw host cmd c : takes 0 (draw host cmd c).
Proof.
  intros w a w' E. unfold draw in E.
  destruct (rasterize host (state c) cmd (surface c)); [discriminate|].
  injection E as _ <-. lia.
Qed.

Lemma takes_random host : takes 1 (Math_random host).
Proof. intros w a w' E. injection E as _ <-. cbn. lia. Qed.

Lemma takes_getImageData sw sh c : takes 0 (getImageData sw sh c).
Proof.
  intros w a w' E. unfold getImageData in E.
  destruct ((sw =? 0)%nat || (sh =? 0)%nat); [discriminate|].
  injection E as _ <-. lia.
Qed.

Lemma takes_putImageData d c : takes 0 (putImageData d c).
Proof. intros w a w' E. injection E as _ <-. lia. Qed.

Ltac takes_steps host :=
  unfold fillRect, fillText, strokeText, drawImage; cbv zeta;
  repeat first
    [ apply takes_ret
    | apply takes_draw
    | apply takes_getImageData
    | apply takes_putImageData
    | eapply takes_bind;
      [ first [ apply takes_draw | apply takes_getImageData
              | apply (takes_random host) ]
      | | reflexivity ]; intro ].

(** *** Completion on a canvas of a given size *)

Lemma completesAt_ret wd ht c : sized wd ht c -> completesAt wd ht (ret c).
Proof. intros Hc w. exists c, w. split; [reflexivity | exact Hc]. Qed.

Lemma completesAt_bind wd ht (m : Eff Canvas) (k : Canvas -> Eff Canvas) :
  completesAt wd ht m -> (forall c, sized wd ht c -> completesAt wd ht (k c)) ->
  completesAt wd ht (bind m k).
Proof.
  intros Hm Hk w. destruct (Hm w) as (c & w1 & E & Hc). unfold bind. rewrite E.
  apply Hk, Hc.
Qed.

Lemma completesAt_random host wd ht (k : float -> Eff Canvas) :
  (forall r, completesAt wd ht (k r)) -> completesAt wd ht (bind (Math_random host) k).
Proof. intros Hk w. unfold bind, Math_random. apply Hk. Qed.

Lemma completesAt_draw host wd ht cmd c :
  rasterCompletesAt host wd ht -> sized wd ht c ->
  (forall source dx dy, cmd = DrawImage source dx dy ->
                        width source = wd /\ height source = ht) ->
  completesAt wd ht (draw host cmd c).
Proof.
  intros Hr [Hw Hh] Hcmd w. unfold draw.
  destruct (Hr (state c) cmd (surface c) Hw Hh Hcmd) as [d ->].
  eexists. eexists. split; [reflexivity|]. split; assumption.
Qed.

(** The setters of the drawing state leave the size as it is. *)
Ltac sized_tac :=
  unfold sized in *;
  cbn [surface width height set_globalCompositeOperation set_globalAlpha set_fillStyle
       set_strokeStyle set_lineWidth set_font set_textAlign set_shadowColor
       set_shadowBlur] in *;
  intuition congruence.

Ltac source_tac :=
  let E := fresh "E" in
  intros ? ? ? E; first [discriminate E | injection E as <- _ _; sized_tac].

(** *** The same result under two random sources *)

Lemma sameResult_ret {A} (a : A) : sameResult (ret a) (ret a).
Proof. intros w1 w2. reflexivity. Qed.

Lemma sameResult_bind {A B} (m1 m2 : Eff A) (k1 k2 : A -> Eff B) :
  sameResult m1 m2 -> (forall a, sameResult (k1 a) (k2 a)) ->
  sameResult (bind m1 k1) (bind m2 k2).
Proof.
  intros Hm Hk w1 w2. unfold bind. specialize (Hm w1 w2).
  destruct (m1 w1) as [a wa|e wa|], (m2 w2) as [b wb|e' wb|];
    cbn in Hm; try discriminate Hm; try reflexivity.
  - injection Hm as <-. apply Hk.
  - injection Hm as <-. reflexivity.
Qed.

Lemma sameResult_draw h r1 r2 cmd c :
  sameResult (draw (withRandom h r1) cmd c) (draw (withRandom h r2) cmd c).
Proof.
  intros w1 w2. unfold draw. cbn [rasterize withRandom].
  destruct (rasterize h (state c) cmd (surface c)); reflexivity.
Qed.

Lemma sameResult_getImageData sw sh c :
  sameResult (getImageData sw sh c) (getImageData sw sh c).
Proof.
  intros w1 w2. unfold getImageData.
  destruct ((sw =? 0)%nat || (sh =? 0)%nat); reflexivity.
Qed.

Lemma sameResult_putImageData d c :
  sameResult (putImageData d c) (putImageData d c).
Proof. intros w1 w2. reflexivity. Qed.

Ltac same_steps :=
  unfold fillRect, fillText, strokeText, drawImage; cbv zeta;
  repeat first
    [ apply sameResult_ret
    | apply sameResult_draw
    | apply sameResult_getImageData
    | apply sameResult_putImageData
    | apply sameResult_bind; [|intro] ].

Section Methods.

Variable host : Host.
Variable this : Editor.

(** *** Random numbers of each method *)

Lemma applyColorEffect_takes cw ch v ctx : takes 0 (applyColorEffect cw ch v ctx).
Proof. unfold applyColorEffect. takes_steps host. Qed.

Lemma applyBrightnessEffect_takes cw ch v ctx :
  takes 0 (applyBrightnessEffect host cw ch v ctx).
Proof. unfold applyBrightnessEffect. takes_steps host. Qed.

Lemma applyDarknessEffect_takes cw ch v ctx :
  takes 0 (applyDarknessEffect host cw ch v ctx).
Proof. unfold applyDarknessEffect. takes_steps host. Qed.

Lemma blurPass_takes i ctx : takes 0 (blurPass host i ctx).
Proof. unfold blurPass. takes_steps host. Qed.

Lemma applyBlurEffect_takes cw ch ctx : takes 0 (applyBlurEffect host cw ch ctx).
Proof.
  unfold applyBlurEffect. cbv zeta.
  repeat (eapply takes_bind; [apply blurPass_takes | | reflexivity]; intro).
  apply takes_ret.
Qed.

Lemma metallicShadow_takes t x y : forall i ctx,
  takes 0 (metallicShadow host i t x y ctx).
Proof.
  induction i as [|i IH]; intros ctx; cbn [metallicShadow]; takes_steps host.
  apply IH.
Qed.

Lemma matrixNoise_takes x y fs : forall n ctx,
  takes (n * 2) (matrixNoise host n x y fs ctx).
Proof.
  induction n as [|n IH]; intros ctx; cbn [matrixNoise Nat.mul Nat.add].
  - apply takes_ret.
  - takes_steps host. apply IH.
Qed.

Lemma addTextOverlay_takes cw ch t v ctx :
  takes (if String.eqb (textStyle this) "3D metallic" then 0
         else if String.eqb (textStyle this) "balloon" then 1
         else if String.eqb (textStyle this) "Matrix" then 40
         else 0)
        (addTextOverlay host cw ch t (textStyle this) v ctx).
Proof.
  unfold addTextOverlay. cbv zeta.
  destruct (String.eqb (textStyle this) "3D metallic");
    [|destruct (String.eqb (textStyle this) "balloon");
      [|destruct (String.eqb (textStyle this) "Matrix")]].
  - unfold draw3DMetallicText. cbv zeta.
    eapply takes_bind; [apply metallicShadow_takes | | reflexivity]. intro.
    takes_steps host.
  - unfold drawBalloonText. takes_steps host.
  - unfold drawMatrixText. cbv zeta. unfold fillText.
    eapply takes_bind; [apply takes_draw | | reflexivity]. intro.
    apply (matrixNoise_takes _ _ _ 20).
  - unfold drawSimpleText. takes_steps host.
Qed.

Lemma addVariationEffect_takes cw ch v ctx :
  takes (effectDraws v) (addVariationEffect host cw ch v ctx).
Proof.
  destruct v as [|[|[|v]]]; cbn [addVariationEffect effectDraws]; takes_steps host.
Qed.

Lemma applyImageModifications_takes p v ctx :
  takes (textDraws this + effectDraws v) (applyImageModifications host this p v ctx).
Proof.
  unfold applyImageModifications, textDraws. cbv zeta.
  eapply (takes_bind 0);
    [destruct (_ || _); [apply applyColorEffect_takes | apply takes_ret]
    | | reflexivity]; intro.
  eapply (takes_bind 0);
    [destruct (_ || _); [apply applyBrightnessEffect_takes | apply takes_ret]
    | | reflexivity]; intro.
  eapply (takes_bind 0);
    [destruct (_ || _); [apply applyDarknessEffect_takes | apply takes_ret]
    | | reflexivity]; intro.
  eapply (takes_bind 0);
    [destruct (_ || _); [apply applyBlurEffect_takes | apply takes_ret]
    | | reflexivity]; intro.
  eapply takes_bind; [| intro; apply addVariationEffect_takes | reflexivity].
  destruct (truthy (trim (youtubeTitle this)));
    [apply addTextOverlay_takes | apply takes_ret].
Qed.

(** *** Completion of each method that reads no pixel *)

Variable wd ht : nat.
Hypothesis raster : rasterCompletesAt host wd ht.

Ltac completes_steps :=
  unfold fillRect, fillText, strokeText, drawImage; cbv zeta;
  repeat first
    [ apply completesAt_ret; sized_tac
    | apply (completesAt_random host); intro
    | apply completesAt_bind;
      [ apply (completesAt_draw host wd ht _ _ raster); [sized_tac | source_tac]
      | intros ? ? ]
    | apply (completesAt_draw host wd ht _ _ raster); [sized_tac | source_tac] ].

Lemma applyBrightnessEffect_completes cw ch v ctx :
  sized wd ht ctx -> completesAt wd ht (applyBrightnessEffect host cw ch v ctx).
Proof. intros Hc. unfold applyBrightnessEffect. completes_steps. Qed.

Lemma applyDarknessEffect_completes cw ch v ctx :
  sized wd ht ctx -> completesAt wd ht (applyDarknessEffect host cw ch v ctx).
Proof. intros Hc. unfold applyDarknessEffect. completes_steps. Qed.

Lemma blurPass_completes i ctx :
  sized wd ht ctx -> completesAt wd ht (blurPass host i ctx).
Proof. intros Hc. unfold blurPass. completes_steps. Qed.

Lemma applyBlurEffect_completes cw ch ctx :
  sized wd ht ctx -> completesAt wd ht (applyBlurEffect host cw ch ctx).
Proof.
  intros Hc. unfold applyBlurEffect. cbv zeta.
  apply completesAt_bind; [apply blurPass_completes; sized_tac | intros c1 H1].
  apply completesAt_bind; [apply blurPass_completes, H1 | intros c2 H2].
  apply completesAt_bind; [apply blurPass_completes, H2 | intros c3 H3].
  apply completesAt_ret. sized_tac.
Qed.

Lemma metallicShadow_completes t x y : forall i ctx,
  sized wd ht ctx -> completesAt wd ht (metallicShadow host i t x y ctx).
Proof.
  induction i as [|i IH]; intros ctx Hc; cbn [metallicShadow].
  - apply completesAt_ret, Hc.
  - unfold fillText. cbv zeta.
    apply completesAt_bind;
      [apply (completesAt_draw host wd ht _ _ raster); [sized_tac | source_tac]
      | intros c1 H1; apply IH, H1].
Qed.

Lemma matrixNoise_completes x y fs : forall n ctx,
  sized wd ht ctx -> completesAt wd ht (matrixNoise host n x y fs ctx).
Proof.
  induction n as [|n IH]; intros ctx Hc; cbn [matrixNoise].
  - apply completesAt_ret, Hc.
  - apply (completesAt_random host). intros r1. cbv zeta.
    apply (completesAt_random host). intros r2. cbv zeta.
    unfold fillRect.
    apply completesAt_bind;
      [apply (completesAt_draw host wd ht _ _ raster); [sized_tac | source_tac]
      | intros c1 H1; apply IH, H1].
Qed.

Lemma addTextOverlay_completes cw ch t style v ctx :
  sized wd ht ctx -> completesAt wd ht (addTextOverlay host cw ch t style v ctx).
Proof.
  intros Hc. unfold addTextOverlay. cbv zeta.
  destruct (String.eqb style "3D metallic").
  { unfold draw3DMetallicText. cbv zeta.
    apply completesAt_bind; [apply metallicShadow_completes; sized_tac | intros c1 H1].
    completes_steps. }
  destruct (String.eqb style "balloon").
  { unfold drawBalloonText. cbv zeta. unfold fillText at 1.
    apply completesAt_bind;
      [apply (completesAt_draw host wd ht _ _ raster); [sized_tac | source_tac]
      | intros c1 H1].
    apply (completesAt_random host). intros r. cbv zeta.
    destruct (balloonColor r); completes_steps. }
  destruct (String.eqb style "Matrix").
  { unfold drawMatrixText. cbv zeta. unfold fillText.
    apply completesAt_bind;
      [apply (completesAt_draw host wd ht _ _ raster); [sized_tac | source_tac]
      | intros c1 H1].
    apply matrixNoise_completes. sized_tac. }
  unfold drawSimpleText. completes_steps.
Qed.

(** The default effect of every index but 2, the sepia tone. *)
Lemma addVariationEffect_completes cw ch v ctx :
  v <> 2 -> sized wd ht ctx -> completesAt wd ht (addVariationEffect host cw ch v ctx).
Proof.
  intros Hv Hc. destruct v as [|[|[|v]]]; [| |congruence|];
    cbn [addVariationEffect]; completes_steps.
Qed.

(** A composition in which the tint does not fire, for an index other
    than 2: no step reads the pixels. *)
Lemma applyImageModifications_completes p v ctx :
  fires this p ColorTint = false -> v <> 2 -> sized wd ht ctx ->
  completesAt wd ht (applyImageModifications host this p v ctx).
Proof.
  intros Htint Hv Hc. rewrite fires_ColorTint in Htint.
  unfold applyImageModifications. cbv zeta. rewrite Htint.
  apply completesAt_bind; [apply completesAt_ret, Hc | intros c1 H1].
  apply completesAt_bind;
    [destruct (mentions p "bright" || mentions p "light");
     [apply applyBrightnessEffect_completes, H1 | apply completesAt_ret, H1]
    | intros c2 H2].
  apply completesAt_bind;
    [destruct (mentions p "dark" || mentions p "shadow");
     [apply applyDarknessEffect_completes, H2 | apply completesAt_ret, H2]
    | intros c3 H3].
  apply completesAt_bind;
    [destruct (mentions p "blur" || mentions p "soft");
     [apply applyBlurEffect_completes, H3 | apply completesAt_ret, H3]
    | intros c4 H4].
  apply completesAt_bind;
    [destruct (truthy (trim (youtubeTitle this)));
     [apply addTextOverlay_completes, H4 | apply completesAt_ret, H4]
    | intros c5 H5].
  apply addVariationEffect_completes; assumption.
Qed.

End Methods.

End CoverageFacts.

(* ================================================================== *)
(** ** Sizes, outcomes and reproducibility of a whole composition *)
(* ================================================================== *)

Module CompositionFacts.

Import JsString JsNumber Pixels Ctx Composer Coverage EffFacts MethodFacts
  CoverageFacts DriverFacts.

(** *** The size of the canvas *)

Ltac size_steps host :=
  unfold keepsSize, fillRect, fillText, strokeText, drawImage, putImageData; cbv zeta;
  repeat first
    [ eapply post_bind; [apply post_draw | intros ? (_ & ? & ?)]
    | eapply post_bind; [apply (post_any (Math_random host)) | intros ? _]
    | eapply post_bind; [apply (post_any (getImageData _ _ _)) | intros ? _]
    | apply post_ret
    | eapply post_weaken; [apply post_draw | intros ? (_ & ? & ?)] ].

Ltac size_chain :=
  cbn [surface width height set_globalCompositeOperation set_globalAlpha set_fillStyle
       set_strokeStyle set_lineWidth set_font set_textAlign set_shadowColor
       set_shadowBlur] in *;
  split; congruence.

Section Sizes.

Variable host : Host.
Variable this : Editor.

Lemma applyColorEffect_size cw ch v ctx : keepsSize ctx (applyColorEffect cw ch v ctx).
Proof. unfold applyColorEffect. size_steps host. size_chain. Qed.

Lemma applyBrightnessEffect_size cw ch v ctx :
  keepsSize ctx (applyBrightnessEffect host cw ch v ctx).
Proof. unfold applyBrightnessEffect. size_steps host. size_chain. Qed.

Lemma applyDarknessEffect_size cw ch v ctx :
  keepsSize ctx (applyDarknessEffect host cw ch v ctx).
Proof. unfold applyDarknessEffect. size_steps host. size_chain. Qed.

Lemma blurPass_size i ctx : keepsSize ctx (blurPass host i ctx).
Proof. unfold blurPass. size_steps host. size_chain. Qed.

Lemma applyBlurEffect_size cw ch ctx : keepsSize ctx (applyBlurEffect host cw ch ctx).
Proof.
  unfold applyBlurEffect, keepsSize. cbv zeta.
  eapply post_bind; [apply blurPass_size | intros c1 (? & ?)].
  eapply post_bind; [apply blurPass_size | intros c2 (? & ?)].
  eapply post_bind; [apply blurPass_size | intros c3 (? & ?)].
  apply post_ret. size_chain.
Qed.

Lemma metallicShadow_size t x y : forall i ctx,
  keepsSize ctx (metallicShadow host i t x y ctx).
Proof.
  induction i as [|i IH]; intros ctx; cbn [metallicShadow].
  - apply post_ret. split; reflexivity.
  - cbv zeta. unfold fillText, keepsSize.
    eapply post_bind; [apply post_draw | intros c1 (_ & ? & ?)].
    eapply post_weaken; [apply IH|]. intros c' (? & ?). size_chain.
Qed.

Lemma matrixNoise_size x y fs : forall n ctx,
  keepsSize ctx (matrixNoise host n x y fs ctx).
Proof.
  induction n as [|n IH]; intros ctx; cbn [matrixNoise].
  - apply post_ret. split; reflexivity.
  - cbv zeta. unfold fillRect, keepsSize.
    eapply post_bind; [apply (post_any (Math_random host)) | intros r1 _].
    eapply post_bind; [apply (post_any (Math_random host)) | intros r2 _].
    eapply post_bind; [apply post_draw | intros c1 (_ & ? & ?)].
    eapply post_weaken; [apply IH|]. intros c' (? & ?). size_chain.
Qed.

Lemma addTextOverlay_size cw ch t style v ctx :
  keepsSize ctx (addTextOverlay host cw ch t style v ctx).
Proof.
  unfold addTextOverlay. cbv zeta.
  destruct (String.eqb style "3D metallic");
    [|destruct (String.eqb style "balloon"); [|destruct (String.eqb style "Matrix")]].
  - unfold draw3DMetallicText, keepsSize. cbv zeta.
    eapply post_bind; [apply metallicShadow_size | intros c0 (? & ?)].
    size_steps host. size_chain.
  - unfold drawBalloonText. size_steps host.
    match goal with
    | H : context [balloonColor ?r] |- _ => destruct (balloonColor r)
    end; size_chain.
  - unfold drawMatrixText, keepsSize. cbv zeta. unfold fillText.
    eapply post_bind; [apply post_draw | intros c1 (_ & ? & ?)].
    eapply post_weaken; [apply matrixNoise_size|]. intros c' (? & ?). size_chain.
  - unfold drawSimpleText. size_steps host. size_chain.
Qed.

Lemma addVariationEffect_size cw ch v ctx :
  keepsSize ctx (addVariationEffect host cw ch v ctx).
Proof.
  destruct v as [|[|[|v]]]; cbn [addVariationEffect]; size_steps host; size_chain.
Qed.

Lemma applyImageModifications_size p v ctx :
  keepsSize ctx (applyImageModifications host this p v ctx).
Proof.
  unfold applyImageModifications, keepsSize. cbv zeta.
  eapply post_bind;
    [destruct (_ || _); [apply applyColorEffect_size | apply post_ret; split; reflexivity]
    | intros c1 (? & ?)].
  eapply post_bind;
    [destruct (_ || _);
     [apply applyBrightnessEffect_size | apply post_ret; split; reflexivity]
    | intros c2 (? & ?)].
  eapply post_bind;
    [destruct (_ || _);
     [apply applyDarknessEffect_size | apply post_ret; split; reflexivity]
    | intros c3 (? & ?)].
  eapply post_bind;
    [destruct (_ || _); [apply applyBlurEffect_size | apply post_ret; split; reflexivity]
    | intros c4 (? & ?)].
  eapply post_bind;
    [destruct (truthy _); [apply addTextOverlay_size | apply post_ret; split; reflexivity]
    | intros c5 (? & ?)].
  eapply post_weaken; [apply addVariationEffect_size|].
  intros c' (? & ?). split; congruence.
Qed.

(** What the composer's handler resolves with: the encoding, as JPEG of
    quality 0.9, of a surface of the size of the image. *)
Lemma createModifiedImage_onload_url img p i w url w' :
  createModifiedImage_onload host this img p i w = Returned url w' ->
  exists s, url = toDataURL host s "image/jpeg" 0.9%float
            /\ width s = width img /\ height s = height img.
Proof.
  unfold createModifiedImage_onload. cbv zeta. intros E.
  apply bind_Returned in E. destruct E as (c1 & w1 & E1 & E).
  apply bind_Returned in E. destruct E as (c2 & w2 & E2 & E).
  injection E as <- _.
  apply post_draw in E1. destruct E1 as (_ & Hw1 & Hh1).
  apply applyImageModifications_size in E2. destruct E2 as (Hw2 & Hh2).
  exists (surface c2). split; [reflexivity|].
  cbn in Hw1, Hh1. split; congruence.
Qed.

Lemma createFallbackModifiedImage_onload_url img i w url w' :
  createFallbackModifiedImage_onload host img i w = Returned url w' ->
  exists s, url = toDataURL host s "image/jpeg" 0.9%float
            /\ width s = width img /\ height s = height img.
Proof.
  unfold createFallbackModifiedImage_onload. cbv zeta. intros E.
  apply bind_Returned in E. destruct E as (c1 & w1 & E1 & E).
  apply bind_Returned in E. destruct E as (c2 & w2 & E2 & E).
  injection E as <- _.
  apply post_draw in E1. destruct E1 as (_ & Hw1 & Hh1).
  apply addVariationEffect_size in E2. destruct E2 as (Hw2 & Hh2).
  exists (surface c2). split; [reflexivity|].
  cbn in Hw1, Hh1. split; congruence.
Qed.

End Sizes.

End CompositionFacts.

(* ================================================================== *)
(** ** When a composition throws, and when the driver returns *)
(* ================================================================== *)

Module OutcomeFacts.

Import JsString JsNumber Pixels Ctx Composer Coverage EffFacts MethodFacts
  CoverageFacts CompositionFacts DriverFacts.

Section Outcomes.

Variable host : Host.
Variable this : Editor.

Lemma getImageData_zero cw ch ctx w :
  ((cw =? 0) || (ch =? 0))%nat = true ->
  getImageData cw ch ctx w = Thrown indexSizeError w.
Proof. intros H. unfold getImageData. rewrite H. reflexivity. Qed.

(** The first call of a handler: the image drawn on the new canvas. *)
Lemma drawn_image img w d :
  rasterize host defaultState (DrawImage img 0 0)
            (surface (createCanvas (width img) (height img))) = inr d ->
  drawImage host img 0 0 (createCanvas (width img) (height img)) w
  = Returned {| state := defaultState;
                surface := {| width := width img; height := height img; data := d |} |}
             w.
Proof. intros H. unfold drawImage, draw. cbn [state createCanvas]. rewrite H. reflexivity. Qed.

(** On an image with a zero side whose drawing completes, the handler
    of the composer throws when the tint fires. *)
Lemma tint_of_zero_sided_image_throws img p i w d :
  zeroSide img = true ->
  rasterize host defaultState (DrawImage img 0 0)
            (surface (createCanvas (width img) (height img))) = inr d ->
  fires this p ColorTint = true ->
  createModifiedImage_onload host this img p i w = Thrown indexSizeError w.
Proof.
  intros Hz Hd Htint. rewrite fires_ColorTint in Htint.
  unfold createModifiedImage_onload. cbv zeta. unfold bind at 1.
  rewrite (drawn_image img w d Hd).
  unfold applyImageModifications. cbv zeta. rewrite Htint.
  unfold applyColorEffect, bind. cbn [surface width height].
  rewrite getImageData_zero by exact Hz. reflexivity.
Qed.

(** And the handler of the fallback throws for the index 2. *)
Lemma sepia_of_zero_sided_image_throws img w d :
  zeroSide img = true ->
  rasterize host defaultState (DrawImage img 0 0)
            (surface (createCanvas (width img) (height img))) = inr d ->
  createFallbackModifiedImage_onload host img 2 w = Thrown indexSizeError w.
Proof.
  intros Hz Hd.
  unfold createFallbackModifiedImage_onload. cbv zeta. unfold bind at 1.
  rewrite (drawn_image img w d Hd).
  cbn [addVariationEffect surface width height]. unfold bind.
  rewrite getImageData_zero by exact Hz. reflexivity.
Qed.

(** The handler of the composer returns when drawing at the size of the
    image completes and no step reads the pixels. *)
Lemma createModifiedImage_onload_returns img p i w :
  rasterCompletesAt host (width img) (height img) ->
  fires this p ColorTint = false -> i <> 2 ->
  exists url w', createModifiedImage_onload host this img p i w = Returned url w'.
Proof.
  intros raster Htint Hi.
  unfold createModifiedImage_onload. cbv zeta.
  assert (C : completesAt (width img) (height img)
                (bind (drawImage host img 0 0 (createCanvas (width img) (height img)))
                      (applyImageModifications host this p i))).
  { apply completesAt_bind.
    - apply (completesAt_draw host _ _ _ _ raster); [split; reflexivity|].
      intros source dx dy E. injection E as <- _ _. split; reflexivity.
    - intros c Hc. apply applyImageModifications_completes; assumption. }
  destruct (C w) as (c' & w' & E & _).
  unfold bind in E |- *.
  destruct (drawImage host img 0 0 (createCanvas (width img) (height img)) w)
    as [c1 w1| |]; try discriminate E.
  rewrite E. unfold ret. eauto.
Qed.

(** With images that load and are drawn, and a prompt that does not
    fire the tint, a turn of the loop for an index other than 2 returns
    after one load. *)
Lemma generateVariant_returns p img64 i w :
  (forall k, exists img,
      decode host k (imageSrc this img64) = Some img
      /\ rasterCompletesAt host (width img) (height img)) ->
  fires this p ColorTint = false -> i <> 2 ->
  exists r w', generateVariant host this p img64 i w = Returned r w'
               /\ loads w' = S (loads w).
Proof.
  intros Hload Htint Hi. destruct (Hload (loads w)) as (img & Hd & raster).
  unfold generateVariant, tryCatch, bind.
  rewrite createModifiedImage_cases, Hd.
  destruct (createModifiedImage_onload_returns img p i (afterLoad w) raster Htint Hi)
    as (url & w1 & E).
  rewrite E.
  destruct (drawsOnly_Returned _ _ _ _
              (createModifiedImage_onload_drawsOnly host this img p i) E) as [Hl _].
  cbn. eexists. eexists. split; [reflexivity|]. cbn. rewrite Hl. reflexivity.
Qed.

Lemma generateLoop_returns p img64 :
  (forall k, exists img,
      decode host k (imageSrc this img64) = Some img
      /\ rasterCompletesAt host (width img) (height img)) ->
  fires this p ColorTint = false ->
  forall n i acc w, i + n <= 2 ->
  exists rs w', generateLoop host this n p img64 i acc w = Returned rs w'
                /\ loads w' = loads w + n.
Proof.
  intros Hload Htint. induction n as [|n IH]; intros i acc w Hi.
  - cbn. unfold ret. exists acc, w. split; [reflexivity | lia].
  - cbn [generateLoop]. unfold bind.
    destruct (generateVariant_returns p img64 i w Hload Htint ltac:(lia))
      as (r & w1 & -> & Hl).
    destruct (IH (S i) (acc ++ [r]) w1 ltac:(lia)) as (rs & w' & E & Hl').
    exists rs, w'. split; [exact E | lia].
Qed.

End Outcomes.

(** *** The same composition under two random sources *)

Section Reproducible.

Variable h : Host.
Variable r1 r2 : nat -> float.
Variable this : Editor.

Lemma applyColorEffect_same cw ch v ctx :
  sameResult (applyColorEffect cw ch v ctx) (applyColorEffect cw ch v ctx).
Proof. unfold applyColorEffect. same_steps. Qed.

Lemma applyBrightnessEffect_same cw ch v ctx :
  sameResult (applyBrightnessEffect (withRandom h r1) cw ch v ctx)
             (applyBrightnessEffect (withRandom h r2) cw ch v ctx).
Proof. unfold applyBrightnessEffect. same_steps. Qed.

Lemma applyDarknessEffect_same cw ch v ctx :
  sameResult (applyDarknessEffect (withRandom h r1) cw ch v ctx)
             (applyDarknessEffect (withRandom h r2) cw ch v ctx).
Proof. unfold applyDarknessEffect. same_steps. Qed.

Lemma applyBlurEffect_same cw ch ctx :
  sameResult (applyBlurEffect (withRandom h r1) cw ch ctx)
             (applyBlurEffect (withRandom h r2) cw ch ctx).
Proof. unfold applyBlurEffect, blurPass. same_steps. Qed.

Lemma metallicShadow_same t x y : forall i ctx,
  sameResult (metallicShadow (withRandom h r1) i t x y ctx)
             (metallicShadow (withRandom h r2) i t x y ctx).
Proof.
  induction i as [|i IH]; intros ctx; cbn [metallicShadow]; same_steps. apply IH.
Qed.

Lemma draw3DMetallicText_same t x y fs ctx :
  sameResult (draw3DMetallicText (withRandom h r1) t x y fs ctx)
             (draw3DMetallicText (withRandom h r2) t x y fs ctx).
Proof.
  unfold draw3DMetallicText. cbv zeta.
  apply sameResult_bind; [apply metallicShadow_same | intro]. same_steps.
Qed.

Lemma drawSimpleText_same t x y fs v ctx :
  sameResult (drawSimpleText (withRandom h r1) t x y fs v ctx)
             (drawSimpleText (withRandom h r2) t x y fs v ctx).
Proof. unfold drawSimpleText. same_steps. Qed.

Lemma addVariationEffect_same cw ch v ctx :
  effectDraws v = 0 ->
  sameResult (addVariationEffect (withRandom h r1) cw ch v ctx)
             (addVariationEffect (withRandom h r2) cw ch v ctx).
Proof.
  intros Hv. destruct v as [|[|[|v]]]; [| | |discriminate Hv];
    cbn [addVariationEffect]; same_steps.
Qed.

Lemma applyImageModifications_same p v ctx :
  textDraws this + effectDraws v = 0 ->
  sameResult (applyImageModifications (withRandom h r1) this p v ctx)
             (applyImageModifications (withRandom h r2) this p v ctx).
Proof.
  intros Hzero.
  assert (Ht : textDraws this = 0) by lia.
  assert (He : effectDraws v = 0) by lia.
  unfold applyImageModifications. cbv zeta.
  apply sameResult_bind;
    [destruct (_ || _); [apply applyColorEffect_same | apply sameResult_ret] | intro].
  apply sameResult_bind;
    [destruct (_ || _); [apply applyBrightnessEffect_same | apply sameResult_ret] | intro].
  apply sameResult_bind;
    [destruct (_ || _); [apply applyDarknessEffect_same | apply sameResult_ret] | intro].
  apply sameResult_bind;
    [destruct (_ || _); [apply applyBlurEffect_same | apply sameResult_ret] | intro].
  apply sameResult_bind; [| intro; apply addVariationEffect_same, He].
  unfold textDraws in Ht.
  destruct (truthy (trim (youtubeTitle this))); [|apply sameResult_ret].
  unfold addTextOverlay. cbv zeta.
  destruct (String.eqb (textStyle this) "3D metallic");
    [apply draw3DMetallicText_same|].
  destruct (String.eqb (textStyle this) "balloon"); [discriminate Ht|].
  destruct (String.eqb (textStyle this) "Matrix"); [discriminate Ht|].
  apply drawSimpleText_same.
Qed.

Lemma createModifiedImage_onload_same img p v :
  textDraws this + effectDraws v = 0 ->
  sameResult (createModifiedImage_onload (withRandom h r1) this img p v)
             (createModifiedImage_onload (withRandom h r2) this img p v).
Proof.
  intros Hzero. unfold createModifiedImage_onload. cbv zeta. unfold drawImage.
  apply sameResult_bind; [apply sameResult_draw | intro].
  apply sameResult_bind; [apply applyImageModifications_same, Hzero | intro].
  apply sameResult_ret.
Qed.

End Reproducible.

End OutcomeFacts.

(* ================================================================== *)
(** ** The request, the key and the results grid *)
(* ================================================================== *)

Module PageFacts.

Import JsString JsNumber Ctx Composer Page Coverage EffFacts DriverFacts.

Section Request.

Variable host : Host.
Variable this : Editor.

(** [processImageEdit], by its guard and by how [callGeminiAPI] ends. *)
Lemma processImageEdit_cases w :
  processImageEdit host this w =
    if ignoresClick this then Returned Ignored w
    else match callGeminiAPI host this (fullPromptOf this) (imageBase64Of this) w with
         | Returned results w' =>
             Returned (Displayed results
                         ("Successfully generated " ++ printNat (List.length results)
                            ++ " image(s)!")%string) w'
         | Thrown _ w' => Returned (Failed "Failed to edit image. Please try again.") w'
         | NeverSettles => NeverSettles
         end.
Proof.
  unfold processImageEdit. fold (ignoresClick this).
  destruct (ignoresClick this); [reflexivity|].
  unfold tryCatch, bind. cbv zeta. fold (fullPromptOf this). fold (imageBase64Of this).
  destruct (callGeminiAPI host this (fullPromptOf this) (imageBase64Of this) w);
    reflexivity.
Qed.

(** A failed analysis call: [callGeminiAPI] throws where it stands. *)
Lemma failed_analysis_throws p img64 w :
  analysisFailed (fetch host (analysisBody this p img64)) = true ->
  exists e, callGeminiAPI host this p img64 w = Thrown e w.
Proof.
  intros Hf. rewrite callGeminiAPI_cases.
  destruct (fetch host (analysisBody this p img64)) as [reason|[|] [e|body]];
    try discriminate Hf; eauto.
Qed.

(** A successful one: [callGeminiAPI] is the driver on the enhanced
    prompt. *)
Lemma passed_analysis_generates p img64 w :
  analysisFailed (fetch host (analysisBody this p img64)) = false ->
  exists enhanced,
    callGeminiAPI host this p img64 w
    = generateModifiedImages host this (requestedCount this) enhanced img64 w.
Proof.
  intros Hf. rewrite callGeminiAPI_cases.
  destruct (fetch host (analysisBody this p img64)) as [reason|[|] [e|body]];
    try discriminate Hf; eauto.
Qed.

End Request.

(** *** The key *)

Section Key.

Lemma startsWith_truthy s t :
  truthy t = true -> startsWith s t = true -> truthy s = true.
Proof.
  destruct t; [discriminate|]. intros _ H.
  destruct s; [cbn in H; discriminate H | reflexivity].
Qed.

(** A key that passes both tests is stored. *)
Lemma saveApiKey_accepted c :
  startsWith (trim (apiKeyInput c)) "AIza" = true ->
  (30 <=? String.length (trim (apiKeyInput c)))%nat = true ->
  saveApiKey c =
    {| cfg_apiKey := Some (trim (apiKeyInput c));
       apiKeyInput := apiKeyInput c;
       localStorage := setItem (localStorage c) "gemini_api_key" (trim (apiKeyInput c));
       apiStatus := Some {| status_message := "API key saved and validated successfully!";
                            status_type := "success" |};
       mainAppShown := true;
       loadingOverlay := false;
       errorToast := errorToast c;
       successToast := Some "API key configured successfully!" |}.
Proof.
  intros Hs Hl. unfold saveApiKey, testApiKey. cbv zeta.
  rewrite (startsWith_truthy _ "AIza" eq_refl Hs), Hs, Nat.ltb_antisym, Hl.
  reflexivity.
Qed.

(** Any other key leaves the key, the storage and the page as they are,
    and shows an error in the status line. *)
Lemma saveApiKey_rejected c :
  startsWith (trim (apiKeyInput c)) "AIza"
    && (30 <=? String.length (trim (apiKeyInput c)))%nat = false ->
  cfg_apiKey (saveApiKey c) = cfg_apiKey c
  /\ localStorage (saveApiKey c) = localStorage c
  /\ mainAppShown (saveApiKey c) = mainAppShown c
  /\ successToast (saveApiKey c) = successToast c
  /\ exists message,
       apiStatus (saveApiKey c)
       = Some {| status_message := message; status_type := "error" |}.
Proof.
  intros H. unfold saveApiKey, testApiKey. cbv zeta.
  destruct (truthy (trim (apiKeyInput c))) eqn:Ht; cbn [negb orb];
    [|cbn; repeat split; eauto].
  destruct (startsWith (trim (apiKeyInput c)) "AIza") eqn:Hs; cbn [negb];
    [|cbn; repeat split; eauto].
  cbn [andb] in H. rewrite Nat.ltb_antisym, H. cbn. repeat split; eauto.
Qed.

(** A stored key that is not empty is taken over as it is. *)
Lemma loadSavedApiKey_stored page key :
  getItem (localStorage page) "gemini_api_key" = Some key -> truthy key = true ->
  loadSavedApiKey page =
    {| cfg_apiKey := Some key; apiKeyInput := key;
       localStorage := localStorage page;
       apiStatus := Some {| status_message := "API key loaded successfully";
                            status_type := "success" |};
       mainAppShown := true; loadingOverlay := loadingOverlay page;
       errorToast := errorToast page; successToast := successToast page |}.
Proof. intros Hg Ht. unfold loadSavedApiKey. rewrite Hg, Ht. reflexivity. Qed.

End Key.

(** *** The results grid and the downloads *)

Section Grid.

Variable host : Host.

Lemma displayFrom_src : forall results index,
  map src (displayFrom results index) = map imageData results.
Proof.
  induction results as [|r rs IH]; intros index; cbn; [|rewrite IH]; reflexivity.
Qed.

(** On results tagged in order from [index + 1], the labels are the
    tags. *)
Lemma displayFrom_tagged : forall results index,
  map variation results = seq (index + 1) (List.length results) ->
  map shownVariation (displayFrom results index)
  = seq (index + 1) (List.length results).
Proof.
  induction results as [|r rs IH]; intros index H; [reflexivity|].
  cbn in H. injection H as Hr Hrs.
  cbn [displayFrom map shownVariation List.length seq]. rewrite Hr.
  destruct (Nat.eqb_spec (index + 1) 0) as [E|_]; [lia|].
  f_equal. apply (IH (S index)). exact Hrs.
Qed.

(** The downloads of the grid of such results: one per item, in order,
    200 ms apart, each named with the number its item shows. *)
Lemma downloadFrom_grid : forall results index w,
  map variation results = seq (index + 1) (List.length results) ->
  exists ds w',
    downloadFrom host (map src (displayFrom results index)) index w = Returned ds w'
    /\ map (fun d => href (job d)) ds = map imageData results
    /\ map delay ds = map (fun i => i * 200) (seq index (List.length results))
    /\ Forall2 (fun item d =>
                  exists time,
                    download (job d) = fileName (shownVariation item) time)
               (displayFrom results index) ds.
Proof.
  induction results as [|r rs IH]; intros index w H.
  - exists [], w. cbn. repeat split; constructor.
  - cbn in H. injection H as Hr Hrs.
    cbn [displayFrom map src downloadFrom]. cbv zeta.
    unfold bind at 1. unfold downloadSingleImage, bind at 1. unfold Date_now, ret at 1.
    unfold bind at 1.
    destruct (IH (S index) {| loads := loads w; randoms := randoms w;
                              ticks := S (ticks w) |} Hrs)
      as (ds & w' & E & Hh & Hd & Hn).
    rewrite E. unfold ret.
    eexists. eexists. split; [reflexivity|].
    cbn [map href job delay download List.length seq].
    split; [rewrite Hh; reflexivity|]. split; [rewrite Hd; reflexivity|].
    constructor; [|exact Hn].
    exists (now host (ticks w)). cbn [shownVariation]. rewrite Hr.
    destruct (Nat.eqb_spec (index + 1) 0) as [E0|_]; [lia | reflexivity].
Qed.

End Grid.

(** *** File names *)

Section FileNames.

Lemma append_inj_l : forall a x y : string, (a ++ x = a ++ y)%string -> x = y.
Proof.
  induction a as [|c a IH]; intros x y H; [exact H|].
  cbn in H. injection H as H. exact (IH _ _ H).
Qed.

(** Two strings cut at the first occurrence of a character. *)
Lemma first_occurrence c : forall s1 s2 x y : string,
  ~ In c (list_ascii_of_string s1) -> ~ In c (list_ascii_of_string s2) ->
  (s1 ++ String c x = s2 ++ String c y)%string -> s1 = s2 /\ x = y.
Proof.
  induction s1 as [|a s1 IH]; intros s2 x y H1 H2 E.
  - destruct s2 as [|b s2]; cbn in E.
    + injection E as E. auto.
    + injection E as Eb _. exfalso. apply H2. cbn. auto.
  - destruct s2 as [|b s2]; cbn in E.
    + injection E as Ea _. exfalso. apply H1. cbn. auto.
    + injection E as Eab E.
      destruct (IH s2 x y) as [-> ->]; try exact E.
      * intros Hin. apply H1. cbn. auto.
      * intros Hin. apply H2. cbn. auto.
      * subst. auto.
Qed.

Lemma digits_of_uint d c :
  In c (list_ascii_of_string (NilEmpty.string_of_uint d)) ->
  In c (list_ascii_of_string "0123456789").
Proof.
  induction d; cbn [NilEmpty.string_of_uint list_ascii_of_string In];
    try tauto; intros [<-|H]; try (cbn; tauto); apply IHd, H.
Qed.

Lemma digits_of_printNat n c :
  In c (list_ascii_of_string (printNat n)) -> In c (list_ascii_of_string "0123456789").
Proof.
  unfold printNat, NilZero.string_of_uint.
  destruct (Nat.to_uint n) eqn:E; try (rewrite <- E; apply digits_of_uint).
  cbn. tauto.
Qed.

Lemma chars_of_printZ z c :
  In c (list_ascii_of_string (printZ z)) -> In c (list_ascii_of_string "-0123456789").
Proof.
  assert (Hu : forall d, In c (list_ascii_of_string (NilZero.string_of_uint d)) ->
                         In c (list_ascii_of_string "0123456789")).
  { intros d. unfold NilZero.string_of_uint.
    destruct d eqn:E; try (rewrite <- E; apply digits_of_uint). cbn. tauto. }
  unfold printZ, NilZero.string_of_int.
  destruct (Z.to_int z) as [d|d].
  - intros H. right. exact (Hu d H).
  - cbn [list_ascii_of_string In]. intros [<-|H]; [left; reflexivity|].
    right. exact (Hu d H).
Qed.

Lemma printNat_inj n m : printNat n = printNat m -> n = m.
Proof.
  unfold printNat. intros H.
  assert (Hd : forall d, NilZero.uint_of_string (NilZero.string_of_uint d) = Some d
                         \/ d = Decimal.Nil).
  { intros d. destruct d; auto; left; apply NilZero.usu; discriminate. }
  assert (Hv : Nat.of_uint (Nat.to_uint n) = Nat.of_uint (Nat.to_uint m)).
  { destruct (Hd (Nat.to_uint n)) as [En|En], (Hd (Nat.to_uint m)) as [Em|Em].
    - rewrite H in En. rewrite En in Em. injection Em as ->. reflexivity.
    - rewrite H, Em in En. cbn in En. injection En as <-. rewrite Em. reflexivity.
    - rewrite <- H, En in Em. cbn in Em. injection Em as <-. rewrite En. reflexivity.
    - rewrite En, Em. reflexivity. }
  rewrite !DecimalNat.Unsigned.of_to in Hv. exact Hv.
Qed.

Lemma printZ_inj z1 z2 : printZ z1 = printZ z2 -> z1 = z2.
Proof.
  unfold printZ. intros H.
  assert (Hn : forall z, Z.to_int z <> Decimal.Pos Decimal.Nil
                         /\ Z.to_int z <> Decimal.Neg Decimal.Nil).
  { intros [|q|q]; cbn; split; try discriminate; intros E; injection E as E;
      exact (DecimalPos.Unsigned.to_uint_nonnil q E). }
  apply DecimalZ.to_int_inj.
  pose proof (NilZero.isi _ (proj1 (Hn z1)) (proj2 (Hn z1))) as E1.
  pose proof (NilZero.isi _ (proj1 (Hn z2)) (proj2 (Hn z2))) as E2.
  rewrite H, E2 in E1. injection E1 as E1. symmetry. exact E1.
Qed.

End FileNames.

(** *** Keywords of the parts of the full prompt *)

Section Keywords.

Lemma string_app_assoc : forall a b c : string,
  ((a ++ b) ++ c = a ++ b ++ c)%string.
Proof. induction a as [|x a IH]; intros b c; cbn; [|rewrite IH]; reflexivity. Qed.

Lemma mentions_app_l a b kw :
  mentions a kw = true -> mentions (a ++ b) kw = true.
Proof.
  unfold mentions. rewrite StringFacts.toLowerCase_app, !StringFacts.includes_iff.
  intros (pre & post & ->). exists pre, (post ++ toLowerCase b)%string.
  rewrite !string_app_assoc. reflexivity.
Qed.

Lemma mentions_app_r a b kw :
  mentions b kw = true -> mentions (a ++ b) kw = true.
Proof.
  unfold mentions. rewrite StringFacts.toLowerCase_app, !StringFacts.includes_iff.
  intros (pre & post & ->). exists (toLowerCase a ++ pre)%string, post.
  rewrite !string_app_assoc. reflexivity.
Qed.

(** The empty string mentions the empty keyword only, which every string
    mentions. *)
Lemma mentions_empty s kw : mentions "" kw = true -> mentions s kw = true.
Proof.
  destruct kw; [|discriminate]. intros _. unfold mentions.
  destruct (toLowerCase s); reflexivity.
Qed.

End Keywords.

(** *** The data URL of the selected image *)

Section DataURL.

Lemma includes_char x s c :
  includes (String x s) (String c "") = Ascii.eqb x c || includes s (String c "").
Proof. cbn [includes startsWith]. destruct s; rewrite andb_true_r; reflexivity. Qed.

Lemma includes_char_app c : forall a b,
  includes (a ++ b) (String c "") = includes a (String c "") || includes b (String c "").
Proof.
  induction a as [|x a IH]; intros b; [reflexivity|].
  cbn [append]. rewrite !includes_char, IH, orb_assoc. reflexivity.
Qed.

(** A string without the separator is one piece. *)
Lemma split_none sep : forall s,
  includes s (String sep "") = false -> split sep s = [s].
Proof.
  induction s as [|x s IH]; intros H; [reflexivity|].
  rewrite includes_char in H. apply orb_false_elim in H. destruct H as [Hx Hs].
  cbn [split]. rewrite Hx, (IH Hs). reflexivity.
Qed.

(** The first piece ends at the first separator. *)
Lemma split_first sep : forall a b,
  includes a (String sep "") = false ->
  split sep (a ++ String sep b) = a :: split sep b.
Proof.
  induction a as [|x a IH]; intros b H.
  - cbn [append split]. rewrite Ascii.eqb_refl. reflexivity.
  - rewrite includes_char in H. apply orb_false_elim in H. destruct H as [Hx Hs].
    cbn [append split]. rewrite Hx, (IH b Hs). reflexivity.
Qed.

End DataURL.

(** *** The number in the count field *)

Section Count.

(** The digits of a decimal numeral, read after the digits that gave
    [acc]. *)
Lemma digits_acc : forall d acc,
  digits 10 (NilEmpty.string_of_uint d) (Z.pos acc) true
  = Some (Z.pos (Pos.of_uint_acc d acc)).
Proof.
  induction d; intros acc; cbn [NilEmpty.string_of_uint digits Pos.of_uint_acc];
    [reflexivity|..];
    match goal with
    | |- context [digitValue 10 ?c] =>
        let v := eval vm_compute in (digitValue 10 c) in
        change (digitValue 10 c) with v
    end;
    cbv beta iota; rewrite <- IHd; f_equal; lia.
Qed.

Lemma digits_zero : forall d,
  digits 10 (NilEmpty.string_of_uint d) 0 true = Some (Z.of_N (Pos.of_uint d)).
Proof.
  induction d; cbn [NilEmpty.string_of_uint digits Pos.of_uint];
    [reflexivity|..];
    match goal with
    | |- context [digitValue 10 ?c] =>
        let v := eval vm_compute in (digitValue 10 c) in
        change (digitValue 10 c) with v
    end;
    cbv beta iota; [exact IHd|..]; cbn [Z.mul Z.add Z.of_N]; apply digits_acc.
Qed.

Lemma digits_first d :
  d <> Decimal.Nil ->
  digits 10 (NilEmpty.string_of_uint d) 0 false
  = digits 10 (NilEmpty.string_of_uint d) 0 true.
Proof. destruct d; [congruence|..]; intros _; reflexivity. Qed.

(** [parseInt] on a decimal numeral and on its negative: no white space,
    no hexadecimal prefix, the digits to the end. *)
Lemma parseInt_numeral d :
  d <> Decimal.Nil ->
  parseInt (NilEmpty.string_of_uint d)
  = option_map (Z.mul 1) (digits 10 (NilEmpty.string_of_uint d) 0 false)
  /\ parseInt (String "-" (NilEmpty.string_of_uint d))
     = option_map (Z.mul (-1)) (digits 10 (NilEmpty.string_of_uint d) 0 false).
Proof.
  destruct d as [|d|d|d|d|d|d|d|d|d|d]; [congruence|..]; intros _;
    destruct d; split; reflexivity.
Qed.

(** Printing an integer and parsing it gives the integer back. *)
Lemma parseInt_printZ z : parseInt (printZ z) = Some z.
Proof.
  assert (Hp : forall q,
            NilZero.string_of_uint (Pos.to_uint q)
            = NilEmpty.string_of_uint (Pos.to_uint q)).
  { intros q. pose proof (DecimalPos.Unsigned.to_uint_nonnil q) as Hn.
    destruct (Pos.to_uint q); [congruence|..]; reflexivity. }
  assert (Hd : forall q,
            digits 10 (NilEmpty.string_of_uint (Pos.to_uint q)) 0 false
            = Some (Z.pos q)).
  { intros q.
    rewrite digits_first by apply DecimalPos.Unsigned.to_uint_nonnil.
    rewrite digits_zero, DecimalPos.Unsigned.of_to. reflexivity. }
  destruct z as [|q|q]; [reflexivity|..]; unfold printZ; cbn [Z.to_int NilZero.string_of_int];
    rewrite Hp.
  - rewrite (proj1 (parseInt_numeral _ (DecimalPos.Unsigned.to_uint_nonnil q))), Hd.
    reflexivity.
  - rewrite (proj2 (parseInt_numeral _ (DecimalPos.Unsigned.to_uint_nonnil q))), Hd.
    reflexivity.
Qed.

End Count.

End PageFacts.

(* ================================================================== *)
(** ** More on the loop of the driver: random sources and the clock *)
(* ================================================================== *)

Module LoopFacts.

Import JsString JsNumber Pixels Ctx Composer Coverage EffFacts CoverageFacts
  DriverFacts OutcomeFacts.

Section Replay.

Variable h : Host.
Variable r1 r2 : nat -> float.
Variable this : Editor.

Lemma createFallbackModifiedImage_onload_same img v :
  effectDraws v = 0 ->
  sameResult (createFallbackModifiedImage_onload (withRandom h r1) img v)
             (createFallbackModifiedImage_onload (withRandom h r2) img v).
Proof.
  intros Hzero. unfold createFallbackModifiedImage_onload. cbv zeta. unfold drawImage.
  apply sameResult_bind; [apply sameResult_draw | intro].
  apply sameResult_bind; [apply addVariationEffect_same, Hzero | intro].
  apply sameResult_ret.
Qed.

(** One turn of the loop from two worlds with the same load count and
    clock: the same entry, and again the same load count and clock. *)
Lemma generateVariant_same p img64 i w1 w2 :
  textDraws this + effectDraws i = 0 ->
  loads w1 = loads w2 -> ticks w1 = ticks w2 ->
  match generateVariant (withRandom h r1) this p img64 i w1,
        generateVariant (withRandom h r2) this p img64 i w2 with
  | Returned a w1', Returned b w2' =>
      a = b /\ loads w1' = loads w2' /\ ticks w1' = ticks w2'
  | NeverSettles, NeverSettles => True
  | _, _ => False
  end.
Proof.
  intros Hzero Hl Ht.
  assert (He : effectDraws i = 0) by lia.
  unfold generateVariant, tryCatch, bind.
  rewrite !createModifiedImage_cases. cbn [decode withRandom]. rewrite Hl.
  destruct (decode h (loads w2) (imageSrc this img64)) as [img|].
  - pose proof (createModifiedImage_onload_same h r1 r2 this img p i Hzero
                  (afterLoad w1) (afterLoad w2)) as Hsame.
    destruct (createModifiedImage_onload (withRandom h r1) this img p i (afterLoad w1))
      as [u1 v1|e1 v1|] eqn:E1;
    destruct (createModifiedImage_onload (withRandom h r2) this img p i (afterLoad w2))
      as [u2 v2|e2 v2|] eqn:E2;
    cbn in Hsame; try discriminate Hsame; try exact I.
    injection Hsame as <-.
    destruct (drawsOnly_Returned _ _ _ _
                (createModifiedImage_onload_drawsOnly _ this img p i) E1) as [Hl1 Ht1].
    destruct (drawsOnly_Returned _ _ _ _
                (createModifiedImage_onload_drawsOnly _ this img p i) E2) as [Hl2 Ht2].
    cbn in Hl1, Hl2, Ht1, Ht2 |- *.
    rewrite Hl1, Hl2, Ht1, Ht2, Hl, Ht. auto.
  - rewrite !createFallbackModifiedImage_cases. cbn [decode withRandom loads afterLoad].
    rewrite Hl.
    destruct (decode h (S (loads w2)) (imageSrc this img64)) as [img|]; [|exact I].
    pose proof (createFallbackModifiedImage_onload_same img i He
                  (afterLoad (afterLoad w1)) (afterLoad (afterLoad w2))) as Hsame.
    destruct (createFallbackModifiedImage_onload (withRandom h r1) img i
                (afterLoad (afterLoad w1))) as [u1 v1|e1 v1|] eqn:E1;
    destruct (createFallbackModifiedImage_onload (withRandom h r2) img i
                (afterLoad (afterLoad w2))) as [u2 v2|e2 v2|] eqn:E2;
    cbn in Hsame; try discriminate Hsame; try exact I.
    injection Hsame as <-.
    destruct (drawsOnly_Returned _ _ _ _
                (createFallbackModifiedImage_onload_drawsOnly _ img i) E1) as [Hl1 Ht1].
    destruct (drawsOnly_Returned _ _ _ _
                (createFallbackModifiedImage_onload_drawsOnly _ img i) E2) as [Hl2 Ht2].
    cbn in Hl1, Hl2, Ht1, Ht2 |- *.
    rewrite Hl1, Hl2, Ht1, Ht2, Hl, Ht. auto.
Qed.

Lemma generateLoop_same p img64 : forall n i acc w1 w2,
  textDraws this = 0 -> i + n <= 3 ->
  loads w1 = loads w2 -> ticks w1 = ticks w2 ->
  result (generateLoop (withRandom h r1) this n p img64 i acc w1)
  = result (generateLoop (withRandom h r2) this n p img64 i acc w2).
Proof.
  induction n as [|n IH]; intros i acc w1 w2 Htext Hi Hl Ht; [reflexivity|].
  cbn [generateLoop]. unfold bind.
  assert (He : effectDraws i = 0).
  { destruct i as [|[|[|i]]]; try reflexivity. lia. }
  pose proof (generateVariant_same p img64 i w1 w2 ltac:(lia) Hl Ht) as Hv.
  destruct (generateVariant (withRandom h r1) this p img64 i w1) as [a v1|e1 v1|];
    destruct (generateVariant (withRandom h r2) this p img64 i w2) as [b v2|e2 v2|];
    try contradiction; [|reflexivity].
  destruct Hv as (<- & Hl' & Ht').
  apply IH; [exact Htext | lia | exact Hl' | exact Ht'].
Qed.

End Replay.

Section Clock.

Variable host : Host.
Variable this : Editor.

(** A turn of the loop that returns has read the clock once, after its
    image was made, and stamps its entry with that reading plus the
    index. *)
Lemma generateVariant_clock p img64 i w :
  match generateVariant host this p img64 i w with
  | Returned r w' =>
      timestamp r = (now host (ticks w) + Z.of_nat i)%Z /\ ticks w' = S (ticks w)
  | _ => True
  end.
Proof.
  unfold generateVariant, tryCatch, bind.
  rewrite createModifiedImage_cases.
  destruct (decode host (loads w) (imageSrc this img64)) as [img|].
  - destruct (createModifiedImage_onload host this img p i (afterLoad w))
      as [url w1| |] eqn:E; try exact I.
    destruct (drawsOnly_Returned _ _ _ _
                (createModifiedImage_onload_drawsOnly host this img p i) E) as [_ Ht].
    cbn in Ht |- *. rewrite Ht. auto.
  - rewrite createFallbackModifiedImage_cases. cbn [loads afterLoad].
    destruct (decode host (S (loads w)) (imageSrc this img64)) as [img|]; [|exact I].
    destruct (createFallbackModifiedImage_onload host img i (afterLoad (afterLoad w)))
      as [url w1| |] eqn:E; try exact I.
    destruct (drawsOnly_Returned _ _ _ _
                (createFallbackModifiedImage_onload_drawsOnly host img i) E) as [_ Ht].
    cbn in Ht |- *. rewrite Ht. auto.
Qed.

Lemma generateLoop_clock p img64 : forall n i acc w,
  match generateLoop host this n p img64 i acc w with
  | Returned rs w' =>
      exists new,
        rs = acc ++ new
        /\ map timestamp new
           = map (fun j => (now host (ticks w + j) + Z.of_nat (i + j))%Z) (seq 0 n)
        /\ ticks w' = ticks w + n
  | _ => True
  end.
Proof.
  induction n as [|n IH]; intros i acc w.
  - cbn. exists []. rewrite app_nil_r. repeat split. lia.
  - cbn [generateLoop]. unfold bind.
    pose proof (generateVariant_clock p img64 i w) as Hv.
    destruct (generateVariant host this p img64 i w) as [r w1| |]; try exact I.
    destruct Hv as [Hstamp Htick].
    specialize (IH (S i) (acc ++ [r]) w1).
    destruct (generateLoop host this n p img64 (S i) (acc ++ [r]) w1) as [rs w'| |];
      try exact I.
    destruct IH as (new & -> & Hstamps & Hticks).
    exists (r :: new). rewrite <- app_assoc.
    split; [reflexivity|]. split; [|lia].
    cbn [map seq]. rewrite Hstamp, Hstamps, <- seq_shift, map_map.
    f_equal; [rewrite !Nat.add_0_r; reflexivity|].
    apply map_ext. intros j. rewrite Htick.
    replace (S (ticks w) + j) with (ticks w + S j) by lia.
    replace (S i + j) with (i + S j) by lia. reflexivity.
Qed.

End Clock.

(** The rasteriser of the hosts of the examples completes every call. *)
Lemma copyRaster_completes dec net rnd wd ht :
  rasterCompletesAt (Fixtures.hostOf dec net rnd) wd ht.
Proof.
  intros st cmd b _ _ _. cbn [rasterize Fixtures.hostOf]. unfold Fixtures.copyRaster.
  destruct cmd; eauto.
  destruct ((width source =? width b)%nat && (height source =? height b)%nat); eauto.
Qed.

Lemma nth_map_seq {A} (f : nat -> A) n k d :
  k < n -> nth k (map f (seq 0 n)) d = f k.
Proof.
  intros Hk. rewrite (nth_indep _ d (f 0)) by (rewrite length_map, length_seq; exact Hk).
  rewrite map_nth, seq_nth by exact Hk. reflexivity.
Qed.

(** The second list of a pointwise relation, element by element. *)
Lemma Forall2_right {A B} (R : A -> B -> Prop) (P : B -> Prop) l1 l2 :
  (forall a b, R a b -> P b) -> Forall2 R l1 l2 -> Forall P l2.
Proof. intros H F. induction F; constructor; eauto. Qed.

End LoopFacts.

(* ================================================================== *)
(** ** Further properties of the code *)
(* ================================================================== *)

Section FurtherProperties.

Import JsString JsNumber Pixels Ctx Composer Page Coverage Fixtures Samples EffFacts
  CoverageFacts CompositionFacts DriverFacts OutcomeFacts PageFacts LoopFacts.

(** X1. [processImageEdit] never throws, and what it shows is decided by
    its guard and by the text-analysis call.  The click is ignored, and
    nothing is loaded or read, exactly when the guard holds; otherwise a
    failed analysis call gives the error toast [Failed to edit image.
    Please try again.] with nothing loaded; a successful one gives, if the
    request settles at all, as many results as the requested count and the
    success toast that reports this number.  A request that never settles
    had a successful analysis call and a positive count. *)
Theorem processImageEdit_feedback host this w :
  match processImageEdit host this w with
  | Returned Ignored w' => ignoresClick this = true /\ w' = w
  | Returned (Failed toast) w' =>
      ignoresClick this = false
      /\ analysisFailed (analysisOf host this) = true
      /\ toast = "Failed to edit image. Please try again."
      /\ w' = w
  | Returned (Displayed results toast) w' =>
      ignoresClick this = false
      /\ analysisFailed (analysisOf host this) = false
      /\ List.length results = Z.to_nat (requestedCount this)
      /\ toast = ("Successfully generated "
                    ++ printNat (Z.to_nat (requestedCount this)) ++ " image(s)!")%string
  | Thrown _ _ => False
  | NeverSettles =>
      ignoresClick this = false
      /\ analysisFailed (analysisOf host this) = false
      /\ (0 < requestedCount this)%Z
  end.
Proof.
  rewrite processImageEdit_cases. unfold analysisOf.
  destruct (ignoresClick this) eqn:Hg; [split; reflexivity|].
  destruct (analysisFailed
              (fetch host (analysisBody this (fullPromptOf this) (imageBase64Of this))))
    eqn:Hf.
  - destruct (failed_analysis_throws host this _ _ w Hf) as [e ->].
    repeat split; reflexivity.
  - destruct (passed_analysis_generates host this _ _ w Hf) as [enhanced ->].
    unfold generateModifiedImages.
    pose proof (generateLoop_spec host this enhanced (imageBase64Of this)
                  (Z.to_nat (requestedCount this)) 0 [] w) as H.
    destruct (generateLoop host this (Z.to_nat (requestedCount this)) enhanced
                (imageBase64Of this) 0 [] w) as [rs w'|e w'|].
    + destruct H as (new & -> & Hlen & _). cbn [app]. rewrite Hlen.
      repeat split; reflexivity.
    + destruct H.
    + destruct H as (j & wj & Hj & _). repeat split; try reflexivity. lia.
Qed.

(** X2. The count is not checked for its sign: with a negative number in
    the count field, a request that passes the guard and the analysis call
    loads no image and ends with an empty results grid and the success
    toast [Successfully generated 0 image(s)!]. *)
Theorem negative_count_displays_no_image host this w :
  (requestedCount this < 0)%Z ->
  ignoresClick this = false ->
  analysisFailed (analysisOf host this) = false ->
  processImageEdit host this w
  = Returned (Displayed [] "Successfully generated 0 image(s)!") w.
Proof.
  intros Hneg Hg Hf. rewrite processImageEdit_cases, Hg.
  destruct (passed_analysis_generates host this _ _ w Hf) as [enhanced ->].
  unfold generateModifiedImages.
  replace (Z.to_nat (requestedCount this)) with 0 by lia.
  reflexivity.
Qed.

(** The count field holds [-2]. *)
Lemma negative_count_displays_no_image_witness :
  processImageEdit (plainHost 0) (editor "make it red" "" "" "-2") start
  = Returned (Displayed [] "Successfully generated 0 image(s)!") start.
Proof.
  apply negative_count_displays_no_image; reflexivity.
Defined.

(** X3. The random numbers one variant takes do not depend on the prompt
    or on the image: the handler of the composer takes one for a balloon
    title, forty for a Matrix title, and three more from the index 3 on;
    the handler of the fallback takes only those three.  Neither loads an
    image or reads the clock. *)
Theorem random_numbers_of_a_variant host this img p i w :
  match createModifiedImage_onload host this img p i w with
  | Returned _ w' =>
      randoms w' = randoms w + textDraws this + effectDraws i
      /\ loads w' = loads w /\ ticks w' = ticks w
  | _ => True
  end
  /\ match createFallbackModifiedImage_onload host img i w with
     | Returned _ w' =>
         randoms w' = randoms w + effectDraws i
         /\ loads w' = loads w /\ ticks w' = ticks w
     | _ => True
     end.
Proof.
  split.
  - destruct (createModifiedImage_onload host this img p i w) as [url w'| |] eqn:E;
      try exact I.
    destruct (drawsOnly_Returned _ _ _ _
                (createModifiedImage_onload_drawsOnly host this img p i) E) as [Hl Ht].
    split; [|auto].
    assert (T : takes (textDraws this + effectDraws i)
                      (createModifiedImage_onload host this img p i)).
    { unfold createModifiedImage_onload. cbv zeta. unfold drawImage.
      eapply takes_bind; [apply takes_draw | intro | ].
      - eapply takes_bind;
          [apply applyImageModifications_takes | intro; apply takes_ret | reflexivity].
      - lia. }
    rewrite (T _ _ _ E). lia.
  - destruct (createFallbackModifiedImage_onload host img i w) as [url w'| |] eqn:E;
      try exact I.
    destruct (drawsOnly_Returned _ _ _ _
                (createFallbackModifiedImage_onload_drawsOnly host img i) E) as [Hl Ht].
    split; [|auto].
    assert (T : takes (effectDraws i) (createFallbackModifiedImage_onload host img i)).
    { unfold createFallbackModifiedImage_onload. cbv zeta. unfold drawImage.
      eapply takes_bind; [apply takes_draw | intro | ].
      - eapply takes_bind;
          [apply addVariationEffect_takes | intro; apply takes_ret | reflexivity].
      - lia. }
    exact (T _ _ _ E).
Qed.

(** X4. Up to three variants of a request whose title is not drawn in the
    balloon or Matrix style do not depend on the random source: under any
    two random sources the driver gives the same entries, or settles under
    neither. *)
Theorem first_three_variants_ignore_random h r1 r2 this count p img64 w :
  (count <= 3)%Z -> textDraws this = 0 ->
  result (generateModifiedImages (withRandom h r1) this count p img64 w)
  = result (generateModifiedImages (withRandom h r2) this count p img64 w).
Proof.
  intros Hc Ht. unfold generateModifiedImages.
  apply generateLoop_same; [exact Ht | lia | reflexivity | reflexivity].
Qed.

(** Three variants, no title, the random numbers all 0.25 or all 0.75. *)
Lemma first_three_variants_ignore_random_witness :
  result (generateModifiedImages (withRandom (plainHost 0) (fun _ => 0.25%float))
            (editor "make it red" "" "" "3") 3 "make it red" base64 start)
  = result (generateModifiedImages (withRandom (plainHost 0) (fun _ => 0.75%float))
              (editor "make it red" "" "" "3") 3 "make it red" base64 start).
Proof.
  apply first_three_variants_ignore_random; [lia | reflexivity].
Defined.

(** X5. Whatever the type of the selected file, every image the driver
    returns is the encoding, as JPEG of quality 0.9, of a surface that has
    the width and the height of an image decoded during this call. *)
Theorem every_variant_is_a_jpeg_of_the_image_size host this count p img64 w :
  match generateModifiedImages host this count p img64 w with
  | Returned results w' =>
      Forall (fun r =>
                exists k img s,
                  loads w <= k < loads w'
                  /\ decode host k (imageSrc this img64) = Some img
                  /\ imageData r = toDataURL host s "image/jpeg" 0.9%float
                  /\ width s = width img /\ height s = height img)
             results
  | _ => True
  end.
Proof.
  unfold generateModifiedImages.
  pose proof (generateLoop_spec host this p img64 (Z.to_nat count) 0 [] w) as H.
  destruct (generateLoop host this (Z.to_nat count) p img64 0 [] w) as [rs w'| |];
    try exact I.
  destruct H as (new & -> & _ & _ & _ & _ & Hown). cbn [app].
  eapply Forall2_right; [|exact Hown].
  intros j r (k & img & wi & wo & Hk & Hd & [Hrun|Hrun]).
  - destruct (createModifiedImage_onload_url host this img p j wi _ wo Hrun)
      as (s & Hu & Hw & Hh).
    exists k, img, s. auto.
  - destruct (createFallbackModifiedImage_onload_url host img j wi _ wo Hrun)
      as (s & Hu & Hw & Hh).
    exists k, img, s. auto.
Qed.

(** X6. [saveApiKey] stores a key exactly when the trimmed input starts
    with [AIza] and has at least 30 characters: then the trimmed key
    becomes the key of the editor and the value of [gemini_api_key] in the
    storage, the main application is shown and the loading overlay is
    hidden again.  Any other input leaves the key, the storage and the
    page as they are and shows an error in the status line. *)
Theorem saveApiKey_stores_exactly_long_AIza_keys c :
  if startsWith (trim (apiKeyInput c)) "AIza"
       && (30 <=? String.length (trim (apiKeyInput c)))%nat
  then cfg_apiKey (saveApiKey c) = Some (trim (apiKeyInput c))
       /\ getItem (localStorage (saveApiKey c)) "gemini_api_key"
          = Some (trim (apiKeyInput c))
       /\ mainAppShown (saveApiKey c) = true
       /\ loadingOverlay (saveApiKey c) = false
       /\ errorToast (saveApiKey c) = errorToast c
  else cfg_apiKey (saveApiKey c) = cfg_apiKey c
       /\ localStorage (saveApiKey c) = localStorage c
       /\ mainAppShown (saveApiKey c) = mainAppShown c
       /\ successToast (saveApiKey c) = successToast c
       /\ exists message,
            apiStatus (saveApiKey c)
            = Some {| status_message := message; status_type := "error" |}.
Proof.
  destruct (startsWith (trim (apiKeyInput c)) "AIza"
              && (30 <=? String.length (trim (apiKeyInput c)))%nat) eqn:E.
  - apply andb_prop in E. destruct E as [Hs Hl].
    rewrite (saveApiKey_accepted c Hs Hl). cbn. repeat split; reflexivity.
  - apply saveApiKey_rejected, E.
Qed.

(** X7. A key that [saveApiKey] accepts is found again by
    [loadSavedApiKey] on a page with the storage it left: the trimmed key
    becomes the key of the editor and the value of the input, and the main
    application is shown without a new test of the key. *)
Theorem saved_key_is_loaded_on_the_next_visit c page :
  startsWith (trim (apiKeyInput c)) "AIza" = true ->
  30 <= String.length (trim (apiKeyInput c)) ->
  localStorage page = localStorage (saveApiKey c) ->
  cfg_apiKey (loadSavedApiKey page) = Some (trim (apiKeyInput c))
  /\ apiKeyInput (loadSavedApiKey page) = trim (apiKeyInput c)
  /\ mainAppShown (loadSavedApiKey page) = true
  /\ localStorage (loadSavedApiKey page) = localStorage page.
Proof.
  intros Hs Hl Hstore.
  assert (Hget : getItem (localStorage page) "gemini_api_key"
                 = Some (trim (apiKeyInput c))).
  { rewrite Hstore, (saveApiKey_accepted c Hs (proj2 (Nat.leb_le _ _) Hl)).
    reflexivity. }
  rewrite (loadSavedApiKey_stored page _ Hget (startsWith_truthy _ "AIza" eq_refl Hs)).
  cbn. repeat split; reflexivity.
Qed.

(** The key of the configuration template, typed with spaces around it. *)
Lemma saved_key_is_loaded_on_the_next_visit_witness :
  cfg_apiKey (loadSavedApiKey
                (keyPage "" (localStorage
                               (saveApiKey (keyPage ("  " ++ exampleKey ++ " ")
                                                    emptyStorage)))))
  = Some exampleKey.
Proof.
  apply (saved_key_is_loaded_on_the_next_visit
           (keyPage ("  " ++ exampleKey ++ " ") emptyStorage)
           (keyPage "" (localStorage
                          (saveApiKey (keyPage ("  " ++ exampleKey ++ " ")
                                               emptyStorage))))).
  - reflexivity.
  - apply Nat.leb_le. reflexivity.
  - reflexivity.
Defined.

(** X8. The edit button and the guard of [processImageEdit] agree: a
    click is ignored exactly when [validateForm] has disabled the button,
    or the selected image is the empty string (which no file read
    produces). *)
Theorem disabled_button_ignores_click host this w :
  processImageEdit host this w = Returned Ignored w
  <-> (disabled (validateForm this) = true \/ selectedImage this = Some "").
Proof.
  rewrite processImageEdit_cases.
  unfold ignoresClick, validateForm. cbv zeta. cbn [disabled].
  destruct (isProcessing this), (selectedImage this) as [[|c s]|],
    (trim (promptInput this)) as [|c' s'];
    cbn; split; intros H; auto;
    try (destruct H as [H|H]; discriminate H);
    try (destruct (callGeminiAPI host this (fullPromptOf this) (imageBase64Of this) w);
         discriminate H).
Qed.

(** X9. The results grid of what the driver returns shows the images in
    the order of generation, labelled 1, 2, ... as they are tagged; and
    [downloadAllImages] starts one download per image, in that order, 200
    ms apart, each under the file name of the number its label shows. *)
Theorem grid_and_downloads_follow_the_tags host this count p img64 w :
  match generateModifiedImages host this count p img64 w with
  | Returned results _ =>
      map shownVariation (displayResults results) = seq 1 (List.length results)
      /\ map src (displayResults results) = map imageData results
      /\ forall w2, exists ds w3,
           downloadAllImages host (displayResults results) w2 = Returned ds w3
           /\ map (fun d => href (job d)) ds = map imageData results
           /\ map delay ds = map (fun i => i * 200) (seq 0 (List.length results))
           /\ Forall2 (fun item d =>
                         exists time,
                           download (job d) = fileName (shownVariation item) time)
                      (displayResults results) ds
  | _ => True
  end.
Proof.
  unfold generateModifiedImages.
  pose proof (generateLoop_spec host this p img64 (Z.to_nat count) 0 [] w) as H.
  destruct (generateLoop host this (Z.to_nat count) p img64 0 [] w) as [rs w'| |];
    try exact I.
  destruct H as (new & -> & Hlen & Htags & _). cbn [app].
  rewrite <- Hlen in Htags.
  unfold displayResults, downloadAllImages.
  split; [exact (displayFrom_tagged new 0 Htags)|].
  split; [apply displayFrom_src|].
  intros w2. exact (downloadFrom_grid host new 0 w2 Htags).
Qed.

(** X10. The name of a downloaded file determines the number of the
    variation and the clock reading it was made from: two downloads get
    the same name only for the same number and the same reading. *)
Theorem fileName_injective v1 t1 v2 t2 :
  String.eqb (fileName v1 t1) (fileName v2 t2) = ((v1 =? v2)%nat && (t1 =? t2)%Z).
Proof.
  assert (Hinj : fileName v1 t1 = fileName v2 t2 -> v1 = v2 /\ t1 = t2).
  { unfold fileName. intros H. apply append_inj_l in H.
    change ("-" ++ printZ t1 ++ ".jpg")%string
      with (String "-" (printZ t1 ++ String "." "jpg"))%string in H.
    change ("-" ++ printZ t2 ++ ".jpg")%string
      with (String "-" (printZ t2 ++ String "." "jpg"))%string in H.
    apply first_occurrence in H.
    - destruct H as [Hv Ht]. apply first_occurrence in Ht.
      + split; [apply printNat_inj, Hv | apply printZ_inj, (proj1 Ht)].
      + intros Hin. apply chars_of_printZ in Hin. cbn in Hin.
        repeat (destruct Hin as [Hin|Hin]; [discriminate Hin|]). exact Hin.
      + intros Hin. apply chars_of_printZ in Hin. cbn in Hin.
        repeat (destruct Hin as [Hin|Hin]; [discriminate Hin|]). exact Hin.
    - intros Hin. apply digits_of_printNat in Hin. cbn in Hin.
      repeat (destruct Hin as [Hin|Hin]; [discriminate Hin|]). exact Hin.
    - intros Hin. apply digits_of_printNat in Hin. cbn in Hin.
      repeat (destruct Hin as [Hin|Hin]; [discriminate Hin|]). exact Hin. }
  destruct (String.eqb_spec (fileName v1 t1) (fileName v2 t2)) as [E|E].
  - destruct (Hinj E) as [-> ->]. rewrite Nat.eqb_refl, Z.eqb_refl. reflexivity.
  - destruct (Nat.eqb_spec v1 v2) as [->|]; [|reflexivity].
    destruct (Z.eqb_spec t1 t2) as [->|]; [|reflexivity].
    exfalso. apply E. reflexivity.
Qed.

(** X11. An image with a side of length zero makes the handlers throw
    where they read the pixels.  When the first call, the image drawn on
    the new canvas, completes, the handler of the composer throws the
    IndexSizeError of [getImageData] whenever a tint keyword occurs in the
    prompt (the tint being the first step), and for the index 2 whenever
    the sepia tone is the only step; the handler of the fallback throws it
    for the index 2.  Nothing was drawn after the image, and no random
    number was taken. *)
Theorem zero_sided_image_throws_where_pixels_are_read host this img p i w d :
  zeroSide img = true ->
  rasterize host defaultState (DrawImage img 0 0)
            (surface (createCanvas (width img) (height img))) = inr d ->
  (fires this p ColorTint = true ->
     createModifiedImage_onload host this img p i w = Thrown indexSizeError w)
  /\ (plan this p = [DefaultEffect] ->
      createModifiedImage_onload host this img p 2 w = Thrown indexSizeError w)
  /\ createFallbackModifiedImage_onload host img 2 w = Thrown indexSizeError w.
Proof.
  intros Hz Hd.
  pose proof (sepia_of_zero_sided_image_throws host img w d Hz Hd) as Hsepia.
  split; [|split].
  - intros Htint. exact (tint_of_zero_sided_image_throws host this img p i w d Hz Hd Htint).
  - intros Hplan. rewrite <- Hsepia.
    unfold createModifiedImage_onload, createFallbackModifiedImage_onload. cbv zeta.
    unfold bind.
    destruct (drawImage host img 0 0 (createCanvas (width img) (height img)) w)
      as [c1 w1| |]; try reflexivity.
    rewrite applyImageModifications_runs_plan, Hplan. cbn [runSteps]. unfold bind, ret.
    cbn [runStep].
    destruct (addVariationEffect host (width (surface c1)) (height (surface c1)) 2 c1 w1);
      reflexivity.
  - exact Hsepia.
Qed.

(** An image without width and height: the composer's handler throws
    under the prompt [make it red], and under [hello] for the index 2; the
    fallback's handler throws for the index 2. *)
Lemma zero_sided_image_throws_where_pixels_are_read_witness :
  createModifiedImage_onload (plainHost 0) (editor "make it red" "" "" "1")
    emptyImage "make it red" 0 start = Thrown indexSizeError start
  /\ createModifiedImage_onload (plainHost 0) (editor "hello" "" "" "3")
       emptyImage "hello" 2 start = Thrown indexSizeError start
  /\ createFallbackModifiedImage_onload (plainHost 0) emptyImage 2 start
     = Thrown indexSizeError start.
Proof.
  pose proof (zero_sided_image_throws_where_pixels_are_read
                (plainHost 0) (editor "make it red" "" "" "1") emptyImage
                "make it red" 0 start [] eq_refl eq_refl) as (Htint & _ & Hsepia).
  pose proof (zero_sided_image_throws_where_pixels_are_read
                (plainHost 0) (editor "hello" "" "" "3") emptyImage
                "hello" 2 start [] eq_refl eq_refl) as (_ & Hplan & _).
  split; [exact (Htint eq_refl)|]. split; [exact (Hplan eq_refl) | exact Hsepia].
Defined.

(** X12. Where no pixel is read the driver returns.  For a prompt in
    which no tint keyword occurs and a count of at most 2 (so that no
    variant has the index 2 of the sepia tone), on a page whose every load
    of the source gives an image at whose size the rasteriser completes
    every drawing call, the driver returns: as many entries as asked for,
    each made by the composer from one load, the fallback never used. *)
Theorem driver_returns_where_no_pixel_is_read host this count p img64 w :
  (forall k, exists img,
      decode host k (imageSrc this img64) = Some img
      /\ rasterCompletesAt host (width img) (height img)) ->
  fires this p ColorTint = false ->
  (count <= 2)%Z ->
  exists results w',
    generateModifiedImages host this count p img64 w = Returned results w'
    /\ List.length results = Z.to_nat count
    /\ loads w' = loads w + Z.to_nat count.
Proof.
  intros Hload Htint Hcount. unfold generateModifiedImages.
  destruct (generateLoop_returns host this p img64 Hload Htint (Z.to_nat count) 0 [] w
              ltac:(lia)) as (rs & w' & E & Hl).
  exists rs, w'. split; [exact E|]. split; [|exact Hl].
  pose proof (generateLoop_spec host this p img64 (Z.to_nat count) 0 [] w) as H.
  rewrite E in H. destruct H as (new & -> & Hlen & _). exact Hlen.
Qed.

(** Two variants of the one-pixel image under the prompt [make it
    brighter and soft]. *)
Lemma driver_returns_where_no_pixel_is_read_witness :
  exists results w',
    generateModifiedImages (plainHost 0) (editor "make it brighter and soft" "" "" "2") 2
      "make it brighter and soft" base64 start = Returned results w'
    /\ List.length results = Z.to_nat 2
    /\ loads w' = loads start + Z.to_nat 2.
Proof.
  apply driver_returns_where_no_pixel_is_read.
  - intros k. exists pixel. split; [reflexivity | apply copyRaster_completes].
  - reflexivity.
  - lia.
Defined.

(** X13. The full prompt of a request mentions every keyword that the
    trimmed instruction, the trimmed title or the text style mentions: a
    trigger word typed in the title fires its step on the full prompt as
    one typed in the instruction does. *)
Theorem title_words_trigger_effects this kw :
  mentions (trim (promptInput this)) kw = true
  \/ mentions (trim (youtubeTitle this)) kw = true
  \/ mentions (textStyle this) kw = true ->
  mentions (fullPromptOf this) kw = true
  /\ forall s, In kw (keywords s) -> fires this (fullPromptOf this) s = true.
Proof.
  intros H.
  assert (Hfull : mentions (fullPromptOf this) kw = true).
  { unfold fullPromptOf. cbv zeta.
    assert (Hbase : mentions (trim (promptInput this)) kw = true ->
              mentions (if truthy (trim (youtubeTitle this))
                        then (trim (promptInput this) ++ " (incorporating YouTube title: "
                                ++ dquote ++ trim (youtubeTitle this) ++ dquote ++ ")")%string
                        else trim (promptInput this)) kw = true).
    { intros Hb. destruct (truthy (trim (youtubeTitle this)));
        [apply mentions_app_l|]; exact Hb. }
    assert (Htitle : mentions (trim (youtubeTitle this)) kw = true ->
              mentions (if truthy (trim (youtubeTitle this))
                        then (trim (promptInput this) ++ " (incorporating YouTube title: "
                                ++ dquote ++ trim (youtubeTitle this) ++ dquote ++ ")")%string
                        else trim (promptInput this)) kw = true).
    { intros Hb. destruct (truthy (trim (youtubeTitle this))) eqn:Et.
      - do 3 apply mentions_app_r. apply mentions_app_l. exact Hb.
      - destruct (trim (youtubeTitle this)); [|discriminate Et].
        apply mentions_empty, Hb. }
    destruct (truthy (textStyle this)) eqn:Es.
    - destruct H as [H|[H|H]].
      + apply mentions_app_l, Hbase, H.
      + apply mentions_app_l, Htitle, H.
      + do 2 apply mentions_app_r. apply mentions_app_l. exact H.
    - destruct H as [H|[H|H]]; [apply Hbase, H | apply Htitle, H |].
      destruct (textStyle this); [|discriminate Es]. apply mentions_empty, H. }
  split; [exact Hfull|].
  intros s Hin. destruct s; try (destruct Hin; fail);
    unfold fires; apply existsb_exists; exists kw; split; assumption.
Qed.

(** The title [Red Dead] under the instruction [sharpen it]: the tint
    fires. *)
Lemma title_words_trigger_effects_witness :
  mentions (fullPromptOf (editor "sharpen it" "Red Dead" "" "1")) "red" = true
  /\ forall s, In "red" (keywords s) ->
               fires (editor "sharpen it" "Red Dead" "" "1")
                     (fullPromptOf (editor "sharpen it" "Red Dead" "" "1")) s = true.
Proof.
  apply title_words_trigger_effects. right. left. reflexivity.
Defined.

(** X14. The time stamps of the entries of one call: the entry of index
    [j] carries the [j]-th clock reading of the call plus [j], and no other
    reading is taken.  With a clock that does not go back, the time stamps
    strictly increase with the index, so no two entries share one. *)
Theorem timestamps_increase_with_the_index host this count p img64 w :
  (forall a b, a <= b -> (now host a <= now host b)%Z) ->
  match generateModifiedImages host this count p img64 w with
  | Returned results w' =>
      map timestamp results
      = map (fun j => (now host (ticks w + j) + Z.of_nat j)%Z)
            (seq 0 (List.length results))
      /\ ticks w' = ticks w + List.length results
      /\ forall a b, a < b < List.length results ->
                     (nth a (map timestamp results) 0 < nth b (map timestamp results) 0)%Z
  | _ => True
  end.
Proof.
  intros Hclock. unfold generateModifiedImages.
  pose proof (generateLoop_spec host this p img64 (Z.to_nat count) 0 [] w) as Hspec.
  pose proof (generateLoop_clock host this p img64 (Z.to_nat count) 0 [] w) as H.
  destruct (generateLoop host this (Z.to_nat count) p img64 0 [] w) as [rs w'| |];
    try exact I.
  destruct Hspec as (new' & Hnew' & Hlen & _). cbn [app] in Hnew'. subst new'.
  destruct H as (new & Hnew & Hstamps & Hticks). cbn [app] in Hnew. subst new.
  cbn [Nat.add] in Hstamps. rewrite Hlen.
  split; [exact Hstamps|]. split; [exact Hticks|].
  intros a b Hab. rewrite Hstamps.
  rewrite !nth_map_seq by lia.
  pose proof (Hclock (ticks w + a) (ticks w + b) ltac:(lia)). lia.
Qed.

(** Two variants under the clock of the examples, which advances by one
    at each reading. *)
Lemma timestamps_increase_with_the_index_witness :
  match generateModifiedImages (plainHost 0) (editor "make it red" "" "" "2") 2
          "make it red" base64 start with
  | Returned results w' =>
      map timestamp results
      = map (fun j => (now (plainHost 0) (ticks start + j) + Z.of_nat j)%Z)
            (seq 0 (List.length results))
      /\ ticks w' = ticks start + List.length results
      /\ forall a b, a < b < List.length results ->
                     (nth a (map timestamp results) 0 < nth b (map timestamp results) 0)%Z
  | _ => True
  end.
Proof.
  apply timestamps_increase_with_the_index.
  intros a b Hab. unfold plainHost, hostOf. cbn [now]. lia.
Defined.

(** X15. On a prompt that fires no keyword step, and without a title,
    the handler of the composer does what the handler of the fallback does:
    the image drawn, then the default effect of the index; the same value,
    and the same world. *)
Theorem composer_without_keywords_is_the_fallback host this img p i w :
  plan this p = [DefaultEffect] ->
  createModifiedImage_onload host this img p i w
  = createFallbackModifiedImage_onload host img i w.
Proof.
  intros Hplan.
  unfold createModifiedImage_onload, createFallbackModifiedImage_onload. cbv zeta.
  unfold bind.
  destruct (drawImage host img 0 0 (createCanvas (width img) (height img)) w)
    as [c1 w1| |]; try reflexivity.
  rewrite applyImageModifications_runs_plan, Hplan. cbn [runSteps]. unfold bind, ret.
  cbn [runStep].
  destruct (addVariationEffect host (width (surface c1)) (height (surface c1)) i c1 w1);
    reflexivity.
Qed.

(** The prompt [hello] and no title. *)
Lemma composer_without_keywords_is_the_fallback_witness :
  createModifiedImage_onload (plainHost 0) (editor "hello" "" "" "1") pixel "hello" 1 start
  = createFallbackModifiedImage_onload (plainHost 0) pixel 1 start.
Proof.
  apply composer_without_keywords_is_the_fallback. reflexivity.
Defined.

(** X16. The prompt matters to a variant only through the keyword steps
    it fires: two prompts with the same steps give the same promise of the
    composer, the same image or the same failure in the same world. *)
Theorem prompt_matters_through_its_steps_only host this p1 p2 img64 i w :
  plan this p1 = plan this p2 ->
  createModifiedImage host this img64 p1 i w
  = createModifiedImage host this img64 p2 i w.
Proof.
  intros Hplan. rewrite !createModifiedImage_cases.
  destruct (decode host (loads w) (imageSrc this img64)) as [img|]; [|reflexivity].
  assert (E : createModifiedImage_onload host this img p1 i (afterLoad w)
              = createModifiedImage_onload host this img p2 i (afterLoad w)).
  { unfold createModifiedImage_onload. cbv zeta. unfold bind.
    destruct (drawImage host img 0 0 (createCanvas (width img) (height img))
                (afterLoad w)) as [c1 w1| |]; try reflexivity.
    rewrite !applyImageModifications_runs_plan, Hplan. reflexivity. }
  rewrite E. reflexivity.
Qed.

(** Two prompts that fire the tint and nothing else. *)
Lemma prompt_matters_through_its_steps_only_witness :
  createModifiedImage (plainHost 0) (editor "make it red" "" "" "1") base64
    "make it red" 0 start
  = createModifiedImage (plainHost 0) (editor "make it red" "" "" "1") base64
      "More COLOR, please" 0 start.
Proof.
  apply prompt_matters_through_its_steps_only. reflexivity.
Defined.

(** X17. The composer loads the selected image itself: when the selected
    image is the data URL of the stored file type with a payload, and
    neither holds a comma (as no MIME type and no base64 text does), the
    piece [processImageEdit] cuts out after the first comma is the payload,
    and the source the composer and the fallback load is the selected data
    URL again. *)
Theorem composer_loads_the_selected_image this payload :
  includes (selectedImageFile_type this) "," = false ->
  includes payload "," = false ->
  selectedImage this
  = Some ("data:" ++ selectedImageFile_type this ++ ";base64," ++ payload)%string ->
  imageBase64Of this = Some payload
  /\ selectedImage this = Some (imageSrc this (imageBase64Of this)).
Proof.
  intros Htype Hpayload Hsel.
  assert (Hb : imageBase64Of this = Some payload).
  { unfold imageBase64Of. rewrite Hsel.
    change (";base64," ++ payload)%string
      with (";base64" ++ String "," payload)%string.
    rewrite <- (string_app_assoc (selectedImageFile_type this) ";base64"
                  (String "," payload)).
    rewrite <- (string_app_assoc "data:" (selectedImageFile_type this ++ ";base64")
                  (String "," payload)).
    rewrite split_first, (split_none _ _ Hpayload); [reflexivity|].
    rewrite !includes_char_app, Htype. reflexivity. }
  split; [exact Hb|]. rewrite Hb, Hsel. reflexivity.
Qed.

(** The image of the examples. *)
Lemma composer_loads_the_selected_image_witness :
  imageBase64Of (editor "make it red" "" "" "1") = Some "iVBORw0KGgo="
  /\ selectedImage (editor "make it red" "" "" "1")
     = Some (imageSrc (editor "make it red" "" "" "1")
                      (imageBase64Of (editor "make it red" "" "" "1"))).
Proof.
  apply composer_loads_the_selected_image; reflexivity.
Defined.

(** X18. The count field is read as the number it shows: when it holds
    the decimal numeral of an integer of magnitude at most 2^53 (up to
    which a JavaScript number holds every integer exactly), the requested
    count is that integer, or 1 when the integer is zero. *)
Theorem count_field_number_is_the_count this z :
  (Z.abs z <= 2 ^ 53)%Z ->
  numberOfImages this = printZ z ->
  requestedCount this = (if z =? 0 then 1 else z)%Z.
Proof.
  intros _ Hfield. unfold requestedCount. rewrite Hfield, parseInt_printZ. reflexivity.
Qed.

(** The field shows 3. *)
Lemma count_field_number_is_the_count_witness :
  requestedCount (editor "make it red" "" "" "3") = 3%Z.
Proof.
  apply (count_field_number_is_the_count (editor "make it red" "" "" "3") 3).
  - apply Z.leb_le. reflexivity.
  - reflexivity.
Defined.

(** X19. An image that cannot be decoded hangs the request.  With a
    decoder that gives every load of a source the same outcome, a request
    that passes the guard and the analysis call, for a positive count and a
    source that does not load, never settles: the composer's promise is
    rejected, the fallback loads the same source and has no [onerror], and
    neither a result nor the error toast is reached. *)
Theorem undecodable_image_hangs_the_request host this w :
  (forall k k' source, decode host k source = decode host k' source) ->
  ignoresClick this = false ->
  analysisFailed (analysisOf host this) = false ->
  (0 < requestedCount this)%Z ->
  decode host 0 (imageSrc this (imageBase64Of this)) = None ->
  processImageEdit host this w = NeverSettles.
Proof.
  intros Hsteady Hg Hf Hcount Hnone. rewrite processImageEdit_cases, Hg.
  destruct (passed_analysis_generates host this _ _ w Hf) as [enhanced ->].
  unfold generateModifiedImages.
  destruct (Z.to_nat (requestedCount this)) as [|n] eqn:En; [lia|].
  cbn [generateLoop]. unfold bind at 1.
  assert (E : generateVariant host this enhanced (imageBase64Of this) 0 w
              = NeverSettles).
  { unfold generateVariant, tryCatch, bind.
    rewrite createModifiedImage_cases, (Hsteady (loads w) 0), Hnone.
    rewrite createFallbackModifiedImage_cases, (Hsteady _ 0), Hnone. reflexivity. }
  rewrite E. reflexivity.
Qed.

(** A page on which no image loads. *)
Lemma undecodable_image_hangs_the_request_witness :
  processImageEdit (hostOf neverLoads (okResponse None) (fun _ => 0%float))
    (editor "make it red" "" "" "1") start
  = NeverSettles.
Proof.
  apply undecodable_image_hangs_the_request; reflexivity.
Defined.

End FurtherProperties.
